(** * kes: configuration resolution and API-gateway synthesis

    A shallow embedding of [src/config.js] (class [Config]) and a
    verification of its documented behaviour.

    Modelling conventions.
    - A parsed YAML document is a tree of JavaScript values, [value]: "a
      parsed tree of mappings/sequences/scalars", in the words of the
      specification.  Numbers are the integers, strings are byte strings
      and the case conversions act on the ASCII letters.  A YAML anchor
      that makes two places share one object is not represented.
    - A JavaScript object is its list of own enumerable properties in the
      order [Object.keys] reports them: array-index keys ascending, then
      the other keys in insertion order.  The keys of a document are
      taken to be ordinary property names.
    - The three maps the synthesizer makes with [{}] and indexes by
      computed keys are another matter: a write under the key
      [__proto__] replaces the prototype of the map and stores no
      property ([store]), and the prototype of [apiDependencies], which
      line 140 reads through, is part of the state of the synthesizer.
    - A statement that throws yields [Throw]; the lines written to the
      console are kept in a log next to the outcome.
    - The one thing a value tree cannot hold is a named property stored on
      an Array object.  Where the source would do that the embedding
      answers [OffTree] instead of inventing a result.
    - [configureApiGateway] stores its results on the class [Config]
      itself; the enumerable own properties of the class are a piece of
      state that is passed in and out.
    - The file system, Mustache and js-yaml are parameters of the
      pipeline. *)

From Stdlib Require Import String Ascii List ZArith NArith Bool Lia.
From Stdlib Require Import DecimalString.
Import ListNotations.

Set Warnings "-register-all".

Local Open Scope string_scope.
Local Open Scope list_scope.

(* ================================================================== *)
(** * JavaScript values and outcomes *)
(* ================================================================== *)

Module Js.

(** What [yaml.safeLoad] can return, and what the code builds from it. *)
Inductive value : Type :=
| VUndef
| VNull
| VBool (b : bool)
| VNum (n : Z)
| VStr (s : string)
| VArr (elems : list value)
| VObj (props : list (string * value)).

(** Induction on values that goes through arrays and objects. *)
Fixpoint value_nested_ind (P : value -> Prop)
  (Hu : P VUndef) (Hn : P VNull) (Hb : forall b, P (VBool b))
  (Hz : forall n, P (VNum n)) (Hs : forall s, P (VStr s))
  (Ha : forall l, Forall P l -> P (VArr l))
  (Ho : forall o, Forall (fun kv => P (snd kv)) o -> P (VObj o))
  (v : value) {struct v} : P v :=
  match v with
  | VUndef => Hu
  | VNull => Hn
  | VBool b => Hb b
  | VNum n => Hz n
  | VStr s => Hs s
  | VArr l =>
      Ha l ((fix go (l : list value) : Forall P l :=
               match l with
               | [] => Forall_nil P
               | x :: r =>
                   Forall_cons x (value_nested_ind P Hu Hn Hb Hz Hs Ha Ho x) (go r)
               end) l)
  | VObj o =>
      Ho o ((fix go (o : list (string * value))
               : Forall (fun kv => P (snd kv)) o :=
               match o with
               | [] => Forall_nil _
               | kv :: r =>
                   Forall_cons kv
                     (value_nested_ind P Hu Hn Hb Hz Hs Ha Ho (snd kv)) (go r)
               end) o)
  end.

(** Own enumerable properties, in [Object.keys] order. *)
Definition obj : Type := list (string * value).

(** What can be thrown: a [TypeError] of the language, an error of the
    file system, an error of Mustache or js-yaml. *)
Inductive error : Type :=
| TypeError (msg : string)
| FsError (msg : string)
| LibError (msg : string).

(** How a computation ends: with a value, with a thrown error, or at a
    write of a named property on an Array object. *)
Inductive outcome (A : Type) : Type :=
| Ok (a : A)
| Throw (e : error)
| OffTree.

Arguments Ok {A} a.
Arguments Throw {A} e.
Arguments OffTree {A}.

Definition bind {A B : Type} (m : outcome A) (k : A -> outcome B) : outcome B :=
  match m with
  | Ok a => k a
  | Throw e => Throw e
  | OffTree => OffTree
  end.

(** Monadic map, left to right: the first failure ends the loop. *)
Fixpoint mapM {A B : Type} (f : A -> outcome B) (l : list A) : outcome (list B) :=
  match l with
  | [] => Ok []
  | x :: r =>
      bind (f x) (fun y => bind (mapM f r) (fun ys => Ok (y :: ys)))
  end.

(** Monadic left fold: a [for] loop over [l] threading the state [s]. *)
Fixpoint foldM {A S : Type} (f : S -> A -> outcome S) (s : S) (l : list A) : outcome S :=
  match l with
  | [] => Ok s
  | x :: r => bind (f s x) (fun s' => foldM f s' r)
  end.

(** ** Strings *)

Definition is_lower (c : ascii) : bool :=
  let n := nat_of_ascii c in (97 <=? n)%nat && (n <=? 122)%nat.

Definition is_upper (c : ascii) : bool :=
  let n := nat_of_ascii c in (65 <=? n)%nat && (n <=? 90)%nat.

Definition upper_char (c : ascii) : ascii :=
  if is_lower c then ascii_of_nat (nat_of_ascii c - 32) else c.

Definition lower_char (c : ascii) : ascii :=
  if is_upper c then ascii_of_nat (nat_of_ascii c + 32) else c.

Fixpoint map_string (f : ascii -> ascii) (s : string) : string :=
  match s with
  | EmptyString => EmptyString
  | String c r => String (f c) (map_string f r)
  end.

(** [String.prototype.toUpperCase] and [toLowerCase]. *)
Definition toUpperCase : string -> string := map_string upper_char.
Definition toLowerCase : string -> string := map_string lower_char.

(** [s.split(sep)] for a one-character separator: never empty. *)
Fixpoint split (sep : ascii) (s : string) : list string :=
  match s with
  | EmptyString => [EmptyString]
  | String c r =>
      if Ascii.eqb c sep then EmptyString :: split sep r
      else match split sep r with
           | [] => [String c EmptyString]
           | w :: ws => String c w :: ws
           end
  end.

(** [array.join('')] on an array of strings. *)
Definition join (l : list string) : string :=
  fold_right String.append EmptyString l.

(** [array.join(sep)]. *)
Fixpoint join_with (sep : string) (l : list string) : string :=
  match l with
  | [] => EmptyString
  | [x] => x
  | x :: r => x ++ sep ++ join_with sep r
  end.

(** The characters of a string, as the values a [for ... of] yields. *)
Fixpoint chars (s : string) : list value :=
  match s with
  | EmptyString => []
  | String c r => VStr (String c EmptyString) :: chars r
  end.

Definition string_of_Z (n : Z) : string :=
  NilZero.string_of_int (Z.to_int n).

(** ** Property keys *)

(** An array index is the canonical decimal numeral of an integer below
    [2^32 - 1]; such keys are enumerated first, in ascending order. *)
Definition array_index (k : string) : option N :=
  match NilZero.uint_of_string k with
  | Some d =>
      let n := N.of_uint d in
      if String.eqb (NilZero.string_of_uint (N.to_uint n)) k && (n <? 4294967295)%N
      then Some n else None
  | None => None
  end.

Fixpoint lookup (k : string) (o : obj) : option value :=
  match o with
  | [] => None
  | (k', v) :: r => if String.eqb k k' then Some v else lookup k r
  end.

Definition has_key (k : string) (o : obj) : bool :=
  match lookup k o with Some _ => true | None => false end.

Definition keys (o : obj) : list string := map fst o.
Definition values (o : obj) : list value := map snd o.

(** Overwrite the value of a key that is present; the place is kept. *)
Fixpoint replace_key (k : string) (v : value) (o : obj) : obj :=
  match o with
  | [] => []
  | (k', v') :: r =>
      if String.eqb k k' then (k, v) :: r else (k', v') :: replace_key k v r
  end.

(** Create an array-index key: it goes after the smaller indices and
    before everything else. *)
Fixpoint insert_index (i : N) (k : string) (v : value) (o : obj) : obj :=
  match o with
  | [] => [(k, v)]
  | (k', v') :: r =>
      match array_index k' with
      | Some j =>
          if (j <? i)%N then (k', v') :: insert_index i k v r
          else (k, v) :: (k', v') :: r
      | None => (k, v) :: (k', v') :: r
      end
  end.

(** The own property [k] set to [v]: what [o[k] = v] does on an
    ordinary object for every key that reaches no inherited setter. *)
Definition obj_set (o : obj) (k : string) (v : value) : obj :=
  if has_key k o then replace_key k v o
  else match array_index k with
       | Some i => insert_index i k v o
       | None => o ++ [(k, v)]
       end.

(** [o[k] = v] on an object made by the literal [{}], for a [v] that is
    an object or a sequence.  Every key but [__proto__] becomes an own
    property.  The key [__proto__] reaches the setter inherited from
    [Object.prototype]: [v] becomes the prototype of [o] and no own
    property is stored, so that [Object.keys] and [Object.values] never
    show it. *)
Definition store (o : obj) (k : string) (v : value) : obj :=
  if String.eqb k "__proto__" then o else obj_set o k v.

(** ** Conversions *)

Definition truthy (v : value) : bool :=
  match v with
  | VUndef | VNull => false
  | VBool b => b
  | VNum n => negb (n =? 0)%Z
  | VStr s => negb (String.eqb s EmptyString)
  | VArr _ | VObj _ => true
  end.

(** [ToString], as a template literal or a computed property key applies
    it.  An array joins its elements with a comma, [null] and [undefined]
    elements giving the empty string; an object prints as
    [[object Object]], unless it has an own [toString], which a YAML value
    can only fill with something that is not callable. *)
Fixpoint ToString (v : value) : outcome string :=
  match v with
  | VUndef => Ok "undefined"
  | VNull => Ok "null"
  | VBool true => Ok "true"
  | VBool false => Ok "false"
  | VNum n => Ok (string_of_Z n)
  | VStr s => Ok s
  | VArr l =>
      let elem x :=
        match x with
        | VUndef | VNull => Ok EmptyString
        | _ => ToString x
        end in
      bind ((fix go (l : list value) : outcome (list string) :=
               match l with
               | [] => Ok []
               | x :: r => bind (elem x) (fun s => bind (go r) (fun ss => Ok (s :: ss)))
               end) l)
           (fun ss => Ok (join_with "," ss))
  | VObj o =>
      if has_key "toString" o
      then Throw (TypeError "Cannot convert object to primitive value")
      else Ok "[object Object]"
  end.

(** ** Property access *)

(** [v.k] for a name [k] that no built-in prototype defines and that is
    neither an index nor [length]. *)
Definition get (v : value) (k : string) : outcome value :=
  match v with
  | VUndef | VNull =>
      Throw (TypeError ("Cannot read property '" ++ k ++ "' of undefined"))
  | VObj o => Ok (match lookup k o with Some x => x | None => VUndef end)
  | _ => Ok VUndef
  end.

(** [Object.prototype.hasOwnProperty.call(v, k)] for such a name. *)
Definition own (v : value) (k : string) : bool :=
  match v with
  | VObj o => has_key k o
  | _ => false
  end.

(** The method call [v.hasOwnProperty(k)]: an own property of that name
    shadows the inherited method and cannot be called. *)
Definition hasOwnProperty (v : value) (k : string) : outcome bool :=
  match v with
  | VUndef | VNull =>
      Throw (TypeError "Cannot read property 'hasOwnProperty' of undefined")
  | VObj o =>
      if has_key "hasOwnProperty" o
      then Throw (TypeError "hasOwnProperty is not a function")
      else Ok (has_key k o)
  | _ => Ok false
  end.

(** The strict-mode assignment [v.k = x]. *)
Definition set (v : value) (k : string) (x : value) : outcome value :=
  match v with
  | VObj o => Ok (VObj (obj_set o k x))
  | VArr _ => OffTree
  | VUndef | VNull =>
      Throw (TypeError ("Cannot set property '" ++ k ++ "' of undefined"))
  | _ => Throw (TypeError ("Cannot create property '" ++ k ++ "'"))
  end.

(** The error of a [for ... of] over something that cannot be iterated. *)
Definition not_iterable : error := TypeError "value is not iterable".

(** The values a [for (const x of v)] loop visits. *)
Definition iterate (v : value) : outcome (list value) :=
  match v with
  | VArr l => Ok l
  | VStr s => Ok (chars s)
  | _ => Throw not_iterable
  end.

(** The elements [v.forEach] visits. *)
Definition forEach_elems (v : value) : outcome (list value) :=
  match v with
  | VArr l => Ok l
  | VUndef | VNull =>
      Throw (TypeError "Cannot read property 'forEach' of undefined")
  | _ => Throw (TypeError "forEach is not a function")
  end.

(** Own enumerable properties of a source of [Object.assign]. *)
Fixpoint indexed (i : N) (l : list value) : obj :=
  match l with
  | [] => []
  | x :: r => (NilZero.string_of_uint (N.to_uint i), x) :: indexed (N.succ i) r
  end.

Definition entries (v : value) : obj :=
  match v with
  | VObj o => o
  | VArr l => indexed 0 l
  | VStr s => indexed 0 (chars s)
  | _ => []
  end.

Definition assign_obj (target : obj) (source : obj) : obj :=
  fold_left (fun acc kv => obj_set acc (fst kv) (snd kv)) source target.

(** A String wrapper refuses writes to [length] and to its characters. *)
Definition string_locked (s : string) (k : string) : bool :=
  String.eqb k "length" ||
  match array_index k with
  | Some i => (i <? N.of_nat (String.length s))%N
  | None => false
  end.

(** The state of [target] after [Object.assign(target, source)], the
    value of the call itself being dropped.  A primitive target is
    wrapped, and the wrapper is lost with the call. *)
Definition Object_assign (target source : value) : outcome value :=
  match target with
  | VUndef | VNull =>
      Throw (TypeError "Cannot convert undefined or null to object")
  | VBool _ | VNum _ => Ok target
  | VStr s =>
      if existsb (string_locked s) (keys (entries source))
      then Throw (TypeError "Cannot assign to read only property")
      else Ok target
  | VArr _ =>
      match entries source with
      | [] => Ok target
      | _ :: _ => OffTree
      end
  | VObj o => Ok (VObj (assign_obj o (entries source)))
  end.

(** ** Console output

    A computation that may write lines to the console before it ends. *)

Definition M (A : Type) : Type := (list string * outcome A)%type.

Definition ret {A : Type} (a : A) : M A := ([], Ok a).

Definition lift {A : Type} (o : outcome A) : M A := ([], o).

Definition console (line : string) : M unit := ([line], Ok tt).

Definition bindM {A B : Type} (m : M A) (k : A -> M B) : M B :=
  match m with
  | (l, Ok a) => let (l', r) := k a in (l ++ l', r)
  | (l, Throw e) => (l, Throw e)
  | (l, OffTree) => (l, OffTree)
  end.

Fixpoint foldMM {A S : Type} (f : S -> A -> M S) (s : S) (l : list A) : M S :=
  match l with
  | [] => ret s
  | x :: r => bindM (f s x) (fun s' => foldMM f s' r)
  end.

Definition message (e : error) : string :=
  match e with
  | TypeError m | FsError m | LibError m => m
  end.

(** [hay.includes(needle)]. *)
Fixpoint includes (hay needle : string) : bool :=
  prefix needle hay ||
  match hay with
  | EmptyString => false
  | String _ r => includes r needle
  end.

End Js.

Declare Scope js_scope.
Delimit Scope js_scope with js.
Notation "x <- e ;; k" := (Js.bind e (fun x => k))
  (at level 61, e at next level, right associativity) : js_scope.
Notation "x <~ e ;; k" := (Js.bindM e (fun x => k))
  (at level 61, e at next level, right associativity) : js_scope.

(* ================================================================== *)
(** * The lodash helpers the source imports *)
(* ================================================================== *)

Module Lodash.
Import Js.

(** lodash's own [toString]: empty for [null] and [undefined], the
    JavaScript conversion otherwise. *)
Definition toString (v : value) : outcome string :=
  match v with
  | VUndef | VNull => Ok EmptyString
  | _ => ToString v
  end.

(** [has(object, key)] for a plain key: an own-property test that is
    false on [null] and [undefined]. *)
Definition has (v : value) (k : string) : bool := own v k.

(** [startsWith(string, target)]. *)
Definition startsWith (s target : string) : bool := prefix target s.

Fixpoint mem_char (c : ascii) (cs : string) : bool :=
  match cs with
  | EmptyString => false
  | String c' r => Ascii.eqb c c' || mem_char c r
  end.

Fixpoint trimStart (s cs : string) : string :=
  match s with
  | EmptyString => EmptyString
  | String c r => if mem_char c cs then trimStart r cs else s
  end.

Fixpoint trimEnd (s cs : string) : string :=
  match s with
  | EmptyString => EmptyString
  | String c r =>
      match trimEnd r cs with
      | EmptyString => if mem_char c cs then EmptyString else String c EmptyString
      | r' => String c r'
      end
  end.

(** [trim(string, chars)]: drop the leading and trailing characters that
    occur in [chars]. *)
Definition trim (s cs : string) : string := trimEnd (trimStart s cs) cs.

Fixpoint drop (n : nat) (s : string) : string :=
  match n, s with
  | O, _ => s
  | S n', String _ r => drop n' r
  | S _, EmptyString => EmptyString
  end.

(** [replace(string, pattern, replacement)] with a string pattern: only
    the first occurrence is replaced.  The replacement is taken
    literally, as it is for the empty replacement the source passes. *)
Fixpoint replace (s pattern replacement : string) {struct s} : string :=
  if prefix pattern s then replacement ++ drop (String.length pattern) s
  else match s with
       | EmptyString => EmptyString
       | String c r => String c (replace r pattern replacement)
       end.

(** [upperFirst(string)]. *)
Definition upperFirst (s : string) : string :=
  match s with
  | EmptyString => EmptyString
  | String c r => String (upper_char c) r
  end.

(** [capitalize(string)]: first character upper case, the rest lower. *)
Definition capitalize (v : value) : outcome string :=
  bind (toString v) (fun s => Ok (upperFirst (toLowerCase s))).

End Lodash.

(* ================================================================== *)
(** * class Config *)
(* ================================================================== *)

Module Config.
Import Js Lodash.
Local Open Scope js_scope.

(** The fields the constructor stores.  [stack] and [stage] are strings
    or absent; [envs] is what [utils.loadLocalEnvs] returned. *)
Record t : Type := {
  stack : option string;
  stage : option string;
  configFile : string;
  stageFile : string;
  envs : value
}.

(** [if (this.stack)]: present and not the empty string. *)
Definition given (x : option string) : bool :=
  match x with
  | Some s => negb (String.eqb s EmptyString)
  | None => false
  end.

(** ** configureApiGateway *)

(** The four accumulators of the synthesizer.  The three maps are made
    by [{}]: their fields are their own properties.  The prototype of
    [apiDependencies] is kept too, as line 140 reads through it: it is
    [Object.prototype] ([None]) until line 56 meets an API named
    [__proto__], and from then on the sequence that line installed.
    The prototypes of the other two maps are written by lines 115 and
    152 and read by nothing. *)
Record synth : Type := {
  apiMethods : list value;
  apiMethodsOptions : obj;
  apiDependencies : obj;
  apiDependenciesProto : option (list value);
  apiResources : obj
}.

(** What the function hands back: its own argument, or the class
    [Config] on which it has stored the four results. *)
Inductive returned : Type := SameConfig | TheClass.

(** Lines 86-92: the display name of one path segment. *)
Definition display_name (segment : string) : string :=
  upperFirst
    (if startsWith segment "{"
     then replace (trim segment "{}") "_" "" ++ "Var"
     else segment).

(** The state of the [segments.forEach] callback: the index, the names
    seen so far and the resource map. *)
Definition seg_state : Type := (nat * list string * obj)%type.

(** Lines 82-121: one turn of [segments.forEach]. *)
Definition add_segment (api : value) (st : seg_state) (segment : string)
  : outcome seg_state :=
  let '(index, segmentNames, resources) := st in
  let name := display_name segment in
  let segmentNames' := segmentNames ++ [name] in
  r <- (match index with
        | O =>
            a <- get api "api" ;;
            s <- ToString a ;;
            Ok (VArr [VStr "Fn::GetAtt:";
                      VStr ("- " ++ s ++ "RestApi");
                      VStr "- RootResourceId"],
                name)
        | S _ =>
            Ok (VArr [VStr ("Ref: ApiGateWayResource"
                            ++ join (firstn index segmentNames'))],
                join segmentNames')
        end) ;;
  let '(parents, name) := r in
  a <- get api "api" ;;
  Ok (S index, segmentNames',
      store resources name
        (VObj [("name", VStr ("ApiGateWayResource" ++ name));
               ("pathPart", VStr segment);
               ("parents", parents);
               ("api", a)])).

(** Line 76: [api.path.split('/')]. *)
Definition path_segments (api : value) : outcome (list string) :=
  p <- get api "path" ;;
  match p with
  | VStr s => Ok (split "/" s)
  | VUndef | VNull => Throw (TypeError "Cannot read property 'split' of undefined")
  | _ => Throw (TypeError "api.path.split is not a function")
  end.

(** Lines 139-147: the [try] block and its [catch].  Under an own key
    [apiDependencies[api.api]] is the list declared for it, and under
    [__proto__] it is the prototype; whatever else the key selects, own
    or inherited, is [undefined] or has no [push], and the call is a
    [TypeError], written here with the message of the first case. *)
Definition push_dependency (deps : obj) (proto : option (list value))
  (api : value) (methodName : string) : M (obj * option (list value)) :=
  match (a <- get api "api" ;;
         k <- ToString a ;;
         let entry := VObj [("name", VStr methodName)] in
         if String.eqb k "__proto__" then
           match proto with
           | Some l => Ok (deps, Some (l ++ [entry]))
           | None =>
               Throw (TypeError "Cannot read property 'push' of undefined")
           end
         else
           match lookup k deps with
           | Some (VArr l) => Ok (obj_set deps k (VArr (l ++ [entry])), proto)
           | _ => Throw (TypeError "Cannot read property 'push' of undefined")
           end) with
  | Ok deps' => ret deps'
  | Throw e =>
      a <~ lift (get api "api") ;;
      s <~ lift (ToString a) ;;
      _ <~ console (s ++ " is not defined") ;;
      lift (Throw e)
  | OffTree => lift OffTree
  end.

(** Lines 69-158: the body of the loop over one lambda's routes. *)
Definition add_route (lambda : value) (st : synth) (api : value) : M synth :=
  segments <~ lift (path_segments api) ;;
  seg <~ lift (foldM (add_segment api) (O, [], apiResources st) segments) ;;
  let '(_, segmentNames, resources) := seg in
  m <~ lift (get api "method") ;;
  method <~ lift (capitalize m) ;;
  let name := join segmentNames in
  suffix <~ lift (capitalize (VStr method)) ;;
  let methodName := ("ApiGatewayMethod" ++ name ++ suffix)%string in
  cors <~ lift (get api "cors") ;;
  lambdaName <~ lift (get lambda "name") ;;
  a <~ lift (get api "api") ;;
  let node :=
    VObj [("name", VStr methodName);
          ("method", VStr (toUpperCase method));
          ("cors", if truthy cors then cors else VBool false);
          ("resource", VStr ("ApiGateWayResource" ++ name));
          ("lambda", lambdaName);
          ("api", a)] in
  deps <~ push_dependency (apiDependencies st) (apiDependenciesProto st)
            api methodName ;;
  let options :=
    if truthy cors
    then store (apiMethodsOptions st) name
           (VObj [("name", VStr ("ApiGatewayMethod" ++ name ++ "Options"));
                  ("resource", VStr ("ApiGateWayResource" ++ name));
                  ("api", a)])
    else apiMethodsOptions st in
  ret {| apiMethods := apiMethods st ++ [node];
         apiMethodsOptions := options;
         apiDependencies := fst deps;
         apiDependenciesProto := snd deps;
         apiResources := resources |}.

(** Lines 65-160: the body of the loop over the lambdas. *)
Definition add_lambda (st : synth) (lambda : value) : M synth :=
  h <~ lift (hasOwnProperty lambda "apiGateway") ;;
  if h : bool then
    g <~ lift (get lambda "apiGateway") ;;
    routes <~ lift (iterate g) ;;
    foldMM (add_route lambda) st routes
  else ret st.

(** Lines 55-57, on the own properties and the prototype of
    [apiDependencies]. *)
Definition declare_api (deps : obj * option (list value)) (api : value)
  : outcome (obj * option (list value)) :=
  n <- get api "name" ;;
  k <- ToString n ;;
  Ok (if String.eqb k "__proto__"
      then (fst deps, Some [])
      else (obj_set (fst deps) k (VArr []), snd deps)).

(** Lines 162-170: the object literal merged into the class. *)
Definition results (st : synth) : obj :=
  [("apiMethods", VArr (apiMethods st));
   ("apiResources", VArr (values (apiResources st)));
   ("apiMethodsOptions", VArr (values (apiMethodsOptions st)));
   ("apiDependencies",
    VArr (map (fun kv => VObj [("name", VStr (fst kv)); ("methods", snd kv)])
              (apiDependencies st)))].

(** [configureApiGateway(config)].  [statics] are the enumerable own
    properties of the class [Config] before the call; the result carries
    them after the call. *)
Definition configureApiGateway (statics : obj) (config : value)
  : M (obj * returned) :=
  apis <~ lift (get config "apis") ;;
  if truthy apis then
    declared <~ lift (forEach_elems apis) ;;
    deps <~ lift (foldM declare_api ([], None) declared) ;;
    lambdas <~ lift (get config "lambdas") ;;
    ls <~ lift (iterate lambdas) ;;
    st <~ foldMM add_lambda
            {| apiMethods := []; apiMethodsOptions := [];
               apiDependencies := fst deps;
               apiDependenciesProto := snd deps;
               apiResources := [] |} ls ;;
    ret (assign_obj statics (results st), TheClass)
  else ret (statics, SameConfig).

(** ** configureLambda *)

(** Lines 200-202: the loop over [lambda.services]. *)
Definition name_services (lambda : value) : outcome value :=
  services <- get lambda "services" ;;
  items <- iterate services ;;
  items' <- mapM (fun service =>
                    n <- get lambda "name" ;;
                    set service "lambdaName" n) items ;;
  match services with
  | VArr _ => set lambda "services" (VArr items')
  | _ => Ok lambda
  end.

(** [if (!has(lambda, key)) lambda[key] = x]. *)
Definition default_to (lambda : value) (key : string) (x : value)
  : outcome value :=
  if has lambda key then Ok lambda else set lambda key x.

(** Lines 190-207: memory, timeout, services and envs. *)
Definition fill_defaults (lambda : value) : outcome value :=
  l1 <- default_to lambda "memory" (VNum 1024) ;;
  l2 <- default_to l1 "timeout" (VNum 300) ;;
  h <- hasOwnProperty l2 "services" ;;
  l3 <- (if h : bool then name_services l2 else Ok l2) ;;
  default_to l3 "envs" (VArr []).

(** Line 210. *)
Definition set_fullName (config lambda : value) : outcome value :=
  sn <- get config "stackName" ;;
  s1 <- ToString sn ;;
  sg <- get config "stage" ;;
  s2 <- ToString sg ;;
  n <- get lambda "name" ;;
  s3 <- ToString n ;;
  set lambda "fullName" (VStr (s1 ++ "-" ++ s2 ++ "-" ++ s3)).

(** Lines 190-210: the body of the loop, on one entry of [lambdas]. *)
Definition default_lambda (config : value) (lambda : value) : outcome value :=
  l4 <- fill_defaults lambda ;;
  set_fullName config l4.

(** [configureLambda(config)].  The entries are changed in place, which
    on a tree is the same sequence put back under [lambdas]. *)
Definition configureLambda (config : value) : outcome value :=
  lambdas <- get config "lambdas" ;;
  if truthy lambdas then
    ls <- iterate lambdas ;;
    ls' <- mapM (default_lambda config) ls ;;
    match lambdas with
    | VArr _ => set config "lambdas" (VArr ls')
    | _ => Ok config
    end
  else Ok config.

(** ** parseStage and parseConfig *)

Section Pipeline.

(** The collaborators: the file system, Mustache (with escaping turned
    off, as both callers set it) and js-yaml, the latter with and
    without the include schema. *)
Variable readFileSync : string -> outcome string.
Variable Mustache_render : string -> value -> outcome string.
Variable yaml_safeLoad_include : string -> outcome value.
Variable yaml_safeLoad : string -> outcome value.
Variable yaml_dump : value -> outcome string.

(** Lines 243-246. *)
Definition merge_stage (this : t) (stageConfig : value) : outcome value :=
  match stage this with
  | Some s =>
      if given (stage this) then
        d <- get stageConfig "default" ;;
        section <- get stageConfig s ;;
        Object_assign d section
      else get stageConfig "default"
  | None => get stageConfig "default"
  end.

(** [parseStage()]. *)
Definition parseStage (this : t) : M value :=
  match readFileSync (stageFile this) with
  | Throw e =>
      if includes (message e) "no such file or directory" then
        _ <~ console (stageFile this ++ " was not found. Skipping stage") ;;
        ret (VObj [])
      else lift (Throw e)
  | OffTree => lift OffTree
  | Ok text =>
      rendered <~ lift (Mustache_render text (envs this)) ;;
      stageConfig <~ lift (yaml_safeLoad_include rendered) ;;
      lift (merge_stage this stageConfig)
  end.

(** Lines 258-270: the two rendering passes.  The result is the render
    context together with the parsed document. *)
Definition load_config (this : t) (stageConfig : value)
  : outcome (value * value) :=
  configText <- readFileSync (configFile this) ;;
  context <- Object_assign stageConfig (envs this) ;;
  rendered <- Mustache_render configText context ;;
  tmp <- yaml_safeLoad_include rendered ;;
  tmp2 <- yaml_dump tmp ;;
  rendered2 <- Mustache_render tmp2 context ;;
  config <- yaml_safeLoad rendered2 ;;
  Ok (context, config).

(** Lines 272-278. *)
Definition override (field : string) (x : option string) (config : value)
  : outcome value :=
  match x with
  | Some s => if given x then set config field (VStr s) else Ok config
  | None => Ok config
  end.

(** Line 282: [Object.assign(config, <what configureApiGateway returned>)]. *)
Definition merge_returned (config : value) (statics : obj) (r : returned)
  : outcome value :=
  match r with
  | TheClass => Object_assign config (VObj statics)
  | SameConfig =>
      match config with
      | VObj _ | VArr _ => Ok config
      | _ => Object_assign config config
      end
  end.

(** Lines 272-284. *)
Definition finish_config (statics : obj) (this : t) (context config : value)
  : M (obj * value) :=
  c1 <~ lift (override "stackName" (stack this) config) ;;
  c2 <~ lift (override "stage" (stage this) c1) ;;
  c3 <~ lift (Object_assign c2 context) ;;
  c4 <~ lift (configureLambda c3) ;;
  r <~ configureApiGateway statics c4 ;;
  c5 <~ lift (merge_returned c4 (fst r) (snd r)) ;;
  ret (fst r, c5).

(** [parseConfig(stageConfig)]. *)
Definition parseConfig (statics : obj) (this : t) (stageConfig : value)
  : M (obj * value) :=
  loaded <~ lift (load_config this stageConfig) ;;
  finish_config statics this (fst loaded) (snd loaded).

(** [parse()]. *)
Definition parse (statics : obj) (this : t) : M (obj * value) :=
  stageConfig <~ parseStage this ;;
  parseConfig statics this stageConfig.

End Pipeline.

End Config.

(* ================================================================== *)
(** * Vocabulary of the specification *)
(* ================================================================== *)

Module Spec.
Import Js Lodash Config.

(** The dedup key of a whole path: its display names, concatenated. *)
Definition leaf_key (path : string) : string :=
  join (map display_name (split "/" path)).

(** A piece of text without braces, and without braces or underscores. *)
Fixpoint no_brace (s : string) : bool :=
  match s with
  | EmptyString => true
  | String c r => negb (mem_char c "{}") && no_brace r
  end.

Fixpoint plain (s : string) : bool :=
  match s with
  | EmptyString => true
  | String c r => negb (mem_char c "{}_") && plain r
  end.

(** Reading a document without the failure cases. *)
Definition field (v : value) (k : string) : value :=
  match get v k with Ok x => x | _ => VUndef end.

Definition items (v : value) : list value :=
  match iterate v with Ok l => l | _ => [] end.

(** The route declarations of a document, in declaration order. *)
Definition routes_of_lambda (lambda : value) : list value :=
  if own lambda "apiGateway" then items (field lambda "apiGateway") else [].

Definition routes_of (config : value) : list value :=
  flat_map routes_of_lambda (items (field config "lambdas")).

(** The route declares [cors] with a true value. *)
Definition cors_enabled (route : value) : bool := truthy (field route "cors").

(** The names the synthesizer gives to the nodes of a leaf. *)
Definition options_name (key : string) : string :=
  "ApiGatewayMethod" ++ key ++ "Options".

Definition resource_name (key : string) : string :=
  "ApiGateWayResource" ++ key.

(** An outcome that is a value or a [TypeError]. *)
Definition type_error_only {A : Type} (o : outcome A) : Prop :=
  match o with
  | Ok _ => True
  | Throw (TypeError _) => True
  | _ => False
  end.

(** The Method-Options node the synthesizer stores under a leaf key. *)
Definition options_node (key : string) (api : value) : value :=
  VObj [("name", VStr (options_name key));
        ("resource", VStr (resource_name key));
        ("api", api)].

(** A node map holds each key once, under the name made from it, and
    never the key [__proto__]. *)
Definition named_by (nm : string -> string) (o : obj) : Prop :=
  NoDup (keys o) /\
  (forall k v, In (k, v) o -> field v "name" = VStr (nm k)) /\
  ~ In "__proto__" (keys o).

(** The non-empty prefixes of a list of segments. *)
Definition prefixes (segments : list string) : list (list string) :=
  map (fun j => firstn j segments) (seq 1 (List.length segments)).

(** The dedup keys of a path: one per non-empty prefix of its segments,
    the display names of the prefix concatenated. *)
Definition prefix_keys (path : string) : list string :=
  map (fun pre => join (map display_name pre)) (prefixes (split "/" path)).

(** The two node maps, each holding every key once. *)
Definition maps_inv (st : synth) : Prop :=
  named_by options_name (apiMethodsOptions st) /\
  named_by resource_name (apiResources st).

(** What is in the maps after the routes [routes] have been handled:
    a node under every key other than [__proto__]. *)
Definition covered (routes : list value) (st : synth) : Prop :=
  forall r p, In r routes -> get r "path" = Ok (VStr p) ->
    (cors_enabled r = true -> leaf_key p <> "__proto__" ->
     In (leaf_key p) (keys (apiMethodsOptions st))) /\
    (forall key, In key (prefix_keys p) -> key <> "__proto__" ->
                 In key (keys (apiResources st))).

(** No key is lost between two states of the synthesizer. *)
Definition grows (st st' : synth) : Prop :=
  (forall k, In k (keys (apiMethodsOptions st)) ->
             In k (keys (apiMethodsOptions st'))) /\
  (forall k, In k (keys (apiResources st)) ->
             In k (keys (apiResources st'))).

(** The four fields the synthesizer produces. *)
Definition output_keys : list string :=
  ["apiMethods"; "apiResources"; "apiMethodsOptions"; "apiDependencies"].

(** The class carries no enumerable property besides those four, which
    is how it starts and how every call leaves it. *)
Definition class_clean (statics : obj) : Prop :=
  forall k, In k (keys statics) -> In k output_keys.

(** The keys the last two steps of the resolver rewrite. *)
Definition rewritten (k : string) : bool :=
  String.eqb k "lambdas" || existsb (String.eqb k) output_keys.

(** The document after the two overrides of lines 272-278. *)
Definition overridden (this : Config.t) (c : obj) : obj :=
  let c1 := match stack this with
            | Some s => if given (stack this) then obj_set c "stackName" (VStr s) else c
            | None => c
            end in
  match stage this with
  | Some s => if given (stage this) then obj_set c1 "stage" (VStr s) else c1
  | None => c1
  end.

(** An entry of [lambdas] on which lines 190-207 have nothing left to
    do: the three defaults are present and every service already carries
    the entry's name. *)
Definition settled (o : obj) : Prop :=
  has_key "memory" o = true /\
  has_key "timeout" o = true /\
  has_key "envs" o = true /\
  has_key "hasOwnProperty" o = false /\
  (has_key "services" o = true ->
   exists sv items,
     lookup "services" o = Some sv /\
     iterate sv = Ok items /\
     mapM (fun service => set service "lambdaName" (field (VObj o) "name")) items
       = Ok items).

(** [node] is the method node of [route]: its name ends in the
    capitalized verb, its [method] is the verb in upper case. *)
Definition method_node_of (route node : value) : Prop :=
  exists p m,
    get route "path" = Ok (VStr p) /\
    Lodash.toString (field route "method") = Ok m /\
    get node "name" =
      Ok (VStr ("ApiGatewayMethod" ++ leaf_key p ++ upperFirst (toLowerCase m))) /\
    get node "method" = Ok (VStr (toUpperCase m)).

(** The method node as the specification words it: the name ends in
    the verb in upper case. *)
Definition method_node_as_specified (route node : value) : Prop :=
  exists p m,
    get route "path" = Ok (VStr p) /\
    Lodash.toString (field route "method") = Ok m /\
    get node "name" =
      Ok (VStr ("ApiGatewayMethod" ++ leaf_key p ++ toUpperCase m)) /\
    get node "method" = Ok (VStr (toUpperCase m)).

(** ** Well-formed documents

    The shape the data model of the specification gives to the entries
    the synthesizer reads. *)

Definition is_str (v : option value) : bool :=
  match v with Some (VStr _) => true | _ => false end.

Definition route_ok (r : value) : bool :=
  match r with
  | VObj o =>
      is_str (lookup "path" o) && is_str (lookup "api" o) &&
      match lookup "method" o with
      | None | Some (VStr _) => true
      | _ => false
      end
  | _ => false
  end.

Definition lambda_ok (l : value) : bool :=
  match l with
  | VObj o =>
      negb (has_key "hasOwnProperty" o) &&
      match lookup "apiGateway" o with
      | None => true
      | Some (VArr rs) => forallb route_ok rs
      | _ => false
      end
  | _ => false
  end.

Definition api_ok (a : value) : bool :=
  match a with
  | VObj o => is_str (lookup "name" o)
  | _ => false
  end.

Definition doc_ok (d : value) : bool :=
  match field d "apis", field d "lambdas" with
  | VArr decls, VArr ls => forallb api_ok decls && forallb lambda_ok ls
  | _, _ => false
  end.

Definition str_of (v : value) : string :=
  match v with VStr s => s | _ => EmptyString end.

(** The list [apiDependencies[k]] selects, if it selects one: the own
    property [k], or the prototype for [__proto__]. *)
Definition selected (deps : obj) (proto : option (list value)) (k : string)
  : option (list value) :=
  if String.eqb k "__proto__" then proto
  else match lookup k deps with
       | Some (VArr l) => Some l
       | _ => None
       end.

(** [apiDependencies] after [entry] has been pushed on the list [l]
    that [k] selects. *)
Definition pushed (deps : obj) (proto : option (list value)) (k : string)
  (l : list value) (entry : value) : obj * option (list value) :=
  if String.eqb k "__proto__" then (deps, Some (l ++ [entry]))
  else (obj_set deps k (VArr (l ++ [entry])), proto).

(** [apiDependencies] selects a list under each declared identifier and
    under nothing else. *)
Definition deps_for (names : list string) (deps : obj)
  (proto : option (list value)) : Prop :=
  forall k, (exists l, selected deps proto k = Some l) <-> In k names.

(** The identifier a route refers to. *)
Definition route_api (r : value) : string := str_of (field r "api").

(** The error of calling [push] on what an undeclared identifier
    selects. *)
Definition push_error : error :=
  TypeError "Cannot read property 'push' of undefined".

(** What a loop reports: the first identifier that is not declared. *)
Definition report {A : Type} (names ids : list string)
  (run : M A) (good : A -> Prop) : Prop :=
  match filter (fun a => negb (existsb (String.eqb a) names)) ids with
  | [] => exists x, run = ([], Ok x) /\ good x
  | id :: _ => run = ([(id ++ " is not defined")%string], Throw push_error)
  end.

(** The identifiers the top-level [apis] list declares. *)
Definition declared (d : value) : list string :=
  map (fun a => str_of (field a "name")) (items (field d "apis")).

(** The identifiers the routes refer to that [apis] does not declare, in
    the order the synthesizer meets them. *)
Definition undeclared (d : value) : list string :=
  filter (fun a => negb (existsb (String.eqb a) (declared d)))
         (map route_api (routes_of d)).

(** How many nodes of a list carry a given name. *)
Definition count_named (name : string) (nodes : list value) : nat :=
  List.length (filter (fun n => match field n "name" with
                                | VStr s => String.eqb s name
                                | _ => false
                                end) nodes).

End Spec.

(* ================================================================== *)
(** * Sample documents *)
(* ================================================================== *)

Module Samples.
Import Js Config.

Definition route (api path method : string) (cors : bool) : value :=
  VObj ([("api", VStr api); ("path", VStr path); ("method", VStr method)]
        ++ (if cors then [("cors", VBool true)] else [])).

(** One API named [Api] and one lambda [f] carrying the given routes. *)
Definition doc (routes : list value) : value :=
  VObj [("apis", VArr [VObj [("name", VStr "Api")]]);
        ("lambdas", VArr [VObj [("name", VStr "f");
                                ("apiGateway", VArr routes)]])].

(** The example of the comment at lines 73-75 of the source. *)
Definition foo_routes : list value :=
  [route "Api" "/foo" "get" false;
   route "Api" "/foo/bar" "get" false;
   route "Api" "/foo/baz" "post" false].

(** Two CORS-enabled routes on one leaf, with different verbs. *)
Definition cors_routes : list value :=
  [route "Api" "foo/baz" "post" true;
   route "Api" "foo/baz" "put" true].

(** Two CORS-enabled routes on the leaf [__proto__], with different
    verbs. *)
Definition proto_cors_routes : list value :=
  [route "Api" "__proto__" "post" true;
   route "Api" "__proto__" "put" true].

(** A route that refers to an API the document does not declare. *)
Definition missing_routes : list value :=
  [route "Api" "foo" "get" false;
   route "Missing" "bar" "get" false].

(** The same document without a top-level [apis] list. *)
Definition doc_without_apis : value :=
  VObj [("lambdas", VArr [VObj [("name", VStr "f");
                                ("apiGateway", VArr missing_routes)]])].

(** The same three routes written without the leading slash. *)
Definition foo_routes_bare : list value :=
  [route "Api" "foo" "get" false;
   route "Api" "foo/bar" "get" false;
   route "Api" "foo/baz" "post" false].

(** Collaborators for running the pipeline on documents that are
    already parsed: a file system holding every file as the empty text,
    a renderer and a dumper that return the text, loaders that return a
    fixed document. *)
Definition fs_any (path : string) : outcome string := Ok EmptyString.
Definition render_id (text : string) (view : value) : outcome string := Ok text.
Definition load_const (d : value) (text : string) : outcome value := Ok d.
Definition dump_any (d : value) : outcome string := Ok EmptyString.

Definition this (stack stage : option string) : Config.t :=
  {| stack := stack; stage := stage;
     configFile := "config.yml"; stageFile := "stage.yml";
     envs := VObj [] |}.

(** [default: {a: 1, b: 2}] and [x: {b: 3, c: 4}]. *)
Definition stage_doc : value :=
  VObj [("default", VObj [("a", VNum 1); ("b", VNum 2)]);
        ("x", VObj [("b", VNum 3); ("c", VNum 4)])].

End Samples.

(* ================================================================== *)
(** * Vocabulary for the outputs of the synthesizer *)
(* ================================================================== *)

Module Outputs.
Import Js Lodash Config Spec.

(** The path of a route, as text. *)
Definition path_of (r : value) : string := str_of (field r "path").

(** The property key [apiDependencies[api.api]] selects. *)
Definition route_key (r : value) : string :=
  match ToString (field r "api") with Ok k => k | _ => EmptyString end.

(** The name of the method node of a route (line 126). *)
Definition route_method_name (r : value) : string :=
  "ApiGatewayMethod" ++ leaf_key (path_of r) ++
  match capitalize (field r "method") with Ok m => m | _ => EmptyString end.

(** What line 140 pushes for a route. *)
Definition dep_entry (r : value) : value :=
  VObj [("name", VStr (route_method_name r))].

(** The entries of the routes that refer to the key [k], in order. *)
Definition methods_of (k : string) (routes : list value) : list value :=
  map dep_entry (filter (fun r => String.eqb (route_key r) k) routes).

(** The names lines 55-57 declare, as the property keys they are used
    for. *)
Definition declared_keys (config : value) : list string :=
  map (fun a => match ToString (field a "name") with
                | Ok k => k
                | _ => EmptyString
                end)
      (match forEach_elems (field config "apis") with Ok l => l | _ => [] end).

(** The property keys the routes select that [apis] does not declare,
    in the order the synthesizer meets them. *)
Definition undeclared_keys (config : value) : list string :=
  filter (fun k => negb (existsb (String.eqb k) (declared_keys config)))
         (map route_key (routes_of config)).

(** The keys a map made by [{}] shows: all but [__proto__]. *)
Definition shown (ks : list string) : list string :=
  filter (fun k => negb (String.eqb k "__proto__")) ks.

(** How many nodes a key has in such a map once a node was stored
    under it. *)
Definition nodes_under (k : string) : nat :=
  if String.eqb k "__proto__" then 0 else 1.

(** The dedup keys of all the prefixes of all the routes. *)
Definition all_prefix_keys (routes : list value) : list string :=
  flat_map (fun r => prefix_keys (path_of r)) routes.

(** The leaf keys of the routes that enable CORS. *)
Definition cors_leaf_keys (routes : list value) : list string :=
  map (fun r => leaf_key (path_of r)) (filter cors_enabled routes).

(** The parent of a first segment: the root resource of some API. *)
Definition is_root (parents : value) : Prop :=
  exists s, parents = VArr [VStr "Fn::GetAtt:";
                            VStr ("- " ++ s ++ "RestApi");
                            VStr "- RootResourceId"].

(** The parent of a later segment: a reference to the node of a key. *)
Definition refers_to (parents : value) (k : string) : Prop :=
  parents = VArr [VStr ("Ref: " ++ resource_name k)].

(** Every list of the dependency map is the list of the routes handled
    so far that refer to its key, and no list is kept under
    [__proto__]. *)
Definition deps_track (handled : list value) (deps : obj) : Prop :=
  (forall k v, lookup k deps = Some v -> v = VArr (methods_of k handled)) /\
  ~ In "__proto__" (keys deps).

(** Every resource node hangs under the root of an API or refers to
    the node of a key, which is in the map unless that key is
    [__proto__]. *)
Definition parents_ok (resources : obj) : Prop :=
  forall k node, In (k, node) resources ->
    is_root (field node "parents") \/
    exists k', refers_to (field node "parents") k' /\
               (k' <> "__proto__" -> In k' (keys resources)).

(** The maps hold nothing but what the routes handled so far put there,
    and every reference in them leads to a resource node, or to the key
    [__proto__]. *)
Definition sound (handled : list value) (st : synth) : Prop :=
  (forall r, In r handled -> exists p, get r "path" = Ok (VStr p)) /\
  (forall k, In k (keys (apiResources st)) -> In k (all_prefix_keys handled)) /\
  (forall k, In k (keys (apiMethodsOptions st)) -> In k (cors_leaf_keys handled)) /\
  parents_ok (apiResources st) /\
  (forall k node, In (k, node) (apiMethodsOptions st) ->
     field node "resource" = VStr (resource_name k) /\
     In k (keys (apiResources st))) /\
  (forall node, In node (apiMethods st) ->
     exists k, field node "resource" = VStr (resource_name k) /\
               (k <> "__proto__" -> In k (keys (apiResources st)))).

(** [apiDependencies] selects a list under each of the keys [K]. *)
Definition deps_shape (K : list string) (deps : obj)
  (proto : option (list value)) : Prop :=
  forall k, In k K -> exists l, selected deps proto k = Some l.

(** How a run of the synthesizer can end, for the console: silently
    with a result that satisfies [good]; or with a [TypeError], and then
    either silently or after the one line that names the identifier of
    one of [routes], which is not among the keys [K]. *)
Definition ends_well {A : Type} (K : list string) (routes : list value)
  (good : A -> Prop) (m : M A) : Prop :=
  match m with
  | (log, Ok a) => log = [] /\ good a
  | (log, Throw (TypeError _)) =>
      log = [] \/
      exists r, In r routes /\
                log = [(route_key r ++ " is not defined")%string] /\
                ~ In (route_key r) K
  | _ => False
  end.

End Outputs.

(* ================================================================== *)
(** * Vocabulary for the defaulted entries *)
(* ================================================================== *)

Module Entries.
Import Js Lodash Config Spec.

(** A service after line 201. *)
Definition named_service (n : value) (s s' : value) : Prop :=
  field s' "lambdaName" = n /\
  forall k, k <> "lambdaName" -> field s' k = field s k.

(** The full name line 210 builds for the entry [l] of the document [c]. *)
Definition full_name (c l : value) (f : value) : Prop :=
  exists s1 s2 s3,
    ToString (field c "stackName") = Ok s1 /\
    ToString (field c "stage") = Ok s2 /\
    ToString (field l "name") = Ok s3 /\
    f = VStr (s1 ++ "-" ++ s2 ++ "-" ++ s3).

(** What the loop body makes of an entry. *)
Definition defaulted (c l l' : value) : Prop :=
  field l' "memory" = (if own l "memory" then field l "memory" else VNum 1024) /\
  field l' "timeout" = (if own l "timeout" then field l "timeout" else VNum 300) /\
  field l' "envs" = (if own l "envs" then field l "envs" else VArr []) /\
  full_name c l (field l' "fullName") /\
  (forall k, ~ In k ["memory"; "timeout"; "envs"; "services"; "fullName"] ->
             field l' k = field l k /\ own l' k = own l k).

(** What the loop body makes of the services of an entry. *)
Definition services_named (l l' : value) : Prop :=
  own l' "services" = own l "services" /\
  forall svs, own l "services" = true -> field l "services" = VArr svs ->
    exists svs',
      field l' "services" = VArr svs' /\
      Forall2 (named_service (field l "name")) svs svs'.

(** The keys of a mapping, in order; nothing for another value. *)
Definition keys_of (v : value) : list string :=
  match v with VObj o => keys o | _ => [] end.

Definition is_mapping (v : value) : Prop := exists o, v = VObj o.

(** [null], [undefined] or a scalar. *)
Definition primitive (v : value) : Prop :=
  match v with
  | VObj _ | VArr _ => False
  | _ => True
  end.

(** The loop body of [configureLambda] passes the entry. *)
Definition passes (config l : value) : Prop :=
  exists l', default_lambda config l = Ok l'.

(** [hay] contains [needle]. *)
Definition contains (hay needle : string) : Prop :=
  exists a b, hay = (a ++ needle ++ b)%string.

(** The notice of line 229. *)
Definition skip_notice (this : Config.t) : string :=
  stageFile this ++ " was not found. Skipping stage".

End Entries.

(* ================================================================== *)
(** * File systems for the stage file *)
(* ================================================================== *)

Module Files.
Import Js Config.

(** The stage file does not exist; every other file is empty. *)
Definition fs_missing (path : string) : outcome string :=
  if String.eqb path "stage.yml"
  then Throw (FsError "ENOENT: no such file or directory, open 'stage.yml'")
  else Ok EmptyString.

(** The stage file cannot be read. *)
Definition fs_denied (path : string) : outcome string :=
  if String.eqb path "stage.yml"
  then Throw (FsError "EACCES: permission denied, open 'stage.yml'")
  else Ok EmptyString.

(** An instance without stack and stage names, with the given Variable
    Store. *)
Definition this_env (e : value) : Config.t :=
  {| stack := None; stage := None;
     configFile := "config.yml"; stageFile := "stage.yml";
     envs := e |}.

(** A console that is empty, or holds the one line of line 146 written
    before a [TypeError]. *)
Definition one_line_at_most {A : Type} (m : M A) : Prop :=
  fst m = [] \/
  exists id mes,
    m = ([(id ++ " is not defined")%string], Throw (TypeError mes)).

End Files.

(* ================================================================== *)
(** * Vocabulary for the fields of the nodes *)
(* ================================================================== *)

Module Nodes.
Import Js Lodash Config Spec Outputs.

(** The routes of a lambda entry, each with the entry that declares it. *)
Definition owned_routes_of_lambda (lambda : value) : list (value * value) :=
  map (pair lambda) (routes_of_lambda lambda).

Definition owned_routes (config : value) : list (value * value) :=
  flat_map owned_routes_of_lambda (items (field config "lambdas")).

(** The fields lines 131-135 give to the method node of a route declared
    by a lambda entry. *)
Definition carries (lr : value * value) (node : value) : Prop :=
  field node "lambda" = field (fst lr) "name" /\
  field node "api" = field (snd lr) "api" /\
  field node "cors" =
    (if cors_enabled (snd lr) then field (snd lr) "cors" else VBool false) /\
  field node "resource" = VStr (resource_name (leaf_key (path_of (snd lr)))).

(** The segments of the path of a route. *)
Definition segments_of (r : value) : list string := split "/" (path_of r).

(** [node] is what lines 111-116 store under [k] for the segment at
    place [j] of the route [r]. *)
Definition written_for (r : value) (j : nat) (k : string) (node : value)
  : Prop :=
  j < List.length (segments_of r) /\
  k = join (map display_name (firstn (S j) (segments_of r))) /\
  field node "name" = VStr (resource_name k) /\
  field node "pathPart" = VStr (nth j (segments_of r) EmptyString) /\
  field node "api" = field r "api".

(** Every node of a resource map was stored for a segment of one of the
    routes. *)
Definition written (routes : list value) (res : obj) : Prop :=
  forall k node, In (k, node) res ->
    exists r j, In r routes /\ written_for r j k node.

End Nodes.
(* ================================================================== *)
(** * Facts about objects *)
(* ================================================================== *)

Module ObjFacts.
Import Js.

Lemma lookup_replace_key k v o k' :
  lookup k' (replace_key k v o) =
  if String.eqb k' k then (if has_key k o then Some v else None) else lookup k' o.
Proof.
  unfold has_key.
  induction o as [|[k0 v0] o IH]; simpl.
  - destruct (String.eqb k' k); reflexivity.
  - destruct (String.eqb k k0) eqn:E0.
    + apply String.eqb_eq in E0; subst k0. simpl.
      destruct (String.eqb k' k); reflexivity.
    + simpl. rewrite IH.
      destruct (String.eqb k' k) eqn:E1.
      * apply String.eqb_eq in E1; subst k'. rewrite E0. reflexivity.
      * reflexivity.
Qed.

Lemma lookup_insert_index i k v o k' :
  lookup k o = None ->
  lookup k' (insert_index i k v o) =
  if String.eqb k' k then Some v else lookup k' o.
Proof.
  induction o as [|[k0 v0] o IH]; simpl; intros H.
  - reflexivity.
  - destruct (String.eqb k k0) eqn:E0; [discriminate|].
    destruct (array_index k0) as [j|].
    + destruct (j <? i)%N; simpl.
      * rewrite IH by assumption.
        destruct (String.eqb k' k) eqn:E1; [|reflexivity].
        apply String.eqb_eq in E1; subst k'. rewrite E0. reflexivity.
      * reflexivity.
    + simpl. reflexivity.
Qed.

Lemma lookup_app_single k v o k' :
  lookup k o = None ->
  lookup k' (o ++ [(k, v)]) = if String.eqb k' k then Some v else lookup k' o.
Proof.
  induction o as [|[k0 v0] o IH]; simpl; intros H.
  - reflexivity.
  - destruct (String.eqb k k0) eqn:E0; [discriminate|].
    rewrite IH by assumption.
    destruct (String.eqb k' k0) eqn:E2; [|reflexivity].
    apply String.eqb_eq in E2; subst k0.
    rewrite String.eqb_sym, E0. reflexivity.
Qed.

(** Reading after writing. *)
Lemma lookup_obj_set o k v k' :
  lookup k' (obj_set o k v) = if String.eqb k' k then Some v else lookup k' o.
Proof.
  unfold obj_set. destruct (has_key k o) eqn:H.
  - rewrite lookup_replace_key, H. reflexivity.
  - assert (L : lookup k o = None).
    { unfold has_key in H. destruct (lookup k o); [discriminate|reflexivity]. }
    destruct (array_index k).
    + apply lookup_insert_index; assumption.
    + apply lookup_app_single; assumption.
Qed.

Lemma has_key_obj_set o k v k' :
  has_key k' (obj_set o k v) = String.eqb k' k || has_key k' o.
Proof.
  unfold has_key. rewrite lookup_obj_set.
  destruct (String.eqb k' k); reflexivity.
Qed.

Lemma replace_key_same k v o :
  lookup k o = Some v -> replace_key k v o = o.
Proof.
  induction o as [|[k0 v0] o IH]; simpl; intros H; [reflexivity|].
  destruct (String.eqb k k0) eqn:E.
  - apply String.eqb_eq in E. injection H as ->. subst. reflexivity.
  - rewrite IH by assumption. reflexivity.
Qed.

(** Writing the value a key already has changes nothing. *)
Lemma obj_set_same o k v :
  lookup k o = Some v -> obj_set o k v = o.
Proof.
  intros H. unfold obj_set, has_key. rewrite H.
  apply replace_key_same; assumption.
Qed.

Lemma obj_set_twice o k v : obj_set (obj_set o k v) k v = obj_set o k v.
Proof.
  apply obj_set_same. rewrite lookup_obj_set, String.eqb_refl. reflexivity.
Qed.

Lemma lookup_None_keys k o : lookup k o = None <-> ~ In k (keys o).
Proof.
  induction o as [|[k0 v0] o IH]; simpl.
  - tauto.
  - destruct (String.eqb k k0) eqn:E.
    + apply String.eqb_eq in E. subst. split; [discriminate|tauto].
    + apply String.eqb_neq in E. rewrite IH. split.
      * intros H [H1|H1]; [congruence|tauto].
      * tauto.
Qed.

Lemma lookup_Some_In k v o : lookup k o = Some v -> In (k, v) o.
Proof.
  induction o as [|[k0 v0] o IH]; simpl; [discriminate|].
  destruct (String.eqb k k0) eqn:E.
  - apply String.eqb_eq in E. intros [= ->]. subst. auto.
  - auto.
Qed.

Lemma In_lookup_NoDup k v o :
  NoDup (keys o) -> In (k, v) o -> lookup k o = Some v.
Proof.
  induction o as [|[k0 v0] o IH]; simpl; intros ND H; [contradiction|].
  inversion ND as [|? ? Hn ND']; subst.
  destruct H as [H|H].
  - injection H as -> ->. rewrite String.eqb_refl. reflexivity.
  - destruct (String.eqb k k0) eqn:E.
    + apply String.eqb_eq in E. subst. exfalso. apply Hn.
      apply (in_map fst) in H. exact H.
    + auto.
Qed.

Lemma keys_replace_key k v o : keys (replace_key k v o) = keys o.
Proof.
  induction o as [|[k0 v0] o IH]; simpl; [reflexivity|].
  destruct (String.eqb k k0) eqn:E; simpl.
  - apply String.eqb_eq in E. subst. reflexivity.
  - rewrite IH. reflexivity.
Qed.

Lemma keys_insert_index i k v o x :
  In x (keys (insert_index i k v o)) <-> x = k \/ In x (keys o).
Proof.
  induction o as [|[k0 v0] o IH]; simpl.
  - intuition.
  - destruct (array_index k0) as [j|]; [destruct (j <? i)%N|]; simpl;
      rewrite ?IH; intuition.
Qed.

Lemma NoDup_insert_index i k v o :
  ~ In k (keys o) -> NoDup (keys o) -> NoDup (keys (insert_index i k v o)).
Proof.
  induction o as [|[k0 v0] o IH]; simpl; intros Hn ND.
  - constructor; [simpl; tauto|constructor].
  - inversion ND as [|? ? Hn0 ND']; subst.
    assert (G : NoDup (k :: k0 :: keys o)).
    { constructor; [simpl; tauto|assumption]. }
    destruct (array_index k0) as [j|]; [destruct (j <? i)%N|]; simpl; try exact G.
    constructor.
    + rewrite keys_insert_index. intros [->|H]; tauto.
    + apply IH; tauto.
Qed.

Lemma In_keys_obj_set o k v x :
  In x (keys (obj_set o k v)) <-> x = k \/ In x (keys o).
Proof.
  unfold obj_set. destruct (has_key k o) eqn:H.
  - rewrite keys_replace_key. split; [tauto|].
    intros [->|Hx]; [|assumption].
    unfold has_key in H. destruct (lookup k o) eqn:L; [|discriminate].
    apply lookup_Some_In in L. apply (in_map fst) in L. exact L.
  - destruct (array_index k).
    + apply keys_insert_index.
    + unfold keys. rewrite map_app, in_app_iff. simpl. intuition.
Qed.

(** Assignment never duplicates a key. *)
Lemma NoDup_obj_set o k v : NoDup (keys o) -> NoDup (keys (obj_set o k v)).
Proof.
  intros ND. unfold obj_set. destruct (has_key k o) eqn:H.
  - rewrite keys_replace_key. assumption.
  - assert (Hn : ~ In k (keys o)).
    { apply lookup_None_keys. unfold has_key in H.
      destruct (lookup k o); [discriminate|reflexivity]. }
    destruct (array_index k).
    + apply NoDup_insert_index; assumption.
    + unfold keys. rewrite map_app. simpl.
      apply NoDup_app; [assumption| constructor; [simpl; tauto|constructor] |].
      intros x Hx [<-|[]]. contradiction.
Qed.

(** ** Writes to a [{}] map *)

Lemma store_proto o v : store o "__proto__" v = o.
Proof. reflexivity. Qed.

Lemma store_other o k v : k <> "__proto__" -> store o k v = obj_set o k v.
Proof.
  intros H. unfold store. apply String.eqb_neq in H. rewrite H. reflexivity.
Qed.

Lemma In_keys_store o k v x :
  In x (keys (store o k v)) <-> (x = k /\ k <> "__proto__") \/ In x (keys o).
Proof.
  unfold store. destruct (String.eqb k "__proto__") eqn:E.
  - apply String.eqb_eq in E. subst. tauto.
  - apply String.eqb_neq in E. rewrite In_keys_obj_set. tauto.
Qed.

Lemma NoDup_store o k v : NoDup (keys o) -> NoDup (keys (store o k v)).
Proof.
  intros H. unfold store. destruct (String.eqb k "__proto__");
    [assumption|apply NoDup_obj_set; assumption].
Qed.

Lemma proto_free_store o k v :
  ~ In "__proto__" (keys o) -> ~ In "__proto__" (keys (store o k v)).
Proof.
  intros H Hin. apply In_keys_store in Hin as [[E N]|Hin]; [|contradiction].
  subst. contradiction.
Qed.

Lemma proto_free_obj_set o k v :
  k <> "__proto__" ->
  ~ In "__proto__" (keys o) -> ~ In "__proto__" (keys (obj_set o k v)).
Proof.
  intros N H Hin. apply In_keys_obj_set in Hin as [E|Hin]; [|contradiction].
  subst. contradiction.
Qed.

Lemma lookup_proto_free o :
  ~ In "__proto__" (keys o) -> lookup "__proto__" o = None.
Proof. intros H. apply lookup_None_keys. exact H. Qed.

End ObjFacts.

(* ================================================================== *)
(** * Facts about outcomes and [Object.assign] *)
(* ================================================================== *)

Module MonadFacts.
Import Js ObjFacts.

Lemma bind_Ok {A B} (m : outcome A) (k : A -> outcome B) b :
  bind m k = Ok b -> exists a, m = Ok a /\ k a = Ok b.
Proof. destruct m; simpl; intros H; try discriminate. eauto. Qed.

Lemma bindM_lift_Ok {A B} (a : A) (k : A -> M B) : bindM (lift (Ok a)) k = k a.
Proof. unfold bindM, lift. destruct (k a). reflexivity. Qed.

Lemma bindM_nil_Ok {A B} (a : A) (k : A -> M B) : bindM ([], Ok a) k = k a.
Proof. apply bindM_lift_Ok. Qed.

Lemma bindM_ret {A B} (a : A) (k : A -> M B) : bindM (ret a) k = k a.
Proof. apply bindM_lift_Ok. Qed.

Lemma bindM_lift_Throw {A B} e (k : A -> M B) :
  bindM (lift (Throw e)) k = ([], Throw e).
Proof. reflexivity. Qed.

Lemma bindM_lift_OffTree {A B} (k : A -> M B) :
  bindM (lift OffTree) k = ([], OffTree).
Proof. reflexivity. Qed.

Lemma bindM_Ok {A B} (m : M A) (k : A -> M B) log b :
  bindM m k = (log, Ok b) ->
  exists a l1 l2, m = (l1, Ok a) /\ k a = (l2, Ok b) /\ log = l1 ++ l2.
Proof.
  destruct m as [l [a|e|]]; simpl; intros H; try discriminate.
  destruct (k a) as [l' r] eqn:E. injection H as <- ->.
  exists a, l, l'. auto.
Qed.

Lemma lift_Ok {A} (o : outcome A) log a :
  lift o = (log, Ok a) -> o = Ok a /\ log = [].
Proof. unfold lift. intros [= <- ->]. auto. Qed.

Lemma mapM_Ok_Forall2 {A B} (f : A -> outcome B) l l' :
  mapM f l = Ok l' -> Forall2 (fun x y => f x = Ok y) l l'.
Proof.
  revert l'. induction l as [|x r IH]; simpl; intros l' H.
  - injection H as <-. constructor.
  - apply bind_Ok in H as (y & Hy & H).
    apply bind_Ok in H as (ys & Hys & H).
    injection H as <-. constructor; auto.
Qed.

Lemma Forall2_mapM {A B} (f : A -> outcome B) l l' :
  Forall2 (fun x y => f x = Ok y) l l' -> mapM f l = Ok l'.
Proof.
  induction 1 as [|x y r r' Hxy _ IH]; simpl; [reflexivity|].
  rewrite Hxy. simpl. rewrite IH. reflexivity.
Qed.

(** ** [Object.assign] *)

Lemma lookup_app k a b :
  lookup k (a ++ b) =
  match lookup k a with Some v => Some v | None => lookup k b end.
Proof.
  induction a as [|[k0 v0] a IH]; simpl; [reflexivity|].
  destruct (String.eqb k k0); [reflexivity|exact IH].
Qed.

(** The last write to a key is the one that stays. *)
Lemma lookup_assign_obj k s : forall t,
  lookup k (assign_obj t s) =
  match lookup k (rev s) with Some v => Some v | None => lookup k t end.
Proof.
  unfold assign_obj.
  induction s as [|[k0 v0] s IH]; simpl; intros t; [reflexivity|].
  rewrite IH, lookup_app. destruct (lookup k (rev s)); [reflexivity|].
  simpl. rewrite lookup_obj_set. destruct (String.eqb k k0); reflexivity.
Qed.

Lemma keys_rev (s : obj) : keys (rev s) = rev (keys s).
Proof. unfold keys. apply map_rev. Qed.

Lemma lookup_rev_NoDup k s : NoDup (keys s) -> lookup k (rev s) = lookup k s.
Proof.
  intros ND. destruct (lookup k s) as [v|] eqn:L.
  - apply In_lookup_NoDup.
    + rewrite keys_rev. apply NoDup_rev. assumption.
    + apply in_rev. rewrite rev_involutive. apply lookup_Some_In. assumption.
  - apply lookup_None_keys. rewrite keys_rev, <- in_rev.
    apply lookup_None_keys. assumption.
Qed.

(** On objects without repeated keys: the source wins on every key it
    has, the target keeps the others. *)
Lemma lookup_assign_NoDup k s t :
  NoDup (keys s) ->
  lookup k (assign_obj t s) =
  match lookup k s with Some v => Some v | None => lookup k t end.
Proof. intros ND. rewrite lookup_assign_obj, lookup_rev_NoDup by assumption. reflexivity. Qed.

Lemma lookup_assign_absent k s t :
  ~ In k (keys s) -> lookup k (assign_obj t s) = lookup k t.
Proof.
  intros H. rewrite lookup_assign_obj.
  replace (lookup k (rev s)) with (@None value); [reflexivity|].
  symmetry. apply lookup_None_keys. rewrite keys_rev, <- in_rev. assumption.
Qed.

Lemma In_keys_assign_obj x s : forall t,
  In x (keys (assign_obj t s)) <-> In x (keys t) \/ In x (keys s).
Proof.
  unfold assign_obj.
  induction s as [|[k0 v0] s IH]; simpl; intros t; [tauto|].
  rewrite IH, In_keys_obj_set. intuition.
Qed.

Lemma NoDup_assign_obj s : forall t,
  NoDup (keys t) -> NoDup (keys (assign_obj t s)).
Proof.
  unfold assign_obj.
  induction s as [|[k0 v0] s IH]; simpl; intros t ND; [assumption|].
  apply IH, NoDup_obj_set, ND.
Qed.

End MonadFacts.

(* ================================================================== *)
(** * Facts about the resolver *)
(* ================================================================== *)

Module ResolverFacts.
Import Js Lodash Config Spec ObjFacts MonadFacts.
Local Open Scope js_scope.

(** One step of a computation that ended well. *)
Tactic Notation "step" hyp(H) ident(x) ident(E) :=
  let l1 := fresh "l" in
  let l2 := fresh "l" in
  let Hl := fresh "Hl" in
  apply bindM_Ok in H as (x & l1 & l2 & E & H & Hl);
  try (apply lift_Ok in E as [E ->]; simpl in Hl); subst.

Lemma configureLambda_keeps o v :
  configureLambda (VObj o) = Ok v ->
  exists o', v = VObj o' /\
             forall k, k <> "lambdas" -> lookup k o' = lookup k o.
Proof.
  unfold configureLambda. simpl.
  set (x := match lookup "lambdas" o with Some x => x | None => VUndef end).
  destruct (truthy x).
  - intros H.
    apply bind_Ok in H as (ls & _ & H).
    apply bind_Ok in H as (ls' & _ & H).
    destruct x; try solve [injection H as <-; eauto].
    simpl in H. injection H as <-.
    eexists; split; [reflexivity|].
    intros k Hk. rewrite lookup_obj_set.
    apply String.eqb_neq in Hk. rewrite Hk. reflexivity.
  - intros [= <-]. eauto.
Qed.

Lemma configureApiGateway_returned statics config log st' r :
  configureApiGateway statics config = (log, Ok (st', r)) ->
  (r = SameConfig /\ st' = statics) \/
  (r = TheClass /\ exists syn, st' = assign_obj statics (results syn)).
Proof.
  unfold configureApiGateway. intros H.
  step H apis E.
  destruct (truthy apis).
  - step H decls E1. step H deps E2. step H lambdas E3. step H ls E4.
    step H syn E5. injection H as <- <- <-. right.
    split; [reflexivity|]. exists syn. reflexivity.
  - injection H as <- <- <-. left. auto.
Qed.

(** Every call leaves the class with the four result fields only. *)
Lemma configureApiGateway_clean statics config log st' r :
  class_clean statics ->
  configureApiGateway statics config = (log, Ok (st', r)) ->
  class_clean st'.
Proof.
  intros Hc H. apply configureApiGateway_returned in H as [[_ ->]|[_ [syn ->]]].
  - assumption.
  - intros k Hk. apply In_keys_assign_obj in Hk as [Hk|Hk]; [auto|].
    exact Hk.
Qed.

Lemma not_rewritten_output k : rewritten k = false -> ~ In k output_keys.
Proof.
  unfold rewritten. intros H Hin.
  apply orb_false_elim in H as [_ H].
  assert (E : existsb (String.eqb k) output_keys = true).
  { apply existsb_exists. exists k. split; [assumption|apply String.eqb_refl]. }
  congruence.
Qed.

Lemma not_rewritten_lambdas k : rewritten k = false -> k <> "lambdas".
Proof.
  unfold rewritten. intros H ->. discriminate H.
Qed.

Lemma override_obj field x c :
  override field x (VObj c) =
  Ok (VObj (match x with
            | Some s => if given x then obj_set c field (VStr s) else c
            | None => c
            end)).
Proof. unfold override. destruct x; [destruct (given _)|]; reflexivity. Qed.

(** Lines 272-284 on a mapping: the render context is merged over the
    overridden document, and only the rewritten keys change after that. *)
Lemma finish_config_lookup statics this context c log st' doc :
  class_clean statics ->
  finish_config statics this context (VObj c) = (log, Ok (st', doc)) ->
  exists o,
    doc = VObj o /\
    forall k, rewritten k = false ->
      lookup k o = lookup k (assign_obj (overridden this c) (entries context)).
Proof.
  intros Hc H. unfold finish_config in H.
  step H c1 E1. step H c2 E2. step H c3 E3. step H c4 E4. step H r E5.
  step H c5 E6. injection H; intros; subst.
  rewrite override_obj in E1. injection E1 as <-.
  rewrite override_obj in E2. injection E2 as <-.
  change (Object_assign (VObj (overridden this c)) context = Ok c3) in E3.
  unfold Object_assign in E3. injection E3 as <-.
  apply configureLambda_keeps in E4 as (o4 & -> & K4).
  destruct r as [s' r].
  pose proof (configureApiGateway_clean _ _ _ _ _ Hc E5) as Hc'.
  destruct r; cbn [fst snd merge_returned Object_assign entries] in E6;
    injection E6 as <-; eexists; (split; [reflexivity|]); intros k Hk.
  - apply K4, not_rewritten_lambdas, Hk.
  - rewrite lookup_assign_absent.
    + apply K4, not_rewritten_lambdas, Hk.
    + intros Hin. apply Hc' in Hin. revert Hin. apply not_rewritten_output, Hk.
Qed.

Lemma lookup_overridden this c k :
  lookup k (overridden this c) =
  if String.eqb k "stage" && given (stage this)
  then option_map VStr (stage this)
  else if String.eqb k "stackName" && given (stack this)
       then option_map VStr (stack this)
       else lookup k c.
Proof.
  unfold overridden.
  destruct (stage this) as [g|] eqn:Eg; destruct (stack this) as [s|] eqn:Es;
    simpl; repeat match goal with
    | |- context [negb ?b] => destruct b; simpl
    end; rewrite ?lookup_obj_set;
    destruct (String.eqb k "stage") eqn:E1; simpl; try reflexivity;
    destruct (String.eqb k "stackName") eqn:E2; simpl; try reflexivity.
Qed.

End ResolverFacts.

(* ================================================================== *)
(** * Facts about the lambda defaulter *)
(* ================================================================== *)

Module LambdaFacts.
Import Js Lodash Config Spec ObjFacts MonadFacts.
Local Open Scope js_scope.

(** A default is a write of the value the field ends up with. *)
Lemma default_to_Ok v k x v' :
  default_to v k x = Ok v' ->
  exists o y, v = VObj o /\ v' = VObj (obj_set o k y) /\
              (has_key k o = true -> lookup k o = Some y).
Proof.
  unfold default_to, has, own. destruct v; try discriminate.
  destruct (has_key k props) eqn:H.
  - intros [= <-]. unfold has_key in H.
    destruct (lookup k props) as [y|] eqn:L; [|discriminate].
    exists props, y. rewrite obj_set_same by assumption. auto.
  - simpl. intros [= <-]. exists props, x. split; [reflexivity|].
    split; [reflexivity|congruence].
Qed.

Lemma default_to_has o k x :
  has_key k o = true -> default_to (VObj o) k x = Ok (VObj o).
Proof. intros H. unfold default_to, has, own. rewrite H. reflexivity. Qed.

Lemma set_twice v k x v' : set v k x = Ok v' -> set v' k x = Ok v'.
Proof.
  destruct v; simpl; try discriminate. intros [= <-]. simpl.
  rewrite obj_set_twice. reflexivity.
Qed.

Lemma mapM_fixed {A} (f g : A -> outcome A) l l' :
  (forall x y, f x = Ok y -> g y = Ok y) ->
  mapM f l = Ok l' -> mapM g l' = Ok l'.
Proof.
  intros H E. apply mapM_Ok_Forall2 in E. apply Forall2_mapM.
  induction E; constructor; eauto.
Qed.

Lemma Forall2_same {A} (P : A -> A -> Prop) l :
  Forall (fun x => P x x) l -> Forall2 P l l.
Proof. induction 1; constructor; auto. Qed.

(** What the loop over [services] leaves behind. *)
Lemma name_services_Ok o v :
  has_key "services" o = true ->
  name_services (VObj o) = Ok v ->
  exists sv,
    v = VObj (obj_set o "services" sv) /\
    forall n, n = Spec.field (VObj o) "name" ->
      exists items,
        iterate sv = Ok items /\
        mapM (fun service => set service "lambdaName" n) items = Ok items /\
        match sv with VArr _ => True | _ => items = [] end.
Proof.
  intros Hs H. unfold name_services in H. simpl in H.
  unfold has_key in Hs.
  destruct (lookup "services" o) as [sv|] eqn:L; [|discriminate].
  apply bind_Ok in H as (items & Hit & H).
  apply bind_Ok in H as (items' & Hmap & H).
  destruct sv; try discriminate.
  - (* a string: the loop body throws on every character *)
    assert (items = []) as ->.
    { simpl in Hit. injection Hit as <-. destruct s; [reflexivity|].
      simpl in Hmap. discriminate. }
    injection H as <-. exists (VStr s).
    rewrite obj_set_same by assumption. split; [reflexivity|].
    intros n _. exists []. simpl in Hit. injection Hit as Hit.
    destruct s; [|discriminate]. auto.
  - simpl in H. injection H as <-. exists (VArr items').
    split; [reflexivity|]. intros n ->. exists items'.
    split; [reflexivity|]. split; [|exact I].
    eapply mapM_fixed; [|exact Hmap].
    intros x y Hxy. simpl in Hxy. apply set_twice in Hxy. exact Hxy.
Qed.

(** The shape of an entry after lines 190-207. *)
Lemma fill_defaults_Ok lambda v :
  fill_defaults lambda = Ok v ->
  exists o m t e,
    lambda = VObj o /\
    has_key "hasOwnProperty" o = false /\
    ((has_key "services" o = false /\
      v = VObj (obj_set (obj_set (obj_set o "memory" m) "timeout" t) "envs" e)) \/
     (has_key "services" o = true /\
      exists sv,
        v = VObj (obj_set (obj_set (obj_set (obj_set o "memory" m) "timeout" t)
                             "services" sv) "envs" e) /\
        exists items,
          iterate sv = Ok items /\
          mapM (fun service =>
                  set service "lambdaName" (Spec.field (VObj o) "name")) items
            = Ok items /\
          match sv with VArr _ => True | _ => items = [] end)) /\
    (has_key "memory" o = true -> lookup "memory" o = Some m) /\
    (has_key "timeout" o = true -> lookup "timeout" o = Some t) /\
    (has_key "envs" o = true -> lookup "envs" o = Some e).
Proof.
  unfold fill_defaults. intros H.
  apply bind_Ok in H as (l1 & H1 & H).
  apply bind_Ok in H as (l2 & H2 & H).
  apply bind_Ok in H as (h & Hh & H).
  apply bind_Ok in H as (l3 & H3 & H).
  apply default_to_Ok in H1 as (o & m & -> & -> & Km).
  apply default_to_Ok in H2 as (o1 & t & E1 & -> & Kt).
  injection E1 as <-.
  rewrite has_key_obj_set, lookup_obj_set in Kt. simpl in Kt.
  simpl in Hh. rewrite !has_key_obj_set in Hh. simpl in Hh.
  destruct (has_key "hasOwnProperty" o) eqn:Hown; [discriminate|].
  injection Hh as <-.
  exists o, m, t.
  destruct (has_key "services" o) eqn:Hs.
  - apply name_services_Ok in H3 as (sv & -> & Hsv);
      [|rewrite !has_key_obj_set; simpl; assumption].
    apply default_to_Ok in H as (o3 & e & E3 & -> & Ke).
    injection E3 as <-. exists e.
    rewrite !has_key_obj_set, !lookup_obj_set in Ke. simpl in Ke.
    split; [reflexivity|]. split; [assumption|]. split; [|auto].
    right. split; [reflexivity|]. exists sv. split; [reflexivity|].
    destruct (Hsv _ eq_refl) as (items & Hi & Hm & Hv).
    exists items. split; [assumption|]. split; [|assumption].
    unfold Spec.field in *. simpl in *.
    rewrite !lookup_obj_set in Hm. simpl in Hm. exact Hm.
  - injection H3 as <-.
    apply default_to_Ok in H as (o3 & e & E3 & -> & Ke).
    injection E3 as <-. exists e.
    rewrite !has_key_obj_set, !lookup_obj_set in Ke. simpl in Ke.
    split; [reflexivity|]. split; [assumption|]. split; [|auto].
    left. auto.
Qed.

Lemma fill_defaults_settles lambda o :
  fill_defaults lambda = Ok (VObj o) -> settled o.
Proof.
  intros H. apply fill_defaults_Ok in H as (o0 & m & t & e & -> & Hown & H & _).
  destruct H as [[Hs E]|[Hs (sv & E & items & Hi & Hm & _)]];
    injection E as ->; unfold settled;
    rewrite !has_key_obj_set; simpl; rewrite ?Hs, ?Hown;
    (split; [reflexivity|]); (split; [reflexivity|]); (split; [reflexivity|]);
    (split; [reflexivity|]); intros Hx; try discriminate.
  exists sv, items. rewrite !lookup_obj_set. simpl.
  split; [reflexivity|]. split; [assumption|].
  unfold Spec.field in *. simpl in *. rewrite !lookup_obj_set. simpl.
  exact Hm.
Qed.

Lemma settled_fullName o f : settled o -> settled (obj_set o "fullName" f).
Proof.
  unfold settled. intros (H1 & H2 & H3 & H4 & H5).
  rewrite !has_key_obj_set. simpl.
  repeat (split; [assumption|]).
  intros Hs. destruct (H5 Hs) as (sv & items & L & Hi & Hm).
  exists sv, items. rewrite lookup_obj_set. simpl.
  split; [assumption|]. split; [assumption|].
  unfold Spec.field in *. simpl in *. rewrite lookup_obj_set. simpl. exact Hm.
Qed.

(** Lines 190-207 leave a settled entry exactly as it is. *)
Lemma fill_defaults_settled o : settled o -> fill_defaults (VObj o) = Ok (VObj o).
Proof.
  intros (H1 & H2 & H3 & H4 & H5). unfold fill_defaults.
  rewrite default_to_has by assumption. simpl.
  rewrite default_to_has by assumption. simpl.
  rewrite H4. simpl.
  destruct (has_key "services" o) eqn:Hs.
  - destruct (H5 eq_refl) as (sv & items & L & Hi & Hm).
    unfold name_services. simpl. rewrite L, Hi. simpl.
    unfold Spec.field in Hm. simpl in Hm. rewrite Hm. simpl.
    destruct sv; simpl; try (apply default_to_has; assumption).
    simpl in Hi. injection Hi as ->.
    rewrite obj_set_same by assumption. apply default_to_has; assumption.
  - apply default_to_has; assumption.
Qed.

Lemma set_fullName_Ok c l v :
  set_fullName c l = Ok v ->
  exists o f, l = VObj o /\ v = VObj (obj_set o "fullName" f).
Proof.
  unfold set_fullName. intros H.
  repeat (apply bind_Ok in H as (? & _ & H)).
  destruct l; try discriminate. injection H as <-. eauto.
Qed.

Lemma set_fullName_twice c l v :
  set_fullName c l = Ok v -> set_fullName c v = Ok v.
Proof.
  unfold set_fullName. intros H.
  apply bind_Ok in H as (sn & -> & H). simpl.
  apply bind_Ok in H as (s1 & -> & H). simpl.
  apply bind_Ok in H as (sg & -> & H). simpl.
  apply bind_Ok in H as (s2 & -> & H). simpl.
  apply bind_Ok in H as (n & Hn & H).
  apply bind_Ok in H as (s3 & Hs3 & H).
  destruct l; try discriminate. injection H as <-.
  simpl in *. rewrite lookup_obj_set. simpl.
  injection Hn as ->. rewrite Hs3. simpl.
  rewrite obj_set_twice. reflexivity.
Qed.

(** [set_fullName] reads two fields of the document and nothing else. *)
Lemma set_fullName_reads c c' l :
  get c "stackName" = get c' "stackName" ->
  get c "stage" = get c' "stage" ->
  set_fullName c l = set_fullName c' l.
Proof.
  unfold set_fullName. intros -> H.
  destruct (get c' "stackName"); try reflexivity. simpl.
  destruct (ToString a); try reflexivity. simpl.
  rewrite H. reflexivity.
Qed.

(** The loop body has nothing to add to its own result. *)
Lemma default_lambda_twice c l v :
  default_lambda c l = Ok v -> default_lambda c v = Ok v.
Proof.
  unfold default_lambda. intros H.
  apply bind_Ok in H as (l4 & H4 & H).
  pose proof (set_fullName_Ok _ _ _ H) as (o & f & -> & ->).
  apply fill_defaults_settles in H4.
  rewrite fill_defaults_settled by (apply settled_fullName; assumption).
  simpl. eapply set_fullName_twice. exact H.
Qed.

Lemma default_lambda_reads c c' l :
  get c "stackName" = get c' "stackName" ->
  get c "stage" = get c' "stage" ->
  default_lambda c l = default_lambda c' l.
Proof.
  intros H1 H2. unfold default_lambda.
  destruct (fill_defaults l); try reflexivity. simpl.
  apply set_fullName_reads; assumption.
Qed.

(** A field that is set is not touched. *)
Lemma default_lambda_keeps c l v k :
  In k ["memory"; "timeout"; "envs"; "name"; "handler"] ->
  default_lambda c l = Ok v -> own l k = true -> get v k = get l k.
Proof.
  unfold default_lambda. intros Hk H Hown.
  apply bind_Ok in H as (l4 & H4 & H).
  pose proof (set_fullName_Ok _ _ _ H) as (o4 & f & -> & ->).
  apply fill_defaults_Ok in H4 as (o & m & t & e & -> & _ & E & Km & Kt & Ke).
  simpl in Hown. simpl.
  destruct E as [[_ E]|[_ (sv & E & _)]]; injection E as ->;
    rewrite !lookup_obj_set;
    simpl in Hk; decompose [or] Hk; subst; try contradiction; simpl;
    rewrite ?Km, ?Kt, ?Ke by assumption; reflexivity.
Qed.

End LambdaFacts.

(* ================================================================== *)
(** * Facts about strings and display names *)
(* ================================================================== *)

Module StringFacts.
Import Js Lodash Config Spec.

Lemma upper_lower_char c : upper_char (lower_char c) = upper_char c.
Proof. destruct c as [[] [] [] [] [] [] [] []]; reflexivity. Qed.

Lemma upper_upper_char c : upper_char (upper_char c) = upper_char c.
Proof. destruct c as [[] [] [] [] [] [] [] []]; reflexivity. Qed.

Lemma lower_lower_char c : lower_char (lower_char c) = lower_char c.
Proof. destruct c as [[] [] [] [] [] [] [] []]; reflexivity. Qed.

Lemma lower_upper_lower_char c :
  lower_char (upper_char (lower_char c)) = lower_char c.
Proof. destruct c as [[] [] [] [] [] [] [] []]; reflexivity. Qed.

Lemma toUpperCase_toLowerCase s : toUpperCase (toLowerCase s) = toUpperCase s.
Proof.
  unfold toUpperCase, toLowerCase.
  induction s as [|c r IH]; cbn [map_string]; [reflexivity|].
  rewrite upper_lower_char. f_equal. exact IH.
Qed.

Lemma toLowerCase_twice s : toLowerCase (toLowerCase s) = toLowerCase s.
Proof.
  unfold toLowerCase.
  induction s as [|c r IH]; cbn [map_string]; [reflexivity|].
  rewrite lower_lower_char. f_equal. exact IH.
Qed.

(** The verb in upper case does not depend on the capitalization. *)
Lemma toUpperCase_capitalized s :
  toUpperCase (upperFirst (toLowerCase s)) = toUpperCase s.
Proof.
  destruct s as [|c r]; [reflexivity|].
  unfold toUpperCase, toLowerCase. cbn [map_string upperFirst].
  rewrite upper_upper_char, upper_lower_char. f_equal.
  apply toUpperCase_toLowerCase.
Qed.

(** Capitalizing twice is capitalizing once. *)
Lemma capitalized_twice s :
  upperFirst (toLowerCase (upperFirst (toLowerCase s))) =
  upperFirst (toLowerCase s).
Proof.
  destruct s as [|c r]; [reflexivity|].
  unfold toLowerCase. cbn [map_string upperFirst].
  rewrite lower_upper_lower_char. f_equal.
  apply toLowerCase_twice.
Qed.

Lemma length_append a b :
  String.length (a ++ b) = String.length a + String.length b.
Proof. induction a as [|x a IH]; simpl; [reflexivity|]. rewrite IH. reflexivity. Qed.

Lemma append_empty_r a : (a ++ "")%string = a.
Proof. induction a as [|x a IH]; simpl; [reflexivity|]. rewrite IH. reflexivity. Qed.

Lemma append_assoc a b c : ((a ++ b) ++ c = a ++ (b ++ c))%string.
Proof. induction a as [|x a IH]; simpl; [reflexivity|]. rewrite IH. reflexivity. Qed.

Lemma append_cancel_r a : forall b c, (a ++ c = b ++ c)%string -> a = b.
Proof.
  induction a as [|x a IH]; intros [|y b] c H; simpl in H.
  - reflexivity.
  - exfalso. apply (f_equal String.length) in H.
    simpl in H. rewrite length_append in H. lia.
  - exfalso. apply (f_equal String.length) in H.
    simpl in H. rewrite length_append in H. lia.
  - injection H as -> H. f_equal. eapply IH. exact H.
Qed.

Lemma options_name_inj k k' : options_name k = options_name k' -> k = k'.
Proof.
  unfold options_name. intros H. simpl in H.
  repeat (injection H as H). eapply append_cancel_r. exact H.
Qed.

Lemma options_name_eqb k k' :
  String.eqb (options_name k) (options_name k') = String.eqb k k'.
Proof.
  destruct (String.eqb k k') eqn:E.
  - apply String.eqb_eq in E. subst. apply String.eqb_refl.
  - apply String.eqb_neq. intros H. apply options_name_inj in H.
    apply String.eqb_neq in E. contradiction.
Qed.

(** ** Display names *)

Lemma trimEnd_closing x :
  no_brace x = true -> trimEnd (x ++ "}") "{}" = x.
Proof.
  induction x as [|c r IH]; simpl; [reflexivity|].
  intros H. apply andb_prop in H as [Hc Hr].
  rewrite (IH Hr). apply negb_true_iff in Hc.
  simpl in Hc. rewrite Hc. destruct r; reflexivity.
Qed.

Lemma trim_braces x :
  no_brace x = true -> trim ("{" ++ x ++ "}") "{}" = x.
Proof.
  intros H. unfold trim. simpl.
  destruct x as [|c r]; [reflexivity|].
  pose proof H as H'.
  cbn [no_brace] in H. apply andb_prop in H as [Hc Hr].
  change (trimStart (String c r ++ "}") "{}")
    with (if mem_char c "{}" then trimStart (r ++ "}") "{}"
          else String c (r ++ "}")).
  apply negb_true_iff in Hc. rewrite Hc.
  change (String c (r ++ "}")) with (String c r ++ "}")%string.
  apply trimEnd_closing. exact H'.
Qed.

Lemma plain_no_brace x : plain x = true -> no_brace x = true.
Proof.
  induction x as [|c r IH]; simpl; [reflexivity|].
  intros H. apply andb_prop in H as [Hc Hr]. rewrite (IH Hr).
  apply negb_true_iff in Hc. simpl in Hc.
  apply orb_false_elim in Hc as [H1 Hc]. apply orb_false_elim in Hc as [H2 _].
  simpl. rewrite H1, H2. reflexivity.
Qed.

Lemma no_brace_append x y :
  no_brace x = true -> no_brace y = true -> no_brace (x ++ y) = true.
Proof.
  induction x as [|c r IH]; simpl; [auto|].
  intros H Hy. apply andb_prop in H as [Hc Hr]. rewrite Hc. simpl. auto.
Qed.

Lemma plain_not_underscore c r :
  plain (String c r) = true -> Ascii.eqb "_" c = false /\ plain r = true.
Proof.
  intros H. cbn [plain] in H.
  apply andb_prop in H as [Hc Hr]. split; [|assumption].
  apply negb_true_iff in Hc. cbn [mem_char] in Hc.
  apply orb_false_elim in Hc as [_ Hc]. apply orb_false_elim in Hc as [_ Hc].
  apply orb_false_elim in Hc as [Hc _]. rewrite Ascii.eqb_sym. exact Hc.
Qed.

(** Without an underscore there is nothing to replace. *)
Lemma replace_plain x tail :
  plain x = true ->
  replace (x ++ tail) "_" "" = (x ++ replace tail "_" "")%string.
Proof.
  induction x as [|c r IH]; [reflexivity|].
  intros H. apply plain_not_underscore in H as [Hc Hr].
  change (replace (String c r ++ tail) "_" "")
    with (if prefix "_" (String c (r ++ tail))
          then ("" ++ drop 1 (String c (r ++ tail)))%string
          else String c (replace (r ++ tail) "_" "")).
  cbn [prefix]. destruct (ascii_dec "_" c) as [<-|_].
  - rewrite Ascii.eqb_refl in Hc. discriminate.
  - rewrite (IH Hr). reflexivity.
Qed.

Lemma replace_nothing x : plain x = true -> replace x "_" "" = x.
Proof.
  intros H. rewrite <- (append_empty_r x) at 1.
  rewrite replace_plain by assumption. simpl. apply append_empty_r.
Qed.

Lemma replace_one x y :
  plain x = true -> replace (x ++ "_" ++ y) "_" "" = (x ++ y)%string.
Proof.
  intros H. rewrite replace_plain by assumption.
  destruct y; reflexivity.
Qed.

End StringFacts.

(* ================================================================== *)
(** * Facts about the synthesizer *)
(* ================================================================== *)

Module SynthFacts.
Import Js Lodash Config Spec ObjFacts MonadFacts StringFacts.
Local Open Scope js_scope.

Lemma bind_type_error {A B} (m : outcome A) (k : A -> outcome B) :
  type_error_only m -> (forall a, type_error_only (k a)) ->
  type_error_only (bind m k).
Proof. destruct m as [a|[]|]; simpl; auto. Qed.

Lemma foldM_type_error {A S} (f : S -> A -> outcome S) l :
  (forall s x, type_error_only (f s x)) ->
  forall s, type_error_only (foldM f s l).
Proof.
  intros H. induction l as [|x r IH]; simpl; intros s; [exact I|].
  apply bind_type_error; auto.
Qed.

(** The string conversion fails with a [TypeError] or not at all. *)
Lemma ToString_type_error v : type_error_only (ToString v).
Proof.
  induction v using value_nested_ind; try exact I.
  - destruct b; exact I.
  - cbn [ToString]. apply bind_type_error; [|intros; exact I].
    induction H as [|x r Hx _ IH]; [exact I|].
    apply bind_type_error.
    + destruct x; try exact I; exact Hx.
    + intros s. apply bind_type_error; [exact IH|intros; exact I].
  - cbn [ToString]. destruct (has_key "toString" o); exact I.
Qed.

Lemma get_type_error v k : type_error_only (get v k).
Proof. destruct v; exact I. Qed.

Lemma declare_api_type_error deps api : type_error_only (declare_api deps api).
Proof.
  unfold declare_api. apply bind_type_error; [apply get_type_error|].
  intros n. apply bind_type_error; [apply ToString_type_error|].
  intros; exact I.
Qed.

(** ** The loop over the segments *)

Lemma add_segments_names api segs : forall i names res r,
  foldM (add_segment api) (i, names, res) segs = Ok r ->
  exists res',
    r = (i + List.length segs, names ++ map display_name segs, res').
Proof.
  induction segs as [|seg segs IH]; simpl; intros i names res r H.
  - injection H as <-. exists res. rewrite Nat.add_0_r, app_nil_r. reflexivity.
  - apply bind_Ok in H as ([[i' names'] res'] & Hs & H).
    unfold add_segment in Hs.
    apply bind_Ok in Hs as ([parents name] & _ & Hs).
    apply bind_Ok in Hs as (a & _ & Hs).
    injection Hs as <- <- <-.
    apply IH in H as (res'' & ->). exists res''.
    rewrite <- app_assoc. simpl. f_equal. f_equal. lia.
Qed.

Lemma add_segment_total api a s st seg :
  get api "api" = Ok a -> ToString a = Ok s ->
  exists st', add_segment api st seg = Ok st'.
Proof.
  intros Ha Hs. destruct st as [[i names] res]. unfold add_segment.
  destruct i; rewrite !Ha; cbn [bind]; rewrite ?Hs; cbn [bind]; eauto.
Qed.

(** With a route whose [api] converts to a string the loop goes
    through. *)
Lemma add_segments_total api a s segs : forall st,
  get api "api" = Ok a -> ToString a = Ok s ->
  exists r, foldM (add_segment api) st segs = Ok r.
Proof.
  intros st Ha Hs. revert st.
  induction segs as [|seg segs IH]; simpl; intros st; [eauto|].
  destruct (add_segment_total api a s st seg Ha Hs) as [st' E].
  rewrite E. simpl. apply IH.
Qed.

(** ** The dependency list *)

(** Lines 139-147, by what the key selects. *)
Lemma push_dependency_eq deps proto api name a k :
  get api "api" = Ok a -> ToString a = Ok k ->
  push_dependency deps proto api name =
  match selected deps proto k with
  | Some l => ([], Ok (pushed deps proto k l (VObj [("name", VStr name)])))
  | None => ([(k ++ " is not defined")%string], Throw push_error)
  end.
Proof.
  intros Ha Hk. unfold push_dependency, selected, pushed.
  rewrite Ha. cbn [bind]. rewrite Hk. cbn [bind].
  destruct (String.eqb k "__proto__").
  - destruct proto; [reflexivity|]. rewrite bindM_lift_Ok, Hk. reflexivity.
  - destruct (lookup k deps) as [[| | | | |l|]|]; try reflexivity;
      rewrite bindM_lift_Ok, Hk; reflexivity.
Qed.

Lemma push_dependency_Ok deps proto api name log r :
  push_dependency deps proto api name = (log, Ok r) ->
  log = [] /\
  exists a k l,
    get api "api" = Ok a /\ ToString a = Ok k /\
    selected deps proto k = Some l /\
    r = pushed deps proto k l (VObj [("name", VStr name)]).
Proof.
  intros H.
  destruct (get api "api") as [a| |] eqn:Ea;
    [|unfold push_dependency in H; rewrite Ea in H; discriminate..].
  destruct (ToString a) as [k| |] eqn:Ek;
    [|unfold push_dependency in H; rewrite Ea in H; cbn [bind] in H;
      rewrite Ek in H; cbn [bind] in H; try rewrite Ea in H;
      try rewrite bindM_lift_Ok in H; try rewrite Ek in H; discriminate..].
  rewrite (push_dependency_eq _ _ _ _ _ _ Ea Ek) in H.
  destruct (selected deps proto k) as [l|] eqn:S; [|discriminate].
  injection H as <- <-. split; [reflexivity|]. exists a, k, l. auto.
Qed.

Lemma selected_pushed deps proto k l e k' :
  selected (fst (pushed deps proto k l e)) (snd (pushed deps proto k l e)) k'
  = if String.eqb k' k then Some (l ++ [e]) else selected deps proto k'.
Proof.
  unfold pushed, selected.
  destruct (String.eqb k "__proto__") eqn:E; cbn [fst snd].
  - apply String.eqb_eq in E. subst k. destruct (String.eqb k' "__proto__"); reflexivity.
  - destruct (String.eqb k' "__proto__") eqn:E'.
    + apply String.eqb_eq in E'. subst k'. rewrite String.eqb_sym, E. reflexivity.
    + rewrite lookup_obj_set. destruct (String.eqb k' k); reflexivity.
Qed.

Lemma keys_pushed deps proto k l e :
  selected deps proto k = Some l ->
  keys (fst (pushed deps proto k l e)) = keys deps.
Proof.
  unfold pushed, selected. destruct (String.eqb k "__proto__"); [reflexivity|].
  cbn [fst]. intros H.
  destruct (lookup k deps) as [v|] eqn:L; [|discriminate].
  unfold obj_set, has_key. rewrite L. apply keys_replace_key.
Qed.

(** ** One route *)

Lemma add_route_Ok lambda st api log st' :
  add_route lambda st api = (log, Ok st') ->
  log = [] /\
  exists p m node,
    get api "path" = Ok (VStr p) /\
    Lodash.toString (field api "method") = Ok m /\
    apiMethods st' = apiMethods st ++ [node] /\
    get node "name" =
      Ok (VStr ("ApiGatewayMethod" ++ leaf_key p ++ upperFirst (toLowerCase m))) /\
    get node "method" = Ok (VStr (toUpperCase m)) /\
    apiMethodsOptions st' =
      (if cors_enabled api
       then store (apiMethodsOptions st) (leaf_key p)
              (options_node (leaf_key p) (field api "api"))
       else apiMethodsOptions st) /\
    exists n names,
      foldM (add_segment api) (O, [], apiResources st) (split "/" p)
      = Ok (n, names, apiResources st').
Proof.
  unfold add_route. intros H.
  apply bindM_Ok in H as (segments & l1 & l2 & E & H & ->).
  apply lift_Ok in E as [Hseg ->].
  apply bindM_Ok in H as ([[n names] res] & l1 & l3 & E & H & ->).
  apply lift_Ok in E as [Hfold ->].
  apply bindM_Ok in H as (mv & l1 & l4 & E & H & ->).
  apply lift_Ok in E as [Hm ->].
  apply bindM_Ok in H as (method & l1 & l5 & E & H & ->).
  apply lift_Ok in E as [Hcap ->].
  apply bindM_Ok in H as (suffix & l1 & l6 & E & H & ->).
  apply lift_Ok in E as [Hsuf ->].
  apply bindM_Ok in H as (cors & l1 & l7 & E & H & ->).
  apply lift_Ok in E as [Hcors ->].
  apply bindM_Ok in H as (ln & l1 & l8 & E & H & ->).
  apply lift_Ok in E as [Hln ->].
  apply bindM_Ok in H as (a & l1 & l9 & E & H & ->).
  apply lift_Ok in E as [Ha ->].
  apply bindM_Ok in H as (deps & l1 & l10 & Hdep & H & ->).
  apply push_dependency_Ok in Hdep as [-> _].
  injection H as <- <-.
  split; [reflexivity|].
  unfold path_segments in Hseg.
  apply bind_Ok in Hseg as (pv & Hp & Hseg).
  destruct pv as [| | | |p| |]; try discriminate. injection Hseg as <-.
  pose proof Hfold as Hres.
  apply add_segments_names in Hfold as (res' & Hfold).
  injection Hfold as _ -> _. simpl app.
  unfold capitalize in Hcap, Hsuf.
  apply bind_Ok in Hcap as (m & Htm & Hcap). injection Hcap as <-.
  simpl in Hsuf. injection Hsuf as <-.
  exists p, m. eexists.
  split; [exact Hp|].
  split; [unfold field; rewrite Hm; exact Htm|].
  split; [reflexivity|].
  split; [simpl; rewrite capitalized_twice; reflexivity|].
  split; [simpl; rewrite toUpperCase_capitalized; reflexivity|].
  split; [simpl; unfold cors_enabled, field; rewrite Hcors, Ha; reflexivity|].
  simpl. eauto.
Qed.

(** ** The loops *)

Lemma hasOwnProperty_Ok v k h : hasOwnProperty v k = Ok h -> h = own v k.
Proof.
  destruct v; simpl; try discriminate; try (intros [= <-]; reflexivity).
  destruct (has_key "hasOwnProperty" props); [discriminate|].
  intros [= <-]. reflexivity.
Qed.

(** The loop over one lambda is the loop over its routes. *)
Lemma add_lambda_Ok st lambda log st' :
  add_lambda st lambda = (log, Ok st') ->
  foldMM (add_route lambda) st (routes_of_lambda lambda) = (log, Ok st').
Proof.
  unfold add_lambda, routes_of_lambda. intros H.
  apply bindM_Ok in H as (h & l1 & l2 & E & H & ->).
  apply lift_Ok in E as [Hh ->].
  apply hasOwnProperty_Ok in Hh. rewrite <- Hh. destruct h.
  - apply bindM_Ok in H as (g & l1 & l3 & E & H & ->).
    apply lift_Ok in E as [Hg ->].
    apply bindM_Ok in H as (routes & l1 & l4 & E & H & ->).
    apply lift_Ok in E as [Hr ->].
    unfold field, items. rewrite Hg, Hr. exact H.
  - exact H.
Qed.

Lemma add_routes_methods lambda routes : forall st log st',
  foldMM (add_route lambda) st routes = (log, Ok st') ->
  log = [] /\
  exists nodes,
    apiMethods st' = apiMethods st ++ nodes /\
    Forall2 method_node_of routes nodes.
Proof.
  induction routes as [|r routes IH]; simpl; intros st log st' H.
  - injection H as <- <-. split; [reflexivity|].
    exists []. rewrite app_nil_r. split; [reflexivity|constructor].
  - apply bindM_Ok in H as (st1 & l1 & l2 & E & H & ->).
    apply add_route_Ok in E as (-> & p & m & node & Hp & Hm & Ha & Hn & Hv & _).
    apply IH in H as (-> & nodes & Hnodes & HF).
    split; [reflexivity|].
    exists (node :: nodes). split.
    + rewrite Hnodes, Ha, <- app_assoc. reflexivity.
    + constructor; [|assumption]. exists p, m. auto.
Qed.

Lemma add_lambdas_methods ls : forall st log st',
  foldMM add_lambda st ls = (log, Ok st') ->
  log = [] /\
  exists nodes,
    apiMethods st' = apiMethods st ++ nodes /\
    Forall2 method_node_of (flat_map routes_of_lambda ls) nodes.
Proof.
  induction ls as [|l ls IH]; simpl; intros st log st' H.
  - injection H as <- <-. split; [reflexivity|].
    exists []. rewrite app_nil_r. split; [reflexivity|constructor].
  - apply bindM_Ok in H as (st1 & l1 & l2 & E & H & ->).
    apply add_lambda_Ok, add_routes_methods in E as (-> & n1 & H1 & F1).
    apply IH in H as (-> & n2 & H2 & F2).
    split; [reflexivity|].
    exists (n1 ++ n2). split.
    + rewrite H2, H1, <- app_assoc. reflexivity.
    + apply Forall2_app; assumption.
Qed.

(** ** The node maps *)

Lemma In_replace_key kv k v o :
  In kv (replace_key k v o) -> kv = (k, v) \/ In kv o.
Proof.
  induction o as [|[k0 v0] o IH]; simpl; [tauto|].
  destruct (String.eqb k k0); simpl; intuition.
Qed.

Lemma In_insert_index kv i k v o :
  In kv (insert_index i k v o) -> kv = (k, v) \/ In kv o.
Proof.
  induction o as [|[k0 v0] o IH]; simpl; [intuition|].
  destruct (array_index k0) as [j|]; [destruct (j <? i)%N|]; simpl; intuition.
Qed.

Lemma In_obj_set kv o k v :
  In kv (obj_set o k v) -> kv = (k, v) \/ In kv o.
Proof.
  unfold obj_set. destruct (has_key k o).
  - apply In_replace_key.
  - destruct (array_index k).
    + apply In_insert_index.
    + rewrite in_app_iff. simpl. intuition.
Qed.

Lemma In_store kv o k v :
  In kv (store o k v) -> (kv = (k, v) /\ k <> "__proto__") \/ In kv o.
Proof.
  unfold store. destruct (String.eqb k "__proto__") eqn:E; [auto|].
  apply String.eqb_neq in E. intros H. apply In_obj_set in H as [H|H]; auto.
Qed.

Lemma named_by_nil nm : named_by nm [].
Proof.
  split; [constructor|]. split; [intros k v []|intros []].
Qed.

Lemma named_by_set nm o key node :
  field node "name" = VStr (nm key) ->
  named_by nm o -> named_by nm (store o key node).
Proof.
  intros Hname (ND & Hn & Hp).
  split; [apply NoDup_store; assumption|].
  split; [|apply proto_free_store; assumption].
  intros k v Hin. apply In_store in Hin as [[E _]|Hin]; [|eauto].
  injection E as -> ->. exact Hname.
Qed.

Lemma resource_name_inj k k' : resource_name k = resource_name k' -> k = k'.
Proof. unfold resource_name. simpl. intros H. repeat (injection H as H). exact H. Qed.

(** One turn of the loop over the segments stores a node under the
    concatenation of the names seen so far. *)
Lemma add_segment_Ok api names res seg r :
  add_segment api (List.length names, names, res) seg = Ok r ->
  exists node,
    r = (S (List.length names), names ++ [display_name seg],
         store res (join (names ++ [display_name seg])) node) /\
    field node "name" = VStr (resource_name (join (names ++ [display_name seg]))).
Proof.
  unfold add_segment. intros H.
  apply bind_Ok in H as ([parents name] & Hr & H).
  apply bind_Ok in H as (a & _ & H). injection H as <-.
  destruct names as [|n0 names]; simpl List.length in *; cbv iota in Hr.
  - apply bind_Ok in Hr as (a' & _ & Hr).
    apply bind_Ok in Hr as (s & _ & Hr). injection Hr as <- <-.
    simpl app. simpl join. rewrite append_empty_r. eexists.
    split; reflexivity.
  - injection Hr as <- <-. eexists. split; reflexivity.
Qed.

Lemma add_segments_resources api segs : forall names res r,
  foldM (add_segment api) (List.length names, names, res) segs = Ok r ->
  named_by resource_name res ->
  named_by resource_name (snd r) /\
  (forall k, In k (keys res) -> In k (keys (snd r))) /\
  forall j, 1 <= j <= List.length segs ->
    join (names ++ map display_name (firstn j segs)) <> "__proto__" ->
    In (join (names ++ map display_name (firstn j segs))) (keys (snd r)).
Proof.
  induction segs as [|seg segs IH]; simpl; intros names res r H Hinv.
  - injection H as <-. simpl. split; [assumption|]. split; [auto|].
    intros j Hj. lia.
  - apply bind_Ok in H as (r1 & H1 & H).
    apply add_segment_Ok in H1 as (node & -> & Hname).
    replace (S (List.length names))
      with (List.length (names ++ [display_name seg])) in H
      by (rewrite length_app; simpl; lia).
    apply IH in H as (Hinv' & Hmono & Hcov).
    2:{ apply named_by_set; assumption. }
    split; [assumption|]. split.
    + intros k Hk. apply Hmono, In_keys_store. auto.
    + intros j Hj. destruct j as [|j]; [lia|]. simpl firstn. simpl map.
      destruct j as [|j].
      * simpl. intros N. apply Hmono, In_keys_store. auto.
      * replace (names ++ display_name seg :: map display_name (firstn (S j) segs))
          with ((names ++ [display_name seg])
                ++ map display_name (firstn (S j) segs))
          by (rewrite <- app_assoc; reflexivity).
        apply Hcov. lia.
Qed.

Lemma In_prefix_keys key p :
  In key (prefix_keys p) ->
  exists j, 1 <= j <= List.length (split "/" p) /\
            key = join (map display_name (firstn j (split "/" p))).
Proof.
  unfold prefix_keys, prefixes. rewrite map_map. intros H.
  apply in_map_iff in H as (j & <- & Hj). apply in_seq in Hj.
  exists j. split; [lia|reflexivity].
Qed.

Lemma grows_trans a b c : grows a b -> grows b c -> grows a c.
Proof. intros [H1 H2] [H3 H4]. split; auto. Qed.

Lemma covered_grows routes st st' :
  grows st st' -> covered routes st -> covered routes st'.
Proof.
  intros [G1 G2] H r p Hr Hp. destruct (H r p Hr Hp) as [H1 H2].
  split; auto.
Qed.

Lemma add_route_maps lambda st r log st' :
  add_route lambda st r = (log, Ok st') ->
  maps_inv st ->
  maps_inv st' /\ grows st st' /\ covered [r] st'.
Proof.
  intros H [Ho Hr].
  apply add_route_Ok in H
    as (-> & p & m & node & Hp & _ & _ & _ & _ & Hopt & n & names & Hres).
  pose proof (add_segments_resources _ _ [] _ _ Hres Hr) as (Hr' & Hmono & Hcov).
  simpl snd in *.
  assert (Ho' : named_by options_name (apiMethodsOptions st')).
  { rewrite Hopt. destruct (cors_enabled r); [|assumption].
    apply named_by_set; [reflexivity|assumption]. }
  split; [split; assumption|]. split.
  - split; [|assumption]. intros k Hk. rewrite Hopt.
    destruct (cors_enabled r); [|assumption]. apply In_keys_store. auto.
  - intros r' p' [<-|[]] Hp'. rewrite Hp in Hp'. injection Hp' as <-. split.
    + intros Hc N. rewrite Hopt, Hc. apply In_keys_store. auto.
    + intros key Hk N. apply In_prefix_keys in Hk as (j & Hj & ->).
      apply (Hcov j Hj). exact N.
Qed.

Lemma add_routes_maps lambda routes : forall st log st',
  foldMM (add_route lambda) st routes = (log, Ok st') ->
  maps_inv st ->
  maps_inv st' /\ grows st st' /\ covered routes st'.
Proof.
  induction routes as [|r routes IH]; simpl; intros st log st' H Hinv.
  - injection H as <- <-. split; [assumption|]. split; [split; auto|].
    intros r p [].
  - apply bindM_Ok in H as (st1 & l1 & l2 & E & H & ->).
    destruct (add_route_maps _ _ _ _ _ E Hinv) as (Hinv1 & G1 & C1).
    destruct (IH _ _ _ H Hinv1) as (Hinv' & G' & C').
    split; [assumption|]. split; [eapply grows_trans; eassumption|].
    intros r' p' [<-|Hin] Hp'.
    + apply (covered_grows [r] st1 st' G' C1 r p'); simpl; auto.
    + apply C'; assumption.
Qed.

Lemma add_lambdas_maps ls : forall st log st',
  foldMM add_lambda st ls = (log, Ok st') ->
  maps_inv st ->
  maps_inv st' /\ grows st st' /\ covered (flat_map routes_of_lambda ls) st'.
Proof.
  induction ls as [|l ls IH]; simpl; intros st log st' H Hinv.
  - injection H as <- <-. split; [assumption|]. split; [split; auto|].
    intros r p [].
  - apply bindM_Ok in H as (st1 & l1 & l2 & E & H & ->).
    apply add_lambda_Ok in E.
    destruct (add_routes_maps _ _ _ _ _ E Hinv) as (Hinv1 & G1 & C1).
    destruct (IH _ _ _ H Hinv1) as (Hinv' & G' & C').
    split; [assumption|]. split; [eapply grows_trans; eassumption|].
    intros r p Hin Hp. apply in_app_iff in Hin as [Hin|Hin].
    + apply (covered_grows _ st1 st' G' C1 r p); assumption.
    + apply C'; assumption.
Qed.

(** A key that is absent names no node; a key that is present names
    exactly one. *)
Lemma count_named_absent nm key o :
  (forall k k', nm k = nm k' -> k = k') ->
  (forall k v, In (k, v) o -> field v "name" = VStr (nm k)) ->
  ~ In key (keys o) -> count_named (nm key) (values o) = 0.
Proof.
  intros inj. unfold count_named.
  induction o as [|[k v] o IH]; simpl; intros Hn Hk; [reflexivity|].
  rewrite (Hn k v) by auto.
  destruct (String.eqb (nm k) (nm key)) eqn:E.
  - apply String.eqb_eq, inj in E. subst. tauto.
  - apply IH; [intros; apply Hn; auto|tauto].
Qed.

Lemma count_named_present nm key o :
  (forall k k', nm k = nm k' -> k = k') ->
  named_by nm o -> In key (keys o) ->
  count_named (nm key) (values o) = 1.
Proof.
  intros inj (ND & Hn & _). revert ND Hn. unfold count_named.
  induction o as [|[k v] o IH]; simpl; intros ND Hn Hk; [contradiction|].
  inversion ND as [|? ? Hnk ND']; subst.
  rewrite (Hn k v) by auto.
  destruct (String.eqb (nm k) (nm key)) eqn:E.
  - apply String.eqb_eq, inj in E. subst. simpl. f_equal.
    apply (count_named_absent nm key o inj); [intros; apply Hn; auto|assumption].
  - apply IH; [assumption|intros; apply Hn; auto|].
    destruct Hk as [->|Hk]; [|assumption].
    rewrite String.eqb_refl in E. discriminate.
Qed.

(** ** The whole synthesis *)

Lemma configureApiGateway_TheClass statics config log st' :
  configureApiGateway statics config = (log, Ok (st', TheClass)) ->
  exists deps syn,
    foldMM add_lambda
      {| apiMethods := []; apiMethodsOptions := [];
         apiDependencies := fst deps; apiDependenciesProto := snd deps;
         apiResources := [] |}
      (items (field config "lambdas")) = (log, Ok syn) /\
    st' = assign_obj statics (results syn).
Proof.
  unfold configureApiGateway. intros H.
  apply bindM_Ok in H as (apis & l1 & l2 & E & H & ->).
  apply lift_Ok in E as [Hapis ->].
  destruct (truthy apis); [|discriminate].
  apply bindM_Ok in H as (decls & l1 & l3 & E & H & ->).
  apply lift_Ok in E as [Hd ->].
  apply bindM_Ok in H as (deps & l1 & l4 & E & H & ->).
  apply lift_Ok in E as [Hdeps ->].
  apply bindM_Ok in H as (lambdas & l1 & l5 & E & H & ->).
  apply lift_Ok in E as [Hl ->].
  apply bindM_Ok in H as (ls & l1 & l6 & E & H & ->).
  apply lift_Ok in E as [Hls ->].
  apply bindM_Ok in H as (syn & l1 & l7 & E & H & ->).
  injection H as <- <-.
  exists deps, syn. unfold field, items. rewrite Hl, Hls.
  rewrite app_nil_r. simpl. auto.
Qed.

Lemma lookup_results statics syn :
  lookup "apiMethods" (assign_obj statics (results syn))
    = Some (VArr (apiMethods syn)) /\
  lookup "apiResources" (assign_obj statics (results syn))
    = Some (VArr (values (apiResources syn))) /\
  lookup "apiMethodsOptions" (assign_obj statics (results syn))
    = Some (VArr (values (apiMethodsOptions syn))).
Proof.
  unfold assign_obj, results. simpl.
  rewrite !lookup_obj_set. simpl. auto.
Qed.

End SynthFacts.

(* ================================================================== *)
(** * Synthesis on well-formed documents *)
(* ================================================================== *)

Module WellFormedFacts.
Import Js Lodash Config Spec ObjFacts MonadFacts SynthFacts.
Local Open Scope js_scope.

Lemma mem_names a names :
  existsb (String.eqb a) names = true <-> In a names.
Proof.
  rewrite existsb_exists. split.
  - intros (x & Hx & E). apply String.eqb_eq in E. subst. assumption.
  - intros H. exists a. split; [assumption|apply String.eqb_refl].
Qed.

Lemma deps_for_pushed names deps proto k l e :
  selected deps proto k = Some l ->
  deps_for names deps proto ->
  deps_for names (fst (pushed deps proto k l e)) (snd (pushed deps proto k l e)).
Proof.
  intros Hs H k'. rewrite selected_pushed.
  destruct (String.eqb k' k) eqn:E; [|apply H].
  apply String.eqb_eq in E. subst k'. split; [|eauto].
  intros _. apply H. eauto.
Qed.

Lemma selected_declared deps proto k k' :
  (forall x v, lookup x deps = Some v -> exists l, v = VArr l) ->
  (exists l,
      selected
        (fst (if String.eqb k "__proto__"
              then (deps, Some [])
              else (obj_set deps k (VArr []), proto)))
        (snd (if String.eqb k "__proto__"
              then (deps, Some [])
              else (obj_set deps k (VArr []), proto))) k' = Some l) <->
  (exists l, selected deps proto k' = Some l) \/ k' = k.
Proof.
  intros Hv. unfold selected.
  destruct (String.eqb k "__proto__") eqn:E; cbn [fst snd].
  - apply String.eqb_eq in E. subst k.
    destruct (String.eqb k' "__proto__") eqn:E'.
    + apply String.eqb_eq in E'. subst k'. split; eauto.
    + apply String.eqb_neq in E'. split; [auto|]. intros [H|H]; [exact H|].
      contradiction.
  - destruct (String.eqb k' "__proto__") eqn:E'.
    + apply String.eqb_eq in E'. subst k'. split; [auto|].
      intros [H|H]; [exact H|]. subst k. rewrite String.eqb_refl in E.
      discriminate.
    + rewrite lookup_obj_set. destruct (String.eqb k' k) eqn:Ek.
      * apply String.eqb_eq in Ek. split; eauto.
      * apply String.eqb_neq in Ek. split; [auto|].
        intros [H|H]; [exact H|contradiction].
Qed.

(** Lines 55-57 on well-formed entries: every name gets its list. *)
Lemma declare_apis decls : forall names deps,
  forallb api_ok decls = true ->
  (forall x v, lookup x (fst deps) = Some v -> exists l, v = VArr l) ->
  deps_for names (fst deps) (snd deps) ->
  exists deps',
    foldM declare_api deps decls = Ok deps' /\
    deps_for (names ++ map (fun a => str_of (field a "name")) decls)
             (fst deps') (snd deps').
Proof.
  induction decls as [|a decls IH]; simpl; intros names deps Hok Hv H.
  - exists deps. rewrite app_nil_r. auto.
  - apply andb_prop in Hok as [Ha Hok].
    destruct a as [| | | | | |o]; try discriminate. simpl in Ha.
    unfold declare_api at 1. unfold field. simpl.
    destruct (lookup "name" o) as [[| | | |s| |]|]; try discriminate. simpl.
    destruct (IH (names ++ [s])
                 (if String.eqb s "__proto__"
                  then (fst deps, Some [])
                  else (obj_set (fst deps) s (VArr []), snd deps)) Hok)
      as (deps' & E & H').
    + destruct (String.eqb s "__proto__"); cbn [fst]; [exact Hv|].
      intros x v. rewrite lookup_obj_set.
      destruct (String.eqb x s); [intros [= <-]; eauto|apply Hv].
    + intros k'. rewrite selected_declared by exact Hv.
      rewrite (H k'), in_app_iff. simpl. intuition.
    + exists deps'. split; [exact E|].
      rewrite <- app_assoc in H'. exact H'.
Qed.

(** One well-formed route: it is recorded when its identifier is
    declared, and reported otherwise. *)
Lemma add_route_well_formed names lo st r :
  route_ok r = true ->
  deps_for names (apiDependencies st) (apiDependenciesProto st) ->
  if existsb (String.eqb (route_api r)) names
  then exists st',
         add_route (VObj lo) st r = ([], Ok st') /\
         deps_for names (apiDependencies st') (apiDependenciesProto st')
  else add_route (VObj lo) st r
       = ([(route_api r ++ " is not defined")%string], Throw push_error).
Proof.
  intros Hok Hdeps.
  destruct r as [| | | | | |o]; try discriminate. simpl in Hok.
  apply andb_prop in Hok as [Hok Hm]. apply andb_prop in Hok as [Hp Ha].
  destruct (lookup "path" o) as [[| | | |p| |]|] eqn:Lp; try discriminate.
  destruct (lookup "api" o) as [[| | | |a| |]|] eqn:La; try discriminate.
  assert (Ga : get (VObj o) "api" = Ok (VStr a)) by (simpl; rewrite La; reflexivity).
  assert (Ra : route_api (VObj o) = a).
  { unfold route_api, field. rewrite Ga. reflexivity. }
  rewrite Ra.
  destruct (add_segments_total (VObj o) (VStr a) a (split "/" p)
              (O, [], apiResources st) Ga eq_refl) as ([[n names'] res] & Hseg).
  assert (Hcap : exists m, capitalize (match lookup "method" o with
                                       | Some x => x | None => VUndef end) = Ok m).
  { destruct (lookup "method" o) as [[| | | |s| |]|]; try discriminate;
      unfold capitalize; simpl; eauto. }
  destruct Hcap as (m & Hcap).
  pose proof (Hdeps a) as Hda.
  destruct (existsb (String.eqb a) names) eqn:E;
    unfold add_route, path_segments; simpl get; rewrite Lp; cbn [bind];
    rewrite bindM_lift_Ok, Hseg, bindM_lift_Ok, bindM_lift_Ok, Hcap,
      bindM_lift_Ok;
    unfold capitalize at 1; cbn [Lodash.toString ToString bind];
    rewrite !bindM_lift_Ok;
    rewrite (push_dependency_eq _ _ (VObj o) _ (VStr a) a)
      by (simpl; rewrite ?La; reflexivity).
  - apply mem_names in E. apply Hda in E as (l & Hl). rewrite Hl.
    rewrite bindM_nil_Ok. eexists. split; [reflexivity|].
    cbn [apiDependencies apiDependenciesProto].
    apply deps_for_pushed; assumption.
  - assert (N : ~ In a names).
    { intros Hin. apply mem_names in Hin. congruence. }
    destruct (selected _ _ a) as [l|] eqn:Hl; [|reflexivity].
    exfalso. apply N, Hda. eauto.
Qed.

Lemma add_routes_well_formed names lo rs : forall st,
  forallb route_ok rs = true ->
  deps_for names (apiDependencies st) (apiDependenciesProto st) ->
  report names (map route_api rs)
    (foldMM (add_route (VObj lo)) st rs)
    (fun st' => deps_for names (apiDependencies st')
                         (apiDependenciesProto st')).
Proof.
  unfold report.
  induction rs as [|r rs IH]; simpl; intros st Hok Hdeps.
  - exists st. auto.
  - apply andb_prop in Hok as [Hr Hok].
    pose proof (add_route_well_formed names lo st r Hr Hdeps) as H.
    destruct (existsb (String.eqb (route_api r)) names); simpl.
    + destruct H as (st1 & -> & Hdeps1). rewrite bindM_nil_Ok.
      apply IH; assumption.
    + rewrite H. reflexivity.
Qed.

Lemma add_lambda_well_formed names l st :
  lambda_ok l = true ->
  deps_for names (apiDependencies st) (apiDependenciesProto st) ->
  report names (map route_api (routes_of_lambda l))
    (add_lambda st l)
    (fun st' => deps_for names (apiDependencies st')
                         (apiDependenciesProto st')).
Proof.
  intros Hok Hdeps.
  destruct l as [| | | | | |o]; try discriminate. simpl in Hok.
  apply andb_prop in Hok as [Hown Hg]. apply negb_true_iff in Hown.
  unfold add_lambda, routes_of_lambda, field, items.
  cbn [hasOwnProperty get own]. rewrite Hown, bindM_lift_Ok. unfold has_key.
  destruct (lookup "apiGateway" o) as [[| | | | |rs|]|]; try discriminate.
  - rewrite bindM_lift_Ok. cbn [iterate]. rewrite bindM_lift_Ok.
    apply add_routes_well_formed; assumption.
  - unfold report. simpl. exists st. auto.
Qed.

Lemma add_lambdas_well_formed names ls : forall st,
  forallb lambda_ok ls = true ->
  deps_for names (apiDependencies st) (apiDependenciesProto st) ->
  report names (map route_api (flat_map routes_of_lambda ls))
    (foldMM add_lambda st ls)
    (fun st' => deps_for names (apiDependencies st')
                         (apiDependenciesProto st')).
Proof.
  induction ls as [|l ls IH]; simpl; intros st Hok Hdeps.
  - unfold report. simpl. exists st. auto.
  - apply andb_prop in Hok as [Hl Hok].
    pose proof (add_lambda_well_formed names l st Hl Hdeps) as H.
    unfold report in *. rewrite map_app, filter_app.
    destruct (filter _ (map route_api (routes_of_lambda l))) as [|id rest].
    + destruct H as (st1 & -> & Hdeps1). rewrite bindM_nil_Ok. simpl.
      apply IH; assumption.
    + simpl. rewrite H. reflexivity.
Qed.

(** The synthesizer on a well-formed document: it stops at the first
    undeclared identifier, having logged it, or returns its results. *)
Lemma synthesis_outcome statics d :
  doc_ok d = true ->
  match undeclared d with
  | [] => exists st', configureApiGateway statics d = ([], Ok (st', TheClass))
  | id :: _ =>
      configureApiGateway statics d
      = ([(id ++ " is not defined")%string], Throw push_error)
  end.
Proof.
  unfold doc_ok, undeclared, declared, routes_of. intros Hok.
  destruct (field d "apis") as [| | | | |decls|] eqn:Ea; try discriminate.
  destruct (field d "lambdas") as [| | | | |ls|] eqn:El; try discriminate.
  apply andb_prop in Hok as [Hd Hl].
  assert (Ga : get d "apis" = Ok (VArr decls)).
  { unfold field in Ea. destruct (get d "apis"); try discriminate. congruence. }
  assert (Gl : get d "lambdas" = Ok (VArr ls)).
  { unfold field in El. destruct (get d "lambdas"); try discriminate. congruence. }
  unfold items. simpl iterate. cbv iota.
  destruct (declare_apis decls [] ([], None) Hd) as (deps & Hdeps & Hfor).
  { intros x v. discriminate. }
  { intros k. unfold selected. simpl.
    destruct (String.eqb k "__proto__"); (split; [|intros []]);
      intros [l0 Hl0]; discriminate. }
  simpl app in Hfor.
  pose proof (add_lambdas_well_formed _ ls
                {| apiMethods := []; apiMethodsOptions := [];
                   apiDependencies := fst deps;
                   apiDependenciesProto := snd deps;
                   apiResources := [] |} Hl Hfor) as H.
  unfold report in H.
  unfold configureApiGateway.
  rewrite Ga, bindM_lift_Ok. simpl truthy. cbv iota.
  simpl forEach_elems. rewrite bindM_lift_Ok, Hdeps, bindM_lift_Ok, Gl,
    bindM_lift_Ok.
  simpl iterate. rewrite bindM_lift_Ok.
  destruct (filter _ _) as [|id rest].
  - destruct H as (syn & -> & _). rewrite bindM_nil_Ok. eexists. reflexivity.
  - rewrite H. reflexivity.
Qed.

End WellFormedFacts.

(* ================================================================== *)
(** * Facts about the outputs of the synthesizer *)
(* ================================================================== *)

Module OutputFacts.
Import Js Lodash Config Spec Outputs ObjFacts MonadFacts StringFacts SynthFacts.
Import WellFormedFacts.
Local Open Scope js_scope.

Lemma push_dependency_inv deps proto api name log r :
  push_dependency deps proto api name = (log, Ok r) ->
  exists a k l,
    get api "api" = Ok a /\ ToString a = Ok k /\
    selected deps proto k = Some l /\
    r = pushed deps proto k l (VObj [("name", VStr name)]).
Proof. intros H. apply push_dependency_Ok in H as [_ H]. exact H. Qed.

(** Everything one route does to the accumulators. *)
Lemma add_route_full lambda st api log st' :
  add_route lambda st api = (log, Ok st') ->
  exists p k l n names node,
    field api "path" = VStr p /\
    ToString (field api "api") = Ok k /\
    selected (apiDependencies st) (apiDependenciesProto st) k = Some l /\
    foldM (add_segment api) (O, [], apiResources st) (split "/" p)
      = Ok (n, names, apiResources st') /\
    apiMethods st' = apiMethods st ++ [node] /\
    field node "name" = VStr (route_method_name api) /\
    field node "resource" = VStr (resource_name (leaf_key p)) /\
    (apiDependencies st', apiDependenciesProto st')
      = pushed (apiDependencies st) (apiDependenciesProto st) k l
               (dep_entry api) /\
    apiMethodsOptions st' =
      (if cors_enabled api
       then store (apiMethodsOptions st) (leaf_key p)
              (options_node (leaf_key p) (field api "api"))
       else apiMethodsOptions st).
Proof.
  unfold add_route. intros H.
  apply bindM_Ok in H as (segments & l1 & l2 & E & H & ->).
  apply lift_Ok in E as [Hseg ->].
  apply bindM_Ok in H as ([[n names] res] & l1 & l3 & E & H & ->).
  apply lift_Ok in E as [Hfold ->].
  apply bindM_Ok in H as (mv & l1 & l4 & E & H & ->).
  apply lift_Ok in E as [Hm ->].
  apply bindM_Ok in H as (method & l1 & l5 & E & H & ->).
  apply lift_Ok in E as [Hcap ->].
  apply bindM_Ok in H as (suffix & l1 & l6 & E & H & ->).
  apply lift_Ok in E as [Hsuf ->].
  apply bindM_Ok in H as (cors & l1 & l7 & E & H & ->).
  apply lift_Ok in E as [Hcors ->].
  apply bindM_Ok in H as (ln & l1 & l8 & E & H & ->).
  apply lift_Ok in E as [Hln ->].
  apply bindM_Ok in H as (a & l1 & l9 & E & H & ->).
  apply lift_Ok in E as [Ha ->].
  apply bindM_Ok in H as (deps & l1 & l10 & Hdep & H & ->).
  apply push_dependency_inv in Hdep as (a' & k & l & Ha' & Hk & Hl & ->).
  rewrite Ha in Ha'. injection Ha' as <-.
  injection H as _ <-.
  unfold path_segments in Hseg.
  apply bind_Ok in Hseg as (pv & Hp & Hseg).
  destruct pv as [| | | |p| |]; try discriminate. injection Hseg as <-.
  pose proof Hfold as Hres.
  apply add_segments_names in Hfold as (res' & Hfold).
  injection Hfold as _ -> _. simpl app in *.
  assert (Hname : ("ApiGatewayMethod" ++ join (map display_name (split "/" p))
                                      ++ suffix)%string
                  = route_method_name api).
  { unfold route_method_name, path_of, field. rewrite Hp, Hm, Hcap.
    unfold capitalize in Hcap, Hsuf.
    apply bind_Ok in Hcap as (m & _ & Hcap). injection Hcap as <-.
    simpl in Hsuf. injection Hsuf as <-.
    rewrite capitalized_twice. reflexivity. }
  exists p, k, l, n, (map display_name (split "/" p)). eexists.
  split; [unfold field; rewrite Hp; reflexivity|].
  split; [unfold field; rewrite Ha; exact Hk|].
  split; [exact Hl|].
  split; [exact Hres|].
  split; [reflexivity|].
  split; [rewrite <- Hname; reflexivity|].
  split; [reflexivity|].
  split.
  { cbn [apiDependencies apiDependenciesProto].
    unfold dep_entry. rewrite <- Hname.
    destruct (pushed _ _ k l _); reflexivity. }
  simpl. unfold cors_enabled, field. rewrite Hcors, Ha. reflexivity.
Qed.

Lemma route_key_Ok r k : ToString (field r "api") = Ok k -> route_key r = k.
Proof. unfold route_key. intros ->. reflexivity. Qed.

Lemma path_of_Ok r p : field r "path" = VStr p -> path_of r = p.
Proof. unfold path_of. intros ->. reflexivity. Qed.

(** ** The dependency lists *)

Lemma methods_of_app k a b :
  methods_of k (a ++ b) = methods_of k a ++ methods_of k b.
Proof. unfold methods_of. rewrite filter_app, map_app. reflexivity. Qed.

Lemma add_route_deps lambda st r log st' handled :
  add_route lambda st r = (log, Ok st') ->
  deps_track handled (apiDependencies st) ->
  deps_track (handled ++ [r]) (apiDependencies st') /\
  keys (apiDependencies st') = keys (apiDependencies st).
Proof.
  intros H [Ht Hp].
  apply add_route_full in H
    as (p & k & l & n & names & node & _ & Hk & Hl & _ & _ & _ & _ & Hd & _).
  apply route_key_Ok in Hk.
  assert (Hkeys : keys (apiDependencies st') = keys (apiDependencies st)).
  { replace (apiDependencies st')
      with (fst (pushed (apiDependencies st) (apiDependenciesProto st) k l
                        (dep_entry r))) by (rewrite <- Hd; reflexivity).
    apply keys_pushed. exact Hl. }
  split; [|exact Hkeys]. split; [|rewrite Hkeys; exact Hp].
  intros k' v.
  replace (apiDependencies st')
    with (fst (pushed (apiDependencies st) (apiDependenciesProto st) k l
                      (dep_entry r))) by (rewrite <- Hd; reflexivity).
  rewrite methods_of_app. unfold methods_of at 2. simpl. rewrite Hk.
  clear Hk Hkeys Hd. unfold pushed, selected in *.
  destruct (String.eqb k "__proto__") eqn:Ep; cbn [fst].
  - apply String.eqb_eq in Ep. subst k. intros Hv.
    destruct (String.eqb "__proto__" k') eqn:E.
    + apply String.eqb_eq in E. subst k'.
      rewrite (lookup_proto_free _ Hp) in Hv. discriminate.
    + simpl. rewrite app_nil_r. apply Ht. exact Hv.
  - rewrite lookup_obj_set.
    destruct (lookup k (apiDependencies st)) as [[| | | | |l0|]|] eqn:L;
      try discriminate. injection Hl as ->.
    destruct (String.eqb k' k) eqn:E.
    + apply String.eqb_eq in E. subst k'. intros [= <-].
      apply Ht in L. injection L as ->.
      rewrite String.eqb_refl. reflexivity.
    + intros Hv. rewrite String.eqb_sym, E. simpl. rewrite app_nil_r.
      apply Ht. assumption.
Qed.

Lemma add_routes_deps lambda routes : forall st log st' handled,
  foldMM (add_route lambda) st routes = (log, Ok st') ->
  deps_track handled (apiDependencies st) ->
  deps_track (handled ++ routes) (apiDependencies st') /\
  keys (apiDependencies st') = keys (apiDependencies st).
Proof.
  induction routes as [|r routes IH]; simpl; intros st log st' handled H Ht.
  - injection H as <- <-. rewrite app_nil_r. auto.
  - apply bindM_Ok in H as (st1 & l1 & l2 & E & H & ->).
    destruct (add_route_deps _ _ _ _ _ _ E Ht) as [Ht1 K1].
    destruct (IH _ _ _ _ H Ht1) as [Ht' K'].
    rewrite <- app_assoc in Ht'. split; [exact Ht'|congruence].
Qed.

Lemma add_lambdas_deps ls : forall st log st' handled,
  foldMM add_lambda st ls = (log, Ok st') ->
  deps_track handled (apiDependencies st) ->
  deps_track (handled ++ flat_map routes_of_lambda ls) (apiDependencies st') /\
  keys (apiDependencies st') = keys (apiDependencies st).
Proof.
  induction ls as [|l ls IH]; simpl; intros st log st' handled H Ht.
  - injection H as <- <-. rewrite app_nil_r. auto.
  - apply bindM_Ok in H as (st1 & l1 & l2 & E & H & ->).
    apply add_lambda_Ok in E.
    destruct (add_routes_deps _ _ _ _ _ _ E Ht) as [Ht1 K1].
    destruct (IH _ _ _ _ H Ht1) as [Ht' K'].
    rewrite <- app_assoc in Ht'. split; [exact Ht'|congruence].
Qed.

(** Lines 55-57: an empty list under each name but [__proto__], each
    name once. *)
Lemma declare_apis_inv decls : forall deps deps',
  foldM declare_api deps decls = Ok deps' ->
  NoDup (keys (fst deps)) ->
  ~ In "__proto__" (keys (fst deps)) ->
  (forall k v, lookup k (fst deps) = Some v -> v = VArr []) ->
  NoDup (keys (fst deps')) /\
  ~ In "__proto__" (keys (fst deps')) /\
  (forall k v, lookup k (fst deps') = Some v -> v = VArr []) /\
  (forall k, In k (keys (fst deps')) <->
             In k (keys (fst deps)) \/
             (In k (map (fun a => match ToString (field a "name") with
                                  | Ok k => k
                                  | _ => EmptyString
                                  end) decls) /\ k <> "__proto__")) /\
  (forall k, In k (map (fun a => match ToString (field a "name") with
                                 | Ok k => k
                                 | _ => EmptyString
                                 end) decls) ->
             exists l, selected (fst deps') (snd deps') k = Some l) /\
  (forall k l, selected (fst deps) (snd deps) k = Some l ->
               exists l', selected (fst deps') (snd deps') k = Some l').
Proof.
  induction decls as [|a decls IH]; simpl; intros deps deps' H ND Hp Hv.
  - injection H as <-. split; [assumption|]. split; [assumption|].
    split; [assumption|]. split; [tauto|]. split; [intros k []|eauto].
  - apply bind_Ok in H as (d1 & H1 & H).
    unfold declare_api in H1.
    apply bind_Ok in H1 as (n & Hn & H1).
    apply bind_Ok in H1 as (k & Hk & H1). injection H1 as <-.
    assert (Fk : match ToString (field a "name") with
                 | Ok k => k
                 | _ => EmptyString
                 end = k) by (unfold field; rewrite Hn, Hk; reflexivity).
    rewrite Fk.
    assert (Hv1 : forall x v, lookup x (fst deps) = Some v -> exists l, v = VArr l).
    { intros x v Hx. apply Hv in Hx. eauto. }
    pose proof (selected_declared (fst deps) (snd deps) k) as Sd.
    destruct (String.eqb k "__proto__") eqn:E.
    + apply String.eqb_eq in E. subst k.
      apply IH in H as (ND' & Hp' & Hv' & Hkeys & Hsel & Hmono);
        cbn [fst snd] in *; try assumption.
      split; [assumption|]. split; [assumption|]. split; [assumption|].
      split; [|split].
      * intros k'. rewrite Hkeys. intuition. subst. contradiction.
      * intros k' [<-|Hin]; [|auto].
        apply (Hmono "__proto__" []). reflexivity.
      * intros k' l Hl. destruct (proj2 (Sd k' Hv1)) as (l1 & Hl1); [eauto|].
        eapply Hmono. exact Hl1.
    + pose proof E as N. apply String.eqb_neq in N.
      apply IH in H as (ND' & Hp' & Hv' & Hkeys & Hsel & Hmono);
        cbn [fst snd] in *.
      * split; [assumption|]. split; [assumption|]. split; [assumption|].
        split; [|split].
        -- intros k'. rewrite Hkeys, In_keys_obj_set. intuition. subst. auto.
        -- intros k' [<-|Hin]; [|auto].
           destruct (proj2 (Sd k Hv1)) as (l1 & Hl1); [auto|].
           eapply Hmono. exact Hl1.
        -- intros k' l Hl. destruct (proj2 (Sd k' Hv1)) as (l1 & Hl1); [eauto|].
           eapply Hmono. exact Hl1.
      * apply NoDup_obj_set. assumption.
      * apply proto_free_obj_set; assumption.
      * intros k' v. rewrite lookup_obj_set.
        destruct (String.eqb k' k); [intros [= <-]; reflexivity|apply Hv].
Qed.

(** The whole synthesis, with the state the declarations start from. *)
Lemma configureApiGateway_run statics config log st' :
  configureApiGateway statics config = (log, Ok (st', TheClass)) ->
  exists decls deps syn,
    forEach_elems (field config "apis") = Ok decls /\
    foldM declare_api ([], None) decls = Ok deps /\
    foldMM add_lambda
      {| apiMethods := []; apiMethodsOptions := [];
         apiDependencies := fst deps; apiDependenciesProto := snd deps;
         apiResources := [] |}
      (items (field config "lambdas")) = (log, Ok syn) /\
    st' = assign_obj statics (results syn).
Proof.
  unfold configureApiGateway. intros H.
  apply bindM_Ok in H as (apis & l1 & l2 & E & H & ->).
  apply lift_Ok in E as [Hapis ->].
  destruct (truthy apis); [|discriminate].
  apply bindM_Ok in H as (decls & l1 & l3 & E & H & ->).
  apply lift_Ok in E as [Hd ->].
  apply bindM_Ok in H as (deps & l1 & l4 & E & H & ->).
  apply lift_Ok in E as [Hdeps ->].
  apply bindM_Ok in H as (lambdas & l1 & l5 & E & H & ->).
  apply lift_Ok in E as [Hl ->].
  apply bindM_Ok in H as (ls & l1 & l6 & E & H & ->).
  apply lift_Ok in E as [Hls ->].
  apply bindM_Ok in H as (syn & l1 & l7 & E & H & ->).
  injection H as <- <-.
  exists decls, deps, syn. unfold field, items. rewrite Hapis, Hl, Hls.
  rewrite app_nil_r. simpl. auto.
Qed.

Lemma lookup_results_deps statics syn :
  lookup "apiDependencies" (assign_obj statics (results syn))
  = Some (VArr (map (fun kv => VObj [("name", VStr (fst kv));
                                     ("methods", snd kv)])
                    (apiDependencies syn))).
Proof.
  unfold assign_obj, results. simpl.
  rewrite !lookup_obj_set. simpl. reflexivity.
Qed.

(** ** Nothing but what the routes put there *)

Lemma split_nonempty c s : 1 <= List.length (split c s).
Proof.
  induction s as [|x s IH]; simpl; [lia|].
  destruct (Ascii.eqb x c); simpl; [lia|].
  destruct (split c s); simpl in *; lia.
Qed.

Lemma prefix_keys_In p j :
  1 <= j <= List.length (split "/" p) ->
  In (join (map display_name (firstn j (split "/" p)))) (prefix_keys p).
Proof.
  intros Hj. unfold prefix_keys, prefixes. rewrite map_map.
  apply in_map_iff. exists j. split; [reflexivity|].
  apply in_seq. lia.
Qed.

Lemma leaf_key_prefix p : In (leaf_key p) (prefix_keys p).
Proof.
  unfold leaf_key.
  rewrite <- (firstn_all (split "/" p)) at 1.
  apply prefix_keys_In. pose proof (split_nonempty "/" p). lia.
Qed.

(** One turn of the loop over the segments, with the node it stores. *)
Lemma add_segment_node api names res seg r :
  add_segment api (List.length names, names, res) seg = Ok r ->
  exists node,
    r = (S (List.length names), names ++ [display_name seg],
         store res (join (names ++ [display_name seg])) node) /\
    field node "pathPart" = VStr seg /\
    (names = [] -> is_root (field node "parents")) /\
    (names <> [] -> refers_to (field node "parents") (join names)).
Proof.
  unfold add_segment. intros H.
  apply bind_Ok in H as ([parents name] & Hr & H).
  apply bind_Ok in H as (a & _ & H). injection H as <-.
  destruct names as [|n0 names]; simpl List.length in *; cbv iota in Hr.
  - apply bind_Ok in Hr as (a' & _ & Hr).
    apply bind_Ok in Hr as (s & _ & Hr). injection Hr as <- <-.
    simpl app. simpl join. rewrite append_empty_r. eexists.
    split; [reflexivity|]. split; [reflexivity|]. split.
    + intros _. exists s. reflexivity.
    + intros N. contradiction.
  - injection Hr as <- <-. eexists.
    split; [reflexivity|]. split; [reflexivity|]. split.
    + discriminate.
    + intros _. unfold refers_to, field. simpl get.
      change (S (List.length names)) with (List.length (n0 :: names)).
      rewrite firstn_app, firstn_all, Nat.sub_diag. simpl firstn.
      rewrite app_nil_r. reflexivity.
Qed.

Lemma parents_ok_set res k node :
  parents_ok res ->
  (is_root (field node "parents") \/
   exists k', refers_to (field node "parents") k' /\
              (k' <> "__proto__" -> In k' (keys res))) ->
  parents_ok (store res k node).
Proof.
  intros Hp Hn k0 n0 Hin.
  assert (G : forall k', In k' (keys res) -> In k' (keys (store res k node))).
  { intros k' Hk'. apply In_keys_store. auto. }
  apply In_store in Hin as [[E _]|Hin].
  - injection E as -> ->. destruct Hn as [Hn|(k' & Hn & Hk')]; [auto|].
    right. exists k'. auto.
  - destruct (Hp _ _ Hin) as [Hr|(k' & Hr & Hk')]; [auto|].
    right. exists k'. auto.
Qed.

Lemma add_segments_sound api segs : forall names res r,
  foldM (add_segment api) (List.length names, names, res) segs = Ok r ->
  (names <> [] -> join names <> "__proto__" -> In (join names) (keys res)) ->
  parents_ok res ->
  (forall k, In k (keys res) -> In k (keys (snd r))) /\
  (forall j, 1 <= j <= List.length segs ->
     join (names ++ map display_name (firstn j segs)) <> "__proto__" ->
     In (join (names ++ map display_name (firstn j segs))) (keys (snd r))) /\
  (forall k, In k (keys (snd r)) ->
     In k (keys res) \/
     exists j, 1 <= j <= List.length segs /\
               k = join (names ++ map display_name (firstn j segs))) /\
  parents_ok (snd r).
Proof.
  induction segs as [|seg segs IH]; simpl; intros names res r H Hlast Hp.
  - injection H as <-. simpl. split; [auto|]. split; [intros; lia|].
    split; [auto|assumption].
  - apply bind_Ok in H as (r1 & H1 & H).
    apply add_segment_node in H1 as (node & -> & _ & Hroot & Href).
    replace (S (List.length names))
      with (List.length (names ++ [display_name seg])) in H
      by (rewrite length_app; simpl; lia).
    set (key := join (names ++ [display_name seg])) in *.
    apply IH in H as (Hmono & Hcov & Hsound & Hp').
    + split; [|split; [|split]]; [| | |assumption].
      * intros k Hk. apply Hmono, In_keys_store. auto.
      * intros j Hj. destruct j as [|j]; [lia|]. simpl firstn. simpl map.
        destruct j as [|j].
        -- simpl. intros N. apply Hmono, In_keys_store. auto.
        -- replace (names ++ display_name seg
                          :: map display_name (firstn (S j) segs))
             with ((names ++ [display_name seg])
                   ++ map display_name (firstn (S j) segs))
             by (rewrite <- app_assoc; reflexivity).
           apply Hcov. lia.
      * intros k Hk. apply Hsound in Hk as [Hk|(j & Hj & ->)].
        -- apply In_keys_store in Hk as [[-> _]|Hk]; [|auto].
           right. exists 1. split; [lia|]. reflexivity.
        -- right. exists (S j). split; [lia|].
           simpl. rewrite <- app_assoc. reflexivity.
    + intros _ N. apply In_keys_store. auto.
    + apply parents_ok_set; [assumption|].
      destruct names as [|n0 names]; [left; auto|].
      right. exists (join (n0 :: names)).
      split; [apply Href; discriminate|]. intros N.
      apply Hlast; [discriminate|exact N].
Qed.

Lemma all_prefix_keys_app a b :
  all_prefix_keys (a ++ b) = all_prefix_keys a ++ all_prefix_keys b.
Proof. unfold all_prefix_keys. apply flat_map_app. Qed.

Lemma cors_leaf_keys_app a b :
  cors_leaf_keys (a ++ b) = cors_leaf_keys a ++ cors_leaf_keys b.
Proof. unfold cors_leaf_keys. rewrite filter_app, map_app. reflexivity. Qed.

Lemma sound_nil deps proto :
  sound [] {| apiMethods := []; apiMethodsOptions := [];
              apiDependencies := deps; apiDependenciesProto := proto;
              apiResources := [] |}.
Proof.
  unfold sound, parents_ok. simpl. repeat split; intros; contradiction.
Qed.

Lemma add_route_sound lambda st r log st' handled :
  add_route lambda st r = (log, Ok st') ->
  sound handled st -> sound (handled ++ [r]) st'.
Proof.
  intros H (S0 & S1 & S2 & S3 & S4 & S5).
  apply add_route_full in H
    as (p & k & l & n & names & node & Hp & _ & _ & Hres & Hm & _ & Hnr & _ & Ho).
  pose proof (path_of_Ok _ _ Hp) as Hpath.
  pose proof (add_segments_sound _ _ [] _ _ Hres) as (Hmono & Hcov & Hsnd & Hpar);
    [intros N; contradiction|assumption|].
  simpl snd in *. simpl app in *.
  assert (Hleaf : leaf_key p <> "__proto__" ->
                  In (leaf_key p) (keys (apiResources st'))).
  { unfold leaf_key. rewrite <- (firstn_all (split "/" p)) at 1 2.
    apply Hcov. pose proof (split_nonempty "/" p). lia. }
  unfold sound. rewrite all_prefix_keys_app, cors_leaf_keys_app.
  split; [|split; [|split; [|split; [|split]]]].
  - intros r' Hin. apply in_app_iff in Hin as [Hin|[<-|[]]]; [auto|].
    exists p. unfold field in Hp. destruct (get r "path"); try discriminate.
    congruence.
  - intros k0 Hk0. apply in_app_iff.
    apply Hsnd in Hk0 as [Hk0|(j & Hj & ->)]; [auto|].
    right. unfold all_prefix_keys. simpl. rewrite app_nil_r, Hpath.
    apply prefix_keys_In. assumption.
  - intros k0. rewrite Ho. unfold cors_leaf_keys at 2. simpl.
    destruct (cors_enabled r); simpl; rewrite in_app_iff.
    + intros Hk0. apply In_keys_store in Hk0 as [[-> _]|Hk0]; [|auto].
      right. rewrite Hpath. simpl. auto.
    + auto.
  - assumption.
  - intros k0 n0. rewrite Ho. intros Hin.
    assert (Old : In (k0, n0) (apiMethodsOptions st) ->
                  field n0 "resource" = VStr (resource_name k0) /\
                  In k0 (keys (apiResources st'))).
    { intros Hold. destruct (S4 _ _ Hold). auto. }
    destruct (cors_enabled r); [|auto].
    apply In_store in Hin as [[E N]|Hin]; [|auto].
    injection E as -> ->. split; [reflexivity|auto].
  - intros n0. rewrite Hm, in_app_iff. intros [Hin|[<-|[]]].
    + destruct (S5 _ Hin) as (k0 & Hr0 & Hk0). exists k0. auto.
    + exists (leaf_key p). auto.
Qed.

Lemma add_routes_sound lambda routes : forall st log st' handled,
  foldMM (add_route lambda) st routes = (log, Ok st') ->
  sound handled st -> sound (handled ++ routes) st'.
Proof.
  induction routes as [|r routes IH]; simpl; intros st log st' handled H Hs.
  - injection H as <- <-. rewrite app_nil_r. assumption.
  - apply bindM_Ok in H as (st1 & l1 & l2 & E & H & ->).
    apply (add_route_sound _ _ _ _ _ handled) in E; [|assumption].
    apply (IH _ _ _ _ H) in E. rewrite <- app_assoc in E. exact E.
Qed.

Lemma add_lambdas_sound ls : forall st log st' handled,
  foldMM add_lambda st ls = (log, Ok st') ->
  sound handled st -> sound (handled ++ flat_map routes_of_lambda ls) st'.
Proof.
  induction ls as [|l ls IH]; simpl; intros st log st' handled H Hs.
  - injection H as <- <-. rewrite app_nil_r. assumption.
  - apply bindM_Ok in H as (st1 & l1 & l2 & E & H & ->).
    apply add_lambda_Ok in E.
    apply (add_routes_sound _ _ _ _ _ handled) in E; [|assumption].
    apply (IH _ _ _ _ H) in E. rewrite <- app_assoc in E. exact E.
Qed.

(** Two lists without repetition that hold the same elements have the
    same length. *)
Lemma NoDup_same_length (l l' : list string) :
  NoDup l -> NoDup l' -> (forall x, In x l <-> In x l') ->
  List.length l = List.length l'.
Proof.
  intros N N' H. apply Nat.le_antisymm; apply NoDup_incl_length;
    try assumption; intros x Hx; apply H; assumption.
Qed.

(** The state in which a successful synthesis ends. *)
Lemma synthesis_state statics config log st' :
  configureApiGateway statics config = (log, Ok (st', TheClass)) ->
  exists syn,
    st' = assign_obj statics (results syn) /\
    maps_inv syn /\
    covered (routes_of config) syn /\
    sound (routes_of config) syn.
Proof.
  intros H.
  apply configureApiGateway_TheClass in H as (deps & syn & H & ->).
  exists syn. split; [reflexivity|].
  pose proof (add_lambdas_maps _ _ _ _ H) as (Hinv & _ & Hcov);
    [split; apply named_by_nil|].
  pose proof (add_lambdas_sound _ _ _ _ [] H (sound_nil _ _)) as Hs.
  auto.
Qed.

Lemma keys_resources_exact routes syn :
  maps_inv syn -> covered routes syn -> sound routes syn ->
  forall k, In k (keys (apiResources syn)) <->
            In k (all_prefix_keys routes) /\ k <> "__proto__".
Proof.
  intros [_ (_ & _ & Hp)] Hcov (S0 & S1 & _). intros k. split.
  - intros Hk. split; [apply S1, Hk|]. intros ->. contradiction.
  - unfold all_prefix_keys. intros [Hin N].
    apply in_flat_map in Hin as (r & Hr & Hk).
    destruct (S0 r Hr) as (p & Hp').
    assert (path_of r = p) as E by (unfold path_of, field; rewrite Hp'; reflexivity).
    rewrite E in Hk. apply (Hcov r p Hr Hp'); assumption.
Qed.

Lemma keys_options_exact routes syn :
  maps_inv syn -> covered routes syn -> sound routes syn ->
  forall k, In k (keys (apiMethodsOptions syn)) <->
            In k (cors_leaf_keys routes) /\ k <> "__proto__".
Proof.
  intros [(_ & _ & Hp) _] Hcov (S0 & _ & S2 & _). intros k. split.
  - intros Hk. split; [apply S2, Hk|]. intros ->. contradiction.
  - unfold cors_leaf_keys. intros [Hin N].
    apply in_map_iff in Hin as (r & <- & Hr).
    apply filter_In in Hr as [Hr Hc].
    destruct (S0 r Hr) as (p & Hp').
    assert (path_of r = p) as E by (unfold path_of, field; rewrite Hp'; reflexivity).
    rewrite E in *. apply (Hcov r p Hr Hp'); assumption.
Qed.

Lemma length_values (o : obj) : List.length (values o) = List.length (keys o).
Proof. unfold values, keys. rewrite !length_map. reflexivity. Qed.

Lemma names_of_nodes nm o :
  named_by nm o ->
  map (fun n => field n "name") (values o) = map (fun k => VStr (nm k)) (keys o).
Proof.
  intros (_ & Hn & _). unfold values, keys. rewrite !map_map.
  apply map_ext_in. intros [k v] Hin. simpl. apply (Hn k v Hin).
Qed.

Lemma In_values (o : obj) v : In v (values o) -> exists k, In (k, v) o.
Proof.
  unfold values. intros H. apply in_map_iff in H as ([k v'] & <- & Hin).
  exists k. exact Hin.
Qed.

Lemma NoDup_map_VStr l : NoDup l -> NoDup (map VStr l).
Proof.
  induction 1 as [|x l Hx _ IH]; simpl; constructor; [|assumption].
  intros Hin. apply in_map_iff in Hin as (y & [= ->] & Hy). contradiction.
Qed.

Lemma In_shown k ks : In k (shown ks) <-> In k ks /\ k <> "__proto__".
Proof.
  unfold shown. rewrite filter_In, negb_true_iff. split.
  - intros [H E]. split; [assumption|]. apply String.eqb_neq. exact E.
  - intros [H N]. split; [assumption|]. apply String.eqb_neq. exact N.
Qed.

(** The nodes that carry the name made from a key: none when the map
    lacks the key, one when it holds it. *)
Lemma count_named_key nm key o :
  (forall k k', nm k = nm k' -> k = k') ->
  named_by nm o ->
  (key <> "__proto__" -> In key (keys o)) ->
  count_named (nm key) (values o) = nodes_under key.
Proof.
  intros inj Hn Hk. unfold nodes_under.
  destruct (String.eqb key "__proto__") eqn:E.
  - apply String.eqb_eq in E. subst key.
    apply count_named_absent; [exact inj|apply Hn|apply Hn].
  - apply String.eqb_neq in E.
    apply count_named_present; [exact inj|exact Hn|auto].
Qed.

End OutputFacts.

(* ================================================================== *)
(** * Facts about the console and the errors of the synthesizer *)
(* ================================================================== *)

Module ConsoleFacts.
Import Js Lodash Config Spec Outputs ObjFacts MonadFacts SynthFacts OutputFacts.
Local Open Scope js_scope.

Lemma iterate_type_error v : type_error_only (iterate v).
Proof. destruct v; exact I. Qed.

Lemma forEach_type_error v : type_error_only (forEach_elems v).
Proof. destruct v; exact I. Qed.

Lemma hasOwnProperty_type_error v k : type_error_only (hasOwnProperty v k).
Proof.
  destruct v; try exact I. simpl.
  destruct (has_key "hasOwnProperty" props); exact I.
Qed.

Lemma capitalize_type_error v : type_error_only (capitalize v).
Proof.
  unfold capitalize. apply bind_type_error; [|intros; exact I].
  destruct v; try exact I; apply ToString_type_error.
Qed.

Lemma path_segments_type_error api : type_error_only (path_segments api).
Proof.
  unfold path_segments. apply bind_type_error; [apply get_type_error|].
  intros []; exact I.
Qed.

Lemma add_segment_type_error api st seg : type_error_only (add_segment api st seg).
Proof.
  destruct st as [[i names] res]. unfold add_segment.
  apply bind_type_error.
  - destruct i; [|exact I].
    apply bind_type_error; [apply get_type_error|]. intros a.
    apply bind_type_error; [apply ToString_type_error|]. intros; exact I.
  - intros [parents name].
    apply bind_type_error; [apply get_type_error|]. intros; exact I.
Qed.

(** A step that writes nothing to the console and can only fail with a
    [TypeError] passes the verdict on to what follows it. *)
Lemma ends_well_lift {A B} K routes (good : B -> Prop)
  (o : outcome A) (k : A -> M B) :
  type_error_only o ->
  (forall a, o = Ok a -> ends_well K routes good (k a)) ->
  ends_well K routes good (bindM (lift o) k).
Proof.
  intros T H. destruct o as [a|[]|]; try contradiction.
  - rewrite bindM_lift_Ok. apply H. reflexivity.
  - simpl. auto.
Qed.

Lemma ends_well_bind {A B} K routes (good : A -> Prop) (good' : B -> Prop)
  (m : M A) (k : A -> M B) :
  ends_well K routes good m ->
  (forall a, good a -> ends_well K routes good' (k a)) ->
  ends_well K routes good' (bindM m k).
Proof.
  intros Hm Hk. destruct m as [lg [a|[]|]]; simpl in Hm; try contradiction.
  - destruct Hm as [-> Ha]. rewrite bindM_nil_Ok. apply Hk. assumption.
  - simpl. exact Hm.
Qed.

Lemma ends_well_incl {A} K routes routes' (good : A -> Prop) (m : M A) :
  incl routes routes' ->
  ends_well K routes good m -> ends_well K routes' good m.
Proof.
  intros Hi. destruct m as [lg [a|[]|]]; simpl; auto.
  intros [H|(r & Hr & H)]; [auto|]. right. exists r. auto.
Qed.

Lemma deps_shape_push K deps proto k l e :
  deps_shape K deps proto ->
  deps_shape K (fst (pushed deps proto k l e)) (snd (pushed deps proto k l e)).
Proof.
  intros Hs k' Hk'. rewrite selected_pushed.
  destruct (String.eqb k' k); [eauto|apply Hs; assumption].
Qed.

(** Lines 139-147. *)
Lemma push_dependency_ends K deps proto api name :
  deps_shape K deps proto ->
  ends_well K [api] (fun r => deps_shape K (fst r) (snd r))
    (push_dependency deps proto api name).
Proof.
  intros Hs.
  pose proof (get_type_error api "api") as Tg.
  destruct (get api "api") as [a|[]|] eqn:Ea; try contradiction;
    [|unfold push_dependency; rewrite Ea; simpl; auto].
  pose proof (ToString_type_error a) as Tk.
  destruct (ToString a) as [k|[]|] eqn:Ek; try contradiction;
    [|unfold push_dependency; rewrite Ea; cbn [bind]; rewrite Ek; simpl;
      rewrite Ek; simpl; auto].
  assert (Rk : route_key api = k).
  { unfold route_key, field. rewrite Ea, Ek. reflexivity. }
  rewrite (push_dependency_eq _ _ _ _ _ _ Ea Ek).
  destruct (selected deps proto k) as [l|] eqn:L.
  - simpl. split; [reflexivity|]. apply deps_shape_push. exact Hs.
  - simpl. right. exists api.
    split; [simpl; auto|]. rewrite Rk. split; [reflexivity|].
    intros Hin. apply Hs in Hin as (l & Hl). congruence.
Qed.

Lemma foldM_Ok_type_error {A S} (f : S -> A -> outcome S) l s :
  (forall s x, type_error_only (f s x)) -> type_error_only (foldM f s l).
Proof. intros H. apply foldM_type_error. exact H. Qed.

(** Lines 69-158 on any route whatever. *)
Lemma add_route_ends K lambda st api :
  deps_shape K (apiDependencies st) (apiDependenciesProto st) ->
  ends_well K [api] (fun st' => deps_shape K (apiDependencies st')
                            (apiDependenciesProto st'))
    (add_route lambda st api).
Proof.
  intros Hs. unfold add_route.
  apply ends_well_lift; [apply path_segments_type_error|]. intros segments _.
  apply ends_well_lift.
  { apply foldM_type_error. intros. apply add_segment_type_error. }
  intros [[n names] res] _.
  apply ends_well_lift; [apply get_type_error|]. intros m _.
  apply ends_well_lift; [apply capitalize_type_error|]. intros method _.
  apply ends_well_lift; [apply capitalize_type_error|]. intros suffix _.
  apply ends_well_lift; [apply get_type_error|]. intros cors _.
  apply ends_well_lift; [apply get_type_error|]. intros ln _.
  apply ends_well_lift; [apply get_type_error|]. intros a _.
  eapply ends_well_bind; [apply push_dependency_ends; exact Hs|].
  intros deps Hd. simpl. auto.
Qed.

Lemma add_routes_ends K lambda routes : forall st,
  deps_shape K (apiDependencies st) (apiDependenciesProto st) ->
  ends_well K routes (fun st' => deps_shape K (apiDependencies st')
                            (apiDependenciesProto st'))
    (foldMM (add_route lambda) st routes).
Proof.
  induction routes as [|r routes IH]; intros st Hs.
  - simpl. auto.
  - cbn [foldMM]. eapply ends_well_bind.
    + eapply ends_well_incl; [|apply add_route_ends; exact Hs].
      intros x [<-|[]]. simpl. auto.
    + intros st1 H1. eapply ends_well_incl; [|apply IH; exact H1].
      intros x Hx. simpl. auto.
Qed.

Lemma add_lambda_ends K st lambda :
  deps_shape K (apiDependencies st) (apiDependenciesProto st) ->
  ends_well K (routes_of_lambda lambda)
    (fun st' => deps_shape K (apiDependencies st')
                            (apiDependenciesProto st'))
    (add_lambda st lambda).
Proof.
  intros Hs. unfold add_lambda.
  apply ends_well_lift; [apply hasOwnProperty_type_error|]. intros h Hh.
  apply hasOwnProperty_Ok in Hh. unfold routes_of_lambda. rewrite <- Hh.
  destruct h; [|simpl; auto].
  apply ends_well_lift; [apply get_type_error|]. intros g Hg.
  apply ends_well_lift; [apply iterate_type_error|]. intros routes Hr.
  unfold field, items. rewrite Hg, Hr.
  apply add_routes_ends. exact Hs.
Qed.

Lemma add_lambdas_ends K ls : forall st,
  deps_shape K (apiDependencies st) (apiDependenciesProto st) ->
  ends_well K (flat_map routes_of_lambda ls)
    (fun st' => deps_shape K (apiDependencies st')
                            (apiDependenciesProto st'))
    (foldMM add_lambda st ls).
Proof.
  induction ls as [|l ls IH]; intros st Hs.
  - simpl. auto.
  - cbn [foldMM flat_map]. eapply ends_well_bind.
    + eapply ends_well_incl; [|apply add_lambda_ends; exact Hs].
      intros x Hx. apply in_or_app. auto.
    + intros st1 H1. eapply ends_well_incl; [|apply IH; exact H1].
      intros x Hx. apply in_or_app. auto.
Qed.

End ConsoleFacts.

(* ================================================================== *)
(** * Facts about the defaulted entries *)
(* ================================================================== *)

Module EntryFacts.
Import Js Lodash Config Spec Entries ObjFacts MonadFacts LambdaFacts.
Local Open Scope js_scope.

Local Ltac eqbs :=
  repeat match goal with
  | |- context [String.eqb ?a ?b] =>
      let r := eval vm_compute in (String.eqb a b) in
      change (String.eqb a b) with r
  end; cbv iota.

(** The assignment [v.k = x], read field by field. *)
Lemma field_set v k x v' :
  set v k x = Ok v' ->
  (forall k', field v' k' = if String.eqb k' k then x else field v k') /\
  (forall k', own v' k' = String.eqb k' k || own v k') /\
  exists o, v = VObj o /\ v' = VObj (obj_set o k x).
Proof.
  destruct v; simpl; try discriminate. intros [= <-].
  split; [|split; [|eauto]].
  - intros k'. unfold field. simpl. rewrite lookup_obj_set.
    destruct (String.eqb k' k); reflexivity.
  - intros k'. simpl. apply has_key_obj_set.
Qed.

(** [if (!has(lambda, key)) lambda[key] = x], read field by field. *)
Lemma field_default_to v k x v' :
  default_to v k x = Ok v' ->
  (forall k', field v' k' =
              if String.eqb k' k then (if own v k then field v k else x)
              else field v k') /\
  (forall k', own v' k' = String.eqb k' k || own v k').
Proof.
  unfold default_to, has. destruct (own v k) eqn:E.
  - intros [= <-]. split.
    + intros k'. destruct (String.eqb k' k) eqn:Ek; [|reflexivity].
      apply String.eqb_eq in Ek. subst. reflexivity.
    + intros k'. destruct (String.eqb k' k) eqn:Ek; [|reflexivity].
      apply String.eqb_eq in Ek. subst. rewrite E. reflexivity.
  - intros H. apply field_set in H as (Hf & Ho & _). auto.
Qed.

(** Lines 200-202, read field by field. *)
Lemma field_name_services l l' :
  name_services l = Ok l' ->
  (forall k, k <> "services" -> field l' k = field l k) /\
  (forall k, own l k = true -> own l' k = true) /\
  (forall k, k <> "services" -> own l' k = own l k) /\
  (forall svs, field l "services" = VArr svs ->
     exists svs',
       field l' "services" = VArr svs' /\
       Forall2 (named_service (field l "name")) svs svs').
Proof.
  unfold name_services. intros H.
  apply bind_Ok in H as (sv & Hsv & H).
  apply bind_Ok in H as (items & Hit & H).
  apply bind_Ok in H as (items' & Hmap & H).
  assert (Fsv : field l "services" = sv) by (unfold field; rewrite Hsv; reflexivity).
  destruct sv; try (injection H as <-);
    try (split; [auto|]; split; [auto|]; split; [auto|];
         intros svs E; rewrite Fsv in E; discriminate).
  apply field_set in H as (Hf & Ho & _).
  split; [|split; [|split]].
  - intros k Hk. rewrite Hf. apply String.eqb_neq in Hk. rewrite Hk. reflexivity.
  - intros k Hk. rewrite Ho, Hk. apply orb_true_r.
  - intros k Hk. rewrite Ho. apply String.eqb_neq in Hk. rewrite Hk. reflexivity.
  - intros svs E. rewrite Fsv in E. injection E as <-.
    simpl in Hit. injection Hit as <-.
    exists items'. split; [rewrite Hf; reflexivity|].
    apply mapM_Ok_Forall2 in Hmap.
    eapply Forall2_impl; [|exact Hmap]. simpl. intros s s' Hs.
    apply bind_Ok in Hs as (n & Hn & Hs).
    assert (Fn : field l "name" = n) by (unfold field; rewrite Hn; reflexivity).
    rewrite Fn. apply field_set in Hs as (Hsf & _ & _). split.
    + rewrite Hsf. reflexivity.
    + intros k Hk. rewrite Hsf. apply String.eqb_neq in Hk. rewrite Hk.
      reflexivity.
Qed.

Lemma hasOwnProperty_own v k h : hasOwnProperty v k = Ok h -> h = own v k.
Proof.
  destruct v; simpl; try discriminate; try (intros [= <-]; reflexivity).
  destruct (has_key "hasOwnProperty" props); [discriminate|].
  intros [= <-]. reflexivity.
Qed.

(** Lines 190-207, read field by field. *)
Lemma field_fill_defaults l l4 :
  fill_defaults l = Ok l4 ->
  field l4 "memory" = (if own l "memory" then field l "memory" else VNum 1024) /\
  field l4 "timeout" = (if own l "timeout" then field l "timeout" else VNum 300) /\
  field l4 "envs" = (if own l "envs" then field l "envs" else VArr []) /\
  (forall k, ~ In k ["memory"; "timeout"; "envs"; "services"] ->
             field l4 k = field l k /\ own l4 k = own l k) /\
  own l4 "services" = own l "services" /\
  (forall svs, own l "services" = true -> field l "services" = VArr svs ->
     exists svs',
       field l4 "services" = VArr svs' /\
       Forall2 (named_service (field l "name")) svs svs').
Proof.
  unfold fill_defaults. intros H.
  apply bind_Ok in H as (l1 & H1 & H).
  apply bind_Ok in H as (l2 & H2 & H).
  apply bind_Ok in H as (h & Hh & H).
  apply bind_Ok in H as (l3 & H3 & H).
  apply field_default_to in H1 as (F1 & O1).
  apply field_default_to in H2 as (F2 & O2).
  apply field_default_to in H as (F4 & O4).
  apply hasOwnProperty_own in Hh.
  assert (Hh' : h = own l "services").
  { rewrite Hh, O2, O1. reflexivity. }
  assert (F3 : forall k, k <> "services" -> field l3 k = field l2 k).
  { destruct h; [|injection H3 as <-; auto].
    apply field_name_services in H3. apply H3. }
  assert (O3 : forall k, k <> "services" -> own l3 k = own l2 k).
  { destruct h; [|injection H3 as <-; auto].
    apply field_name_services in H3. apply H3. }
  assert (O3s : own l3 "services" = own l2 "services").
  { destruct h; [|injection H3 as <-; auto].
    apply field_name_services in H3 as (_ & Hup & _).
    rewrite <- Hh. symmetry in Hh. apply Hup in Hh. exact Hh. }
  split; [|split; [|split; [|split; [|split]]]].
  - rewrite F4. eqbs. rewrite F3, F2 by discriminate. eqbs. rewrite F1. eqbs.
    reflexivity.
  - rewrite F4. eqbs. rewrite F3, F2 by discriminate. eqbs. rewrite O1. eqbs.
    rewrite F1. eqbs. reflexivity.
  - rewrite F4. eqbs. rewrite O3, O2, O1 by discriminate. eqbs.
    rewrite F3, F2 by discriminate. eqbs. rewrite F1. eqbs. reflexivity.
  - intros k Hk.
    assert (k <> "memory" /\ k <> "timeout" /\ k <> "envs" /\ k <> "services")
      as (N1 & N2 & N3 & N4).
    { repeat split; intros ->; apply Hk; simpl; auto. }
    pose proof N1 as E1. pose proof N2 as E2. pose proof N3 as E3.
    apply String.eqb_neq in E1, E2, E3.
    rewrite F4, O4, E3, F3, O3, F2, O2, E2, F1, O1, E1 by assumption.
    auto.
  - rewrite O4, O3s, O2, O1. reflexivity.
  - intros svs Hown Hsvs. rewrite Hh', Hown in H3.
    apply field_name_services in H3 as (_ & _ & _ & Hs).
    assert (F12 : forall k, k <> "memory" -> k <> "timeout" ->
                             field l2 k = field l k).
    { intros k N1 N2. apply String.eqb_neq in N1, N2.
      rewrite F2, N2, F1, N1. reflexivity. }
    destruct (Hs svs) as (svs' & Hf & HF).
    + rewrite F12 by discriminate. exact Hsvs.
    + exists svs'. split; [rewrite F4; eqbs; exact Hf|].
      rewrite F12 in HF by discriminate. exact HF.
Qed.

(** Line 210, read field by field. *)
Lemma field_set_fullName c l l' :
  set_fullName c l = Ok l' ->
  full_name c l (field l' "fullName") /\
  (forall k, k <> "fullName" -> field l' k = field l k /\ own l' k = own l k).
Proof.
  unfold set_fullName. intros H.
  apply bind_Ok in H as (sn & Hsn & H).
  apply bind_Ok in H as (s1 & H1 & H).
  apply bind_Ok in H as (sg & Hsg & H).
  apply bind_Ok in H as (s2 & H2 & H).
  apply bind_Ok in H as (n & Hn & H).
  apply bind_Ok in H as (s3 & H3 & H).
  apply field_set in H as (Hf & Ho & _). split.
  - exists s1, s2, s3. unfold field at 1 2 3. rewrite Hsn, Hsg, Hn.
    repeat (split; [assumption|]). rewrite Hf. reflexivity.
  - intros k Hk. rewrite Hf, Ho. apply String.eqb_neq in Hk. rewrite Hk. auto.
Qed.

Lemma default_lambda_post c l l' :
  default_lambda c l = Ok l' -> defaulted c l l' /\ services_named l l'.
Proof.
  unfold default_lambda. intros H.
  apply bind_Ok in H as (l4 & H4 & H).
  apply field_fill_defaults in H4 as (Fm & Ft & Fe & Fk & Os & Hs).
  apply field_set_fullName in H as ((s1 & s2 & s3 & T1 & T2 & T3 & Ff) & K).
  split.
  - unfold defaulted.
    rewrite (proj1 (K "memory" ltac:(discriminate))),
            (proj1 (K "timeout" ltac:(discriminate))),
            (proj1 (K "envs" ltac:(discriminate))).
    repeat (split; [assumption|]). split.
    + exists s1, s2, s3. repeat (split; [assumption|]).
      rewrite (proj1 (Fk "name" ltac:(simpl; intuition discriminate))) in T3.
      auto.
    + intros k Hk.
      assert (N : k <> "fullName") by (intros ->; apply Hk; simpl; auto 6).
      destruct (K k N) as [-> ->]. apply Fk.
      intros Hin. apply Hk. simpl in *. intuition.
  - split.
    + rewrite (proj2 (K "services" ltac:(discriminate))). exact Os.
    + intros svs Hown Hsvs. destruct (Hs svs Hown Hsvs) as (svs' & Hf & HF).
      exists svs'. rewrite (proj1 (K "services" ltac:(discriminate))). auto.
Qed.

(** The shapes in which [configureLambda] ends well. *)
Lemma configureLambda_Ok config config' :
  configureLambda config = Ok config' ->
  (truthy (field config "lambdas") = false /\ config' = config) \/
  exists o ls ls',
    config = VObj o /\ lookup "lambdas" o = Some (VArr ls) /\
    Forall2 (fun l l' => default_lambda config l = Ok l') ls ls' /\
    config' = VObj (obj_set o "lambdas" (VArr ls')).
Proof.
  unfold configureLambda. intros H.
  apply bind_Ok in H as (x & Hx & H).
  assert (Fx : field config "lambdas" = x) by (unfold field; rewrite Hx; reflexivity).
  rewrite Fx.
  destruct (truthy x) eqn:T; [|injection H as <-; auto].
  apply bind_Ok in H as (ls & Hls & H).
  apply bind_Ok in H as (ls' & Hm & H).
  right. destruct x; try discriminate.
  - (* a string: the body throws on its first character *)
    exfalso. simpl in Hls. injection Hls as <-.
    destruct s; [discriminate T|]. simpl in Hm.
    unfold default_lambda, fill_defaults, default_to in Hm. simpl in Hm.
    discriminate.
  - simpl in Hls. injection Hls as <-.
    destruct config as [| | | | | |o]; try discriminate.
    simpl in Hx. injection Hx as Hx.
    destruct (lookup "lambdas" o) as [y|] eqn:L; [|discriminate]. subst y.
    simpl in H. injection H as <-.
    exists o, elems, ls'. split; [reflexivity|]. split; [exact L|].
    split; [apply mapM_Ok_Forall2; assumption|reflexivity].
Qed.

Lemma default_lambda_mapping c l l' :
  default_lambda c l = Ok l' -> is_mapping l.
Proof.
  unfold default_lambda. intros H.
  apply bind_Ok in H as (l4 & H4 & _).
  apply fill_defaults_Ok in H4 as (o & m & t & e & -> & _). exists o. reflexivity.
Qed.

(** A run that ends well on a sequence. *)
Lemma configureLambda_run config config' ls :
  configureLambda config = Ok config' ->
  field config "lambdas" = VArr ls ->
  exists o ls',
    config = VObj o /\
    field config' "lambdas" = VArr ls' /\
    Forall2 (fun l l' => default_lambda config l = Ok l') ls ls' /\
    config' = VObj (obj_set o "lambdas" (VArr ls')).
Proof.
  intros H F.
  apply configureLambda_Ok in H as [[T _]|(o & ls0 & ls' & -> & L & HF & ->)].
  - rewrite F in T. discriminate.
  - unfold field in F. simpl in F. rewrite L in F. injection F as ->.
    exists o, ls'. split; [reflexivity|]. split; [|auto].
    unfold field. simpl. rewrite lookup_obj_set. reflexivity.
Qed.

Lemma mapM_stops {A B} (f : A -> outcome B) pre x post e :
  Forall (fun a => exists b, f a = Ok b) pre ->
  f x = Throw e ->
  mapM f (pre ++ x :: post) = Throw e.
Proof.
  intros Hpre Hx. induction Hpre as [|a pre (b & Hb) _ IH]; simpl.
  - rewrite Hx. reflexivity.
  - rewrite Hb, IH. reflexivity.
Qed.

Lemma default_lambda_primitive c l :
  primitive l -> exists m, default_lambda c l = Throw (TypeError m).
Proof.
  destruct l; simpl; try contradiction; intros _; eexists; reflexivity.
Qed.

End EntryFacts.

(* ================================================================== *)
(** * Facts about the whole resolution *)
(* ================================================================== *)

Module ResolveFacts.
Import Js Lodash Config Spec Outputs Entries Files.
Import ObjFacts MonadFacts ResolverFacts SynthFacts OutputFacts ConsoleFacts.
Import EntryFacts.
Local Open Scope js_scope.

(** ** [includes] *)

Lemma prefix_app n : forall h,
  prefix n h = true <-> exists b, h = (n ++ b)%string.
Proof.
  induction n as [|c n IH]; intros h; simpl.
  - split; [intros _; exists h; reflexivity|]. intros _. destruct h; reflexivity.
  - destruct h as [|d h]; [split; [discriminate|intros [b Hb]; discriminate]|].
    simpl. destruct (ascii_dec c d) as [->|Hne].
    + rewrite IH. split; intros [b Hb]; exists b.
      * rewrite Hb. reflexivity.
      * injection Hb; auto.
    + split; [discriminate|]. intros [b Hb]. injection Hb as -> _.
      contradiction.
Qed.

Lemma includes_contains hay needle :
  includes hay needle = true <-> contains hay needle.
Proof.
  unfold contains. induction hay as [|c hay IH]; cbn [includes].
  - rewrite orb_false_r, prefix_app. split.
    + intros [b Hb]. exists EmptyString, b. exact Hb.
    + intros (a & b & H). destruct a; simpl in H; [eauto|discriminate].
  - rewrite orb_true_iff, prefix_app, IH. split.
    + intros [[b Hb]|(a & b & H)].
      * exists EmptyString, b. exact Hb.
      * exists (String c a), b. simpl. rewrite H. reflexivity.
    + intros (a & b & H). destruct a as [|d a]; simpl in H.
      * left. eauto.
      * right. injection H as -> H. eauto.
Qed.

(** ** The steps of [parseConfig] *)

Lemma parseConfig_inv rf mr yi yl yd statics this stageConfig log r :
  parseConfig rf mr yi yl yd statics this stageConfig = (log, Ok r) ->
  exists context c,
    load_config rf mr yi yl yd this stageConfig = Ok (context, c) /\
    finish_config statics this context c = (log, Ok r).
Proof.
  unfold parseConfig. intros H. step H loaded E.
  destruct loaded as [context c]. eauto.
Qed.

Lemma load_config_context rf mr yi yl yd this stageConfig context c :
  load_config rf mr yi yl yd this stageConfig = Ok (context, c) ->
  Object_assign stageConfig (envs this) = Ok context.
Proof.
  unfold load_config. intros H.
  apply bind_Ok in H as (t & _ & H).
  apply bind_Ok in H as (ctx & Hctx & H).
  repeat (apply bind_Ok in H as (? & _ & H)).
  injection H as <- _. exact Hctx.
Qed.

Lemma finish_config_inv statics this context c log st' doc :
  finish_config statics this context c = (log, Ok (st', doc)) ->
  exists c1 c2 c3 c4 r,
    override "stackName" (stack this) c = Ok c1 /\
    override "stage" (stage this) c1 = Ok c2 /\
    Object_assign c2 context = Ok c3 /\
    configureLambda c3 = Ok c4 /\
    configureApiGateway statics c4 = (log, Ok (st', r)) /\
    merge_returned c4 st' r = Ok doc.
Proof.
  unfold finish_config. intros H.
  step H c1 E1. step H c2 E2. step H c3 E3. step H c4 E4. step H r E5.
  step H c5 E6. injection H; intros; subst.
  destruct r as [s r]. exists c1, c2, c3, c4, r.
  rewrite app_nil_r. auto 10.
Qed.

Lemma merge_returned_same c4 st doc :
  merge_returned c4 st SameConfig = Ok doc -> doc = c4.
Proof.
  destruct c4; simpl; try discriminate; try (intros [= <-]; reflexivity).
  destruct (existsb _ _); [discriminate|]. intros [= <-]. reflexivity.
Qed.

Lemma merge_returned_field c4 st r doc :
  merge_returned c4 st r = Ok doc ->
  forall k, ~ In k (keys st) ->
            field doc k = field c4 k /\ own doc k = own c4 k.
Proof.
  intros H k Hk. destruct r.
  - apply merge_returned_same in H. subst. auto.
  - destruct c4; simpl in H; try discriminate;
      try (injection H as <-; auto; fail).
    + destruct (existsb _ _); [discriminate|]. injection H as <-. auto.
    + destruct st; [|discriminate]. injection H as <-. auto.
    + injection H as <-. unfold field. simpl. unfold has_key.
      rewrite lookup_assign_absent by assumption. auto.
Qed.

Lemma configureApiGateway_same statics c log st' :
  configureApiGateway statics c = (log, Ok (st', SameConfig)) ->
  truthy (field c "apis") = false /\ st' = statics /\ log = [].
Proof.
  unfold configureApiGateway. intros H. step H apis E.
  unfold field. rewrite E.
  destruct (truthy apis).
  - step H decls E1. step H deps E2. step H lambdas E3. step H ls E4.
    step H syn E5. discriminate.
  - injection H as <- <-. auto.
Qed.

Lemma configureApiGateway_class statics c log st' :
  configureApiGateway statics c = (log, Ok (st', TheClass)) ->
  truthy (field c "apis") = true.
Proof.
  unfold configureApiGateway. intros H. step H apis E.
  unfold field. rewrite E.
  destruct (truthy apis); [reflexivity|discriminate].
Qed.

Lemma truthy_field_mapping c k : truthy (field c k) = true -> is_mapping c.
Proof.
  unfold field. destruct c; simpl; try discriminate. exists props. reflexivity.
Qed.

(** ** The console *)

Lemma configureApiGateway_ends statics config :
  ends_well (declared_keys config) (routes_of config)
    (fun _ : obj * returned => True) (configureApiGateway statics config).
Proof.
  unfold configureApiGateway.
  apply ends_well_lift; [apply get_type_error|]. intros apis Ha.
  destruct (truthy apis); [|simpl; auto].
  apply ends_well_lift; [apply forEach_type_error|]. intros decls Hd.
  apply ends_well_lift.
  { apply foldM_type_error. intros. apply declare_api_type_error. }
  intros deps Hdeps.
  apply ends_well_lift; [apply get_type_error|]. intros lambdas Hl.
  apply ends_well_lift; [apply iterate_type_error|]. intros ls Hls.
  apply declare_apis_inv in Hdeps as (_ & _ & _ & _ & Hsel & _);
    [|constructor|intros []|intros k v; discriminate].
  eapply ends_well_bind.
  - unfold routes_of, items, field. rewrite Hl, Hls.
    apply add_lambdas_ends. cbn [apiDependencies apiDependenciesProto].
    intros k Hk. apply Hsel.
    unfold declared_keys, field in Hk. rewrite Ha, Hd in Hk. exact Hk.
  - intros syn _. simpl. auto.
Qed.

Lemma configureApiGateway_line statics config :
  one_line_at_most (configureApiGateway statics config).
Proof.
  pose proof (configureApiGateway_ends statics config) as H.
  destruct (configureApiGateway statics config) as [lg [r|[m|m|m]|]];
    simpl in H; try contradiction.
  - left. apply H.
  - destruct H as [->|(r & _ & -> & _)]; [left; reflexivity|].
    right. eauto.
Qed.

Lemma line_lift_bind {A B} (o : outcome A) (k : A -> M B) :
  (forall a, one_line_at_most (k a)) -> one_line_at_most (bindM (lift o) k).
Proof.
  intros H. destruct o as [a|e|].
  - rewrite bindM_lift_Ok. apply H.
  - left. reflexivity.
  - left. reflexivity.
Qed.

Lemma line_bind_quiet {A B} (m : M A) (k : A -> M B) :
  one_line_at_most m -> (forall a, fst (k a) = []) ->
  one_line_at_most (bindM m k).
Proof.
  intros [H|(id & mes & ->)] Hk.
  - destruct m as [l [a|e|]]; simpl in H; subst; simpl.
    + specialize (Hk a). destruct (k a) as [l' r]. simpl in *. subst.
      left. reflexivity.
    + left. reflexivity.
    + left. reflexivity.
  - right. exists id, mes. reflexivity.
Qed.

Lemma finish_config_line statics this context c :
  one_line_at_most (finish_config statics this context c).
Proof.
  unfold finish_config.
  apply line_lift_bind. intros c1.
  apply line_lift_bind. intros c2.
  apply line_lift_bind. intros c3.
  apply line_lift_bind. intros c4.
  apply line_bind_quiet; [apply configureApiGateway_line|].
  intros r. destruct (merge_returned c4 (fst r) (snd r)); reflexivity.
Qed.

Lemma parseConfig_line rf mr yi yl yd statics this stageConfig :
  one_line_at_most (parseConfig rf mr yi yl yd statics this stageConfig).
Proof.
  unfold parseConfig. apply line_lift_bind. intros loaded.
  apply finish_config_line.
Qed.

(** ** [parseStage] *)

Lemma parseStage_read rf mr yi this text :
  rf (stageFile this) = Ok text ->
  parseStage rf mr yi this =
  lift (rendered <- mr text (envs this) ;;
        stageConfig <- yi rendered ;;
        merge_stage this stageConfig).
Proof.
  intros H. unfold parseStage. rewrite H.
  destruct (mr text (envs this)) as [rendered| |]; try reflexivity.
  rewrite bindM_lift_Ok. simpl.
  destruct (yi rendered) as [sc| |]; reflexivity.
Qed.

End ResolveFacts.

(* ================================================================== *)
(** * Facts about the fields of the nodes *)
(* ================================================================== *)

Module NodeFacts.
Import Js Lodash Config Spec Outputs Nodes.
Import ObjFacts MonadFacts StringFacts SynthFacts OutputFacts.
Local Open Scope js_scope.

(** ** The method nodes *)

Lemma add_route_carries lambda st api log st' :
  add_route lambda st api = (log, Ok st') ->
  exists node,
    apiMethods st' = apiMethods st ++ [node] /\ carries (lambda, api) node.
Proof.
  intros H. pose proof H as H0.
  apply add_route_full in H0
    as (p & k & l & n & names & node & Hp & _ & _ & _ & Hm & _ & Hr & _).
  exists node. split; [exact Hm|].
  unfold add_route in H.
  apply bindM_Ok in H as (segments & l1 & l2 & E & H & ->).
  apply lift_Ok in E as [Hseg ->].
  apply bindM_Ok in H as ([[n' names'] res] & l1 & l3 & E & H & ->).
  apply lift_Ok in E as [Hfold ->].
  apply bindM_Ok in H as (mv & l1 & l4 & E & H & ->).
  apply lift_Ok in E as [Hmv ->].
  apply bindM_Ok in H as (method & l1 & l5 & E & H & ->).
  apply lift_Ok in E as [Hcap ->].
  apply bindM_Ok in H as (suffix & l1 & l6 & E & H & ->).
  apply lift_Ok in E as [Hsuf ->].
  apply bindM_Ok in H as (cors & l1 & l7 & E & H & ->).
  apply lift_Ok in E as [Hcors ->].
  apply bindM_Ok in H as (ln & l1 & l8 & E & H & ->).
  apply lift_Ok in E as [Hln ->].
  apply bindM_Ok in H as (a & l1 & l9 & E & H & ->).
  apply lift_Ok in E as [Ha ->].
  apply bindM_Ok in H as (deps & l1 & l10 & Hdep & H & ->).
  injection H as _ <-. cbn [apiMethods] in Hm.
  apply app_inj_tail in Hm as [_ <-].
  assert (Fl : field lambda "name" = ln) by (unfold field; rewrite Hln; reflexivity).
  assert (Fa : field api "api" = a) by (unfold field; rewrite Ha; reflexivity).
  assert (Fc : field api "cors" = cors) by (unfold field; rewrite Hcors; reflexivity).
  unfold carries, cors_enabled. cbn [fst snd].
  rewrite Fl, Fa, Fc, (path_of_Ok _ _ Hp).
  split; [reflexivity|]. split; [reflexivity|]. split; [reflexivity|].
  exact Hr.
Qed.

Lemma add_routes_carry lambda routes : forall st log st',
  foldMM (add_route lambda) st routes = (log, Ok st') ->
  exists nodes,
    apiMethods st' = apiMethods st ++ nodes /\
    Forall2 carries (map (pair lambda) routes) nodes.
Proof.
  induction routes as [|r routes IH]; simpl; intros st log st' H.
  - injection H as <- <-. exists []. rewrite app_nil_r.
    split; [reflexivity|constructor].
  - apply bindM_Ok in H as (st1 & l1 & l2 & E & H & ->).
    apply add_route_carries in E as (node & Ha & Hc).
    apply IH in H as (nodes & Hnodes & HF).
    exists (node :: nodes). split.
    + rewrite Hnodes, Ha, <- app_assoc. reflexivity.
    + constructor; assumption.
Qed.

Lemma add_lambdas_carry ls : forall st log st',
  foldMM add_lambda st ls = (log, Ok st') ->
  exists nodes,
    apiMethods st' = apiMethods st ++ nodes /\
    Forall2 carries (flat_map owned_routes_of_lambda ls) nodes.
Proof.
  induction ls as [|l ls IH]; simpl; intros st log st' H.
  - injection H as <- <-. exists []. rewrite app_nil_r.
    split; [reflexivity|constructor].
  - apply bindM_Ok in H as (st1 & l1 & l2 & E & H & ->).
    apply add_lambda_Ok, add_routes_carry in E as (n1 & H1 & F1).
    apply IH in H as (n2 & H2 & F2).
    exists (n1 ++ n2). split.
    + rewrite H2, H1, <- app_assoc. reflexivity.
    + apply Forall2_app; assumption.
Qed.

(** ** The resource nodes *)

(** One turn of the loop over the segments, with the fields of the node
    it stores. *)
Lemma add_segment_fields api names res seg r :
  add_segment api (List.length names, names, res) seg = Ok r ->
  exists node,
    r = (S (List.length names), names ++ [display_name seg],
         store res (join (names ++ [display_name seg])) node) /\
    field node "name"
      = VStr (resource_name (join (names ++ [display_name seg]))) /\
    field node "pathPart" = VStr seg /\
    field node "api" = field api "api".
Proof.
  unfold add_segment. intros H.
  apply bind_Ok in H as ([parents name] & Hr & H).
  apply bind_Ok in H as (a & Ha & H). injection H as <-.
  assert (Fa : field api "api" = a) by (unfold field; rewrite Ha; reflexivity).
  destruct names as [|n0 names]; simpl List.length in *; cbv iota in Hr.
  - apply bind_Ok in Hr as (a' & _ & Hr).
    apply bind_Ok in Hr as (s & _ & Hr). injection Hr as <- <-.
    simpl app. simpl join. rewrite append_empty_r. eexists.
    split; [reflexivity|]. rewrite Fa. auto.
  - injection Hr as <- <-. eexists.
    split; [reflexivity|]. rewrite Fa. auto.
Qed.

Lemma add_segments_written api segs : forall names res r,
  foldM (add_segment api) (List.length names, names, res) segs = Ok r ->
  forall k node, In (k, node) (snd r) ->
    In (k, node) res \/
    exists j,
      j < List.length segs /\
      k = join (names ++ map display_name (firstn (S j) segs)) /\
      field node "name" = VStr (resource_name k) /\
      field node "pathPart" = VStr (nth j segs EmptyString) /\
      field node "api" = field api "api".
Proof.
  induction segs as [|seg segs IH]; simpl foldM; intros names res r H k node Hin.
  - injection H as <-. left. exact Hin.
  - apply bind_Ok in H as (r1 & H1 & H).
    apply add_segment_fields in H1 as (node1 & -> & Hn & Hp & Ha).
    replace (S (List.length names))
      with (List.length (names ++ [display_name seg])) in H
      by (rewrite length_app; simpl; lia).
    destruct (IH _ _ _ H k node Hin) as [Hold|(j & Hj & Hk & Hnn & Hpp & Haa)].
    + apply In_store in Hold as [[E _]|Hold]; [|auto].
      injection E as -> ->. right. exists 0. simpl.
      split; [lia|]. auto.
    + right. exists (S j). simpl. split; [lia|].
      rewrite <- app_assoc in Hk. auto.
Qed.

Lemma add_route_written lambda st r log st' handled :
  add_route lambda st r = (log, Ok st') ->
  written handled (apiResources st) ->
  written (handled ++ [r]) (apiResources st').
Proof.
  intros H Hw k node Hin.
  apply add_route_full in H
    as (p & _ & _ & n & names & _ & Hp & _ & _ & Hres & _).
  pose proof (add_segments_written _ _ [] _ _ Hres k node Hin)
    as [Hold|(j & Hj & Hk & Hn & Hpp & Ha)].
  - destruct (Hw _ _ Hold) as (r0 & j & Hr0 & Hwf).
    exists r0, j. split; [apply in_app_iff; auto|assumption].
  - exists r, j. split; [apply in_app_iff; simpl; auto|].
    unfold written_for, segments_of. rewrite (path_of_Ok _ _ Hp). auto.
Qed.

Lemma add_routes_written lambda routes : forall st log st' handled,
  foldMM (add_route lambda) st routes = (log, Ok st') ->
  written handled (apiResources st) ->
  written (handled ++ routes) (apiResources st').
Proof.
  induction routes as [|r routes IH]; simpl; intros st log st' handled H Hw.
  - injection H as <- <-. rewrite app_nil_r. assumption.
  - apply bindM_Ok in H as (st1 & l1 & l2 & E & H & ->).
    apply (add_route_written _ _ _ _ _ handled) in E; [|assumption].
    apply (IH _ _ _ _ H) in E. rewrite <- app_assoc in E. exact E.
Qed.

Lemma add_lambdas_written ls : forall st log st' handled,
  foldMM add_lambda st ls = (log, Ok st') ->
  written handled (apiResources st) ->
  written (handled ++ flat_map routes_of_lambda ls) (apiResources st').
Proof.
  induction ls as [|l ls IH]; simpl; intros st log st' handled H Hw.
  - injection H as <- <-. rewrite app_nil_r. assumption.
  - apply bindM_Ok in H as (st1 & l1 & l2 & E & H & ->).
    apply add_lambda_Ok in E.
    apply (add_routes_written _ _ _ _ _ handled) in E; [|assumption].
    apply (IH _ _ _ _ H) in E. rewrite <- app_assoc in E. exact E.
Qed.

End NodeFacts.

(* ================================================================== *)
(** * Facts about the declared identifiers *)
(* ================================================================== *)

Module DeclaredFacts.
Import Js Lodash Config Spec Outputs.
Import ObjFacts MonadFacts SynthFacts WellFormedFacts OutputFacts ConsoleFacts.
Import ResolveFacts.
Local Open Scope js_scope.

(** Lines 55-57 on any entries: a key selects a list afterwards when it
    did before or when one of the entries declares it. *)
Lemma declare_apis_selected decls : forall deps deps',
  foldM declare_api deps decls = Ok deps' ->
  (forall x v, lookup x (fst deps) = Some v -> exists l, v = VArr l) ->
  forall k,
    (exists l, selected (fst deps') (snd deps') k = Some l) <->
    (exists l, selected (fst deps) (snd deps) k = Some l) \/
    In k (map (fun a => match ToString (field a "name") with
                        | Ok k => k
                        | _ => EmptyString
                        end) decls).
Proof.
  induction decls as [|a decls IH]; simpl; intros deps deps' H Hv k.
  - injection H as <-. tauto.
  - apply bind_Ok in H as (d1 & H1 & H).
    unfold declare_api in H1.
    apply bind_Ok in H1 as (n & Hn & H1).
    apply bind_Ok in H1 as (k0 & Hk0 & H1). injection H1 as <-.
    assert (Fk : match ToString (field a "name") with
                 | Ok k => k
                 | _ => EmptyString
                 end = k0) by (unfold field; rewrite Hn, Hk0; reflexivity).
    rewrite Fk. rewrite (IH _ _ H).
    + rewrite selected_declared by exact Hv. intuition.
    + destruct (String.eqb k0 "__proto__"); cbn [fst]; [exact Hv|].
      intros x v. rewrite lookup_obj_set.
      destruct (String.eqb x k0); [intros [= <-]; eauto|apply Hv].
Qed.

Lemma declared_deps_for config decls deps :
  forEach_elems (field config "apis") = Ok decls ->
  foldM declare_api ([], None) decls = Ok deps ->
  deps_for (declared_keys config) (fst deps) (snd deps).
Proof.
  intros Hd H k. unfold declared_keys. rewrite Hd.
  rewrite (declare_apis_selected _ _ _ H) by (intros x v; discriminate).
  split; [|auto]. intros [[l Hl]|Hin]; [|exact Hin].
  unfold selected in Hl. simpl in Hl.
  destruct (String.eqb k "__proto__"); discriminate.
Qed.

(** A route that has been handled selects a declared key. *)
Lemma add_route_declared names lambda st r log st' :
  add_route lambda st r = (log, Ok st') ->
  deps_for names (apiDependencies st) (apiDependenciesProto st) ->
  deps_for names (apiDependencies st') (apiDependenciesProto st') /\
  In (route_key r) names.
Proof.
  intros H Hd.
  apply add_route_full in H
    as (p & k & l & n & nm & node & _ & Hk & Hl & _ & _ & _ & _ & Hp & _).
  apply route_key_Ok in Hk. rewrite Hk. split.
  - replace (apiDependencies st')
      with (fst (pushed (apiDependencies st) (apiDependenciesProto st) k l
                        (dep_entry r))) by (rewrite <- Hp; reflexivity).
    replace (apiDependenciesProto st')
      with (snd (pushed (apiDependencies st) (apiDependenciesProto st) k l
                        (dep_entry r))) by (rewrite <- Hp; reflexivity).
    apply deps_for_pushed; assumption.
  - apply Hd. eauto.
Qed.

Lemma add_routes_declared names lambda routes : forall st log st',
  foldMM (add_route lambda) st routes = (log, Ok st') ->
  deps_for names (apiDependencies st) (apiDependenciesProto st) ->
  deps_for names (apiDependencies st') (apiDependenciesProto st') /\
  forall r, In r routes -> In (route_key r) names.
Proof.
  induction routes as [|r routes IH]; simpl; intros st log st' H Hd.
  - injection H as <- <-. split; [assumption|]. intros r [].
  - apply bindM_Ok in H as (st1 & l1 & l2 & E & H & ->).
    destruct (add_route_declared _ _ _ _ _ _ E Hd) as [Hd1 Hr].
    destruct (IH _ _ _ H Hd1) as [Hd' Hrs].
    split; [assumption|]. intros r' [<-|Hin]; auto.
Qed.

Lemma add_lambdas_declared names ls : forall st log st',
  foldMM add_lambda st ls = (log, Ok st') ->
  deps_for names (apiDependencies st) (apiDependenciesProto st) ->
  deps_for names (apiDependencies st') (apiDependenciesProto st') /\
  forall r, In r (flat_map routes_of_lambda ls) -> In (route_key r) names.
Proof.
  induction ls as [|l ls IH]; simpl; intros st log st' H Hd.
  - injection H as <- <-. split; [assumption|]. intros r [].
  - apply bindM_Ok in H as (st1 & l1 & l2 & E & H & ->).
    apply add_lambda_Ok in E.
    destruct (add_routes_declared _ _ _ _ _ _ E Hd) as [Hd1 Hr].
    destruct (IH _ _ _ H Hd1) as [Hd' Hrs].
    split; [assumption|]. intros r Hin.
    apply in_app_iff in Hin as [Hin|Hin]; auto.
Qed.

(** The synthesizer returns its results only when every route selects a
    declared key. *)
Lemma returns_only_declared statics config log st' :
  configureApiGateway statics config = (log, Ok (st', TheClass)) ->
  forall r, In r (routes_of config) -> In (route_key r) (declared_keys config).
Proof.
  intros H.
  apply configureApiGateway_run in H as (decls & deps & syn & Hd & Hdeps & H & _).
  pose proof (declared_deps_for _ _ _ Hd Hdeps) as Hfor.
  apply (add_lambdas_declared (declared_keys config)) in H; [|exact Hfor].
  apply H.
Qed.

(** ** On well-formed documents *)

Lemma route_ok_key r : route_ok r = true -> route_key r = route_api r.
Proof.
  destruct r as [| | | | | |o]; try discriminate. simpl. intros H.
  apply andb_prop in H as [H _]. apply andb_prop in H as [_ H].
  unfold route_key, route_api, field. simpl.
  destruct (lookup "api" o) as [[| | | |a| |]|]; try discriminate.
  reflexivity.
Qed.

Lemma api_ok_key a :
  api_ok a = true ->
  match ToString (field a "name") with
  | Ok k => k
  | _ => EmptyString
  end = str_of (field a "name").
Proof.
  destruct a as [| | | | | |o]; try discriminate. simpl. unfold field. simpl.
  destruct (lookup "name" o) as [[| | | |s| |]|]; try discriminate.
  reflexivity.
Qed.

Lemma lambda_ok_routes l :
  lambda_ok l = true -> forallb route_ok (routes_of_lambda l) = true.
Proof.
  destruct l as [| | | | | |o]; try discriminate. simpl. intros H.
  apply andb_prop in H as [_ H].
  unfold routes_of_lambda, field, items. simpl. unfold has_key.
  destruct (lookup "apiGateway" o) as [[| | | | |rs|]|]; try discriminate;
    [exact H|reflexivity].
Qed.

Lemma doc_ok_keys d :
  doc_ok d = true ->
  declared_keys d = declared d /\
  map route_key (routes_of d) = map route_api (routes_of d).
Proof.
  unfold doc_ok, declared_keys, declared, routes_of, items. intros H.
  destruct (field d "apis") as [| | | | |decls|]; try discriminate.
  destruct (field d "lambdas") as [| | | | |ls|]; try discriminate.
  apply andb_prop in H as [Hd Hl]. simpl. split.
  - apply map_ext_in. intros a Ha. apply api_ok_key.
    rewrite forallb_forall in Hd. auto.
  - apply map_ext_in. intros r Hr. apply route_ok_key.
    apply in_flat_map in Hr as (l & Hin & Hr).
    rewrite forallb_forall in Hl. apply Hl, lambda_ok_routes in Hin.
    rewrite forallb_forall in Hin. auto.
Qed.

Lemma undeclared_keys_ok d : doc_ok d = true -> undeclared_keys d = undeclared d.
Proof.
  intros H. unfold undeclared_keys, undeclared.
  destruct (doc_ok_keys d H) as [-> ->]. reflexivity.
Qed.

End DeclaredFacts.

(* ================================================================== *)
(** * The stage resolver and the config resolver *)
(* ================================================================== *)

Import Js Lodash Config Spec Samples ObjFacts MonadFacts ResolverFacts.

(** C9.  Stage resolution merges the selected stage's section shallowly
    onto the [default] section: on a key both have the stage's value
    replaces the default's, a key only [default] has is retained, a key
    only the stage has is added; without a selected stage, or when the
    document has no section of that name, the [default] section is
    returned as it is.  With [default: {a: 1, b: 2}] and
    [x: {b: 3, c: 4}], selecting [x] returns [{a: 1, b: 3, c: 4}] and
    selecting nothing returns [{a: 1, b: 2}]. *)
Theorem parseStage_merges_stage_over_default :
  forall readFileSync render load (this : Config.t) text rendered o d,
    readFileSync (stageFile this) = Ok text ->
    render text (envs this) = Ok rendered ->
    load rendered = Ok (VObj o) ->
    lookup "default" o = Some (VObj d) ->
    (forall name section,
        stage this = Some name -> name <> EmptyString ->
        lookup name o = Some (VObj section) -> NoDup (keys section) ->
        exists r,
          parseStage readFileSync render load this = ([], Ok (VObj r)) /\
          forall k, lookup k r =
                    match lookup k section with
                    | Some v => Some v
                    | None => lookup k d
                    end) /\
    (forall name,
        stage this = Some name -> lookup name o = None ->
        parseStage readFileSync render load this = ([], Ok (VObj d))) /\
    (given (stage this) = false ->
     parseStage readFileSync render load this = ([], Ok (VObj d))) /\
    parseStage fs_any render_id (load_const stage_doc) (Samples.this None (Some "x"))
      = ([], Ok (VObj [("a", VNum 1); ("b", VNum 3); ("c", VNum 4)])) /\
    parseStage fs_any render_id (load_const stage_doc) (Samples.this None None)
      = ([], Ok (VObj [("a", VNum 1); ("b", VNum 2)])).
Proof.
  intros rf render load this text rendered o d Hf Hr Hl Hd.
  assert (P : parseStage rf render load this = lift (merge_stage this (VObj o))).
  { unfold parseStage. rewrite Hf, Hr, bindM_lift_Ok, Hl, bindM_lift_Ok.
    reflexivity. }
  repeat split.
  - intros name section Hs Hne Hsec ND.
    rewrite P. unfold merge_stage. rewrite Hs.
    assert (G : given (Some name) = true).
    { simpl. apply String.eqb_neq in Hne. rewrite Hne. reflexivity. }
    rewrite G. simpl. rewrite Hd, Hsec. simpl.
    eexists. split; [reflexivity|].
    intros k. apply lookup_assign_NoDup. assumption.
  - intros name Hs Hn. rewrite P. unfold merge_stage. rewrite Hs.
    destruct (given (Some name)); simpl; rewrite Hd, ?Hn; reflexivity.
  - intros G. rewrite P. unfold merge_stage.
    destruct (stage this) as [name|]; [rewrite G|]; simpl; rewrite Hd; reflexivity.
Qed.

Lemma parseStage_merges_stage_over_default_witness :
  exists r,
    parseStage fs_any render_id (load_const stage_doc) (Samples.this None (Some "x"))
      = ([], Ok (VObj r)) /\
    lookup "a" r = Some (VNum 1) /\ lookup "b" r = Some (VNum 3).
Proof.
  destruct (parseStage_merges_stage_over_default
              fs_any render_id (load_const stage_doc)
              (Samples.this None (Some "x")) EmptyString EmptyString
              [("default", VObj [("a", VNum 1); ("b", VNum 2)]);
               ("x", VObj [("b", VNum 3); ("c", VNum 4)])]
              [("a", VNum 1); ("b", VNum 2)]
              eq_refl eq_refl eq_refl eq_refl) as [H _].
  destruct (H "x" [("b", VNum 3); ("c", VNum 4)] eq_refl) as (r & Hr & Hk).
  - discriminate.
  - reflexivity.
  - repeat constructor; simpl; intuition discriminate.
  - exists r. split; [exact Hr|]. split; rewrite Hk; reflexivity.
Defined.

(** The config resolver runs lines 272-284 on what the two rendering
    passes produced. *)
Lemma parseConfig_finish rf mr yi yl yd statics this stageConfig context c :
  load_config rf mr yi yl yd this stageConfig = Ok (context, c) ->
  parseConfig rf mr yi yl yd statics this stageConfig =
  finish_config statics this context c.
Proof.
  intros H. unfold parseConfig. rewrite H, bindM_lift_Ok. reflexivity.
Qed.

Lemma finish_config_given_stack statics this context c s log r :
  stack this = Some s -> s <> EmptyString ->
  finish_config statics this context c = (log, Ok r) ->
  exists o, c = VObj o.
Proof.
  intros Hs Hne H. unfold finish_config in H.
  apply bindM_Ok in H as (c1 & l1 & l2 & E & _ & _).
  apply lift_Ok in E as [E _]. unfold override in E. rewrite Hs in E.
  simpl in E. apply String.eqb_neq in Hne. rewrite Hne in E. simpl in E.
  destruct c; try discriminate. eauto.
Qed.

(** C1, as the code has it.  With a non-empty stack name supplied from
    outside, the resolved document's [stackName] is that name whatever
    the config template declares, provided the render context (the stage
    variables with the Variable Store merged over them) has no
    [stackName] of its own; when it has one, that value is the
    document's [stackName]. *)
Theorem parseConfig_stackName_override :
  forall rf mr yi yl yd statics this stageConfig s context c log st' doc,
    class_clean statics ->
    stack this = Some s -> s <> EmptyString ->
    load_config rf mr yi yl yd this stageConfig = Ok (context, c) ->
    parseConfig rf mr yi yl yd statics this stageConfig = (log, Ok (st', doc)) ->
    Object_assign stageConfig (envs this) = Ok context /\
    (~ In "stackName" (keys (entries context)) ->
     get doc "stackName" = Ok (VStr s)) /\
    (forall v, NoDup (keys (entries context)) ->
               lookup "stackName" (entries context) = Some v ->
               get doc "stackName" = Ok v).
Proof.
  intros rf mr yi yl yd statics this stageConfig s context c log st' doc
         Hc Hs Hne Hload H.
  split.
  { unfold load_config in Hload.
    apply bind_Ok in Hload as (t & _ & Hload).
    apply bind_Ok in Hload as (ctx & Hctx & Hload).
    repeat (apply bind_Ok in Hload as (? & _ & Hload)).
    injection Hload as <- _. exact Hctx. }
  rewrite (parseConfig_finish _ _ _ _ _ _ _ _ _ _ Hload) in H.
  destruct (finish_config_given_stack _ _ _ _ _ _ _ Hs Hne H) as (o & ->).
  apply finish_config_lookup in H as (o' & -> & K); [|assumption].
  assert (G : given (stack this) = true).
  { rewrite Hs. simpl. apply String.eqb_neq in Hne. rewrite Hne. reflexivity. }
  specialize (K "stackName" eq_refl). simpl. rewrite K. split.
  - intros Hn. rewrite lookup_assign_absent by assumption.
    rewrite lookup_overridden. simpl. rewrite G, Hs. reflexivity.
  - intros v ND Hv. rewrite lookup_assign_NoDup, Hv by assumption. reflexivity.
Qed.

Lemma parseConfig_stackName_override_witness :
  exists doc,
    parseConfig fs_any render_id
      (load_const (VObj [("stackName", VStr "declared")]))
      (load_const (VObj [("stackName", VStr "declared")])) dump_any
      [] (Samples.this (Some "override") None) (VObj [("region", VStr "eu")])
    = ([], Ok ([], doc)) /\
    get doc "stackName" = Ok (VStr "override").
Proof.
  eexists. split; [reflexivity|].
  refine (proj1 (proj2 (parseConfig_stackName_override
            fs_any render_id
            (load_const (VObj [("stackName", VStr "declared")]))
            (load_const (VObj [("stackName", VStr "declared")])) dump_any
            [] (Samples.this (Some "override") None)
            (VObj [("region", VStr "eu")]) "override"
            (VObj [("region", VStr "eu")])
            (VObj [("stackName", VStr "declared")]) [] [] _
            _ eq_refl _ eq_refl eq_refl)) _).
  - intros k [].
  - discriminate.
  - simpl. intuition discriminate.
Defined.

(** C1 as the specification words it fails: a [stackName] among the
    stage variables replaces the externally supplied one. *)
Lemma parseConfig_stackName_override_counterexample :
  ~ (forall rf mr yi yl yd this stageConfig s log st' doc,
        stack this = Some s -> s <> EmptyString ->
        parseConfig rf mr yi yl yd [] this stageConfig = (log, Ok (st', doc)) ->
        get doc "stackName" = Ok (VStr s)).
Proof.
  intros H.
  specialize (H fs_any render_id
                (load_const (VObj [("stackName", VStr "declared")]))
                (load_const (VObj [("stackName", VStr "declared")])) dump_any
                (Samples.this (Some "override") None)
                (VObj [("stackName", VStr "staged")])
                "override" [] []
                (VObj [("stackName", VStr "staged")])
                eq_refl ltac:(discriminate) eq_refl).
  discriminate H.
Qed.

(** C3, as the code has it.  In the last merge of the resolver the
    render context wins: on every key the context has (other than the
    keys the defaulter and the synthesizer rewrite afterwards) the
    resolved document holds the context's value, also when the parsed
    document declares that key; the parsed document's own values, after
    the two overrides, remain only on the keys the context lacks. *)
Theorem parseConfig_context_wins :
  forall rf mr yi yl yd statics this stageConfig context c log st' doc,
    class_clean statics ->
    load_config rf mr yi yl yd this stageConfig = Ok (context, VObj c) ->
    parseConfig rf mr yi yl yd statics this stageConfig = (log, Ok (st', doc)) ->
    NoDup (keys (entries context)) ->
    forall k, rewritten k = false ->
      (forall v, lookup k (entries context) = Some v -> get doc k = Ok v) /\
      (lookup k (entries context) = None ->
       exists o, doc = VObj o /\ lookup k o = lookup k (overridden this c)).
Proof.
  intros rf mr yi yl yd statics this stageConfig context c log st' doc
         Hc Hload H ND k Hk.
  rewrite (parseConfig_finish _ _ _ _ _ _ _ _ _ _ Hload) in H.
  apply finish_config_lookup in H as (o' & -> & K); [|assumption].
  specialize (K k Hk). rewrite lookup_assign_NoDup in K by assumption.
  split.
  - intros v Hv. simpl. rewrite K, Hv. reflexivity.
  - intros Hn. exists o'. split; [reflexivity|]. rewrite K, Hn. reflexivity.
Qed.

Lemma parseConfig_context_wins_witness :
  exists doc,
    parseConfig fs_any render_id
      (load_const (VObj [("a", VNum 1); ("b", VNum 5)]))
      (load_const (VObj [("a", VNum 1); ("b", VNum 5)])) dump_any
      [] (Samples.this None None) (VObj [("a", VNum 2)])
    = ([], Ok ([], doc)) /\
    get doc "a" = Ok (VNum 2).
Proof.
  eexists. split; [reflexivity|].
  refine (proj1 (parseConfig_context_wins
            fs_any render_id
            (load_const (VObj [("a", VNum 1); ("b", VNum 5)]))
            (load_const (VObj [("a", VNum 1); ("b", VNum 5)])) dump_any
            [] (Samples.this None None) (VObj [("a", VNum 2)])
            (VObj [("a", VNum 2)]) [("a", VNum 1); ("b", VNum 5)] [] [] _
            _ eq_refl eq_refl _ "a" eq_refl) (VNum 2) eq_refl).
  - intros k [].
  - repeat constructor. simpl. intuition.
Defined.

(** C3 as the specification words it fails: a key declared by the parsed
    document and by the stage variables ends with the stage's value. *)
Lemma parseConfig_context_wins_counterexample :
  ~ (forall rf mr yi yl yd this stageConfig context c log st' doc k v w,
        load_config rf mr yi yl yd this stageConfig = Ok (context, VObj c) ->
        parseConfig rf mr yi yl yd [] this stageConfig = (log, Ok (st', doc)) ->
        lookup k c = Some v ->
        lookup k (entries stageConfig) = Some w ->
        get doc k = Ok v).
Proof.
  intros H.
  specialize (H fs_any render_id
                (load_const (VObj [("a", VNum 1)]))
                (load_const (VObj [("a", VNum 1)])) dump_any
                (Samples.this None None) (VObj [("a", VNum 2)])
                (VObj [("a", VNum 2)]) [("a", VNum 1)] [] []
                (VObj [("a", VNum 2)]) "a" (VNum 1) (VNum 2)
                eq_refl eq_refl eq_refl eq_refl).
  discriminate H.
Qed.

(* ================================================================== *)
(** * The lambda defaulter *)
(* ================================================================== *)

Import LambdaFacts.

(** C7.  [configureLambda] is idempotent: running it on its own result
    gives that result again (and a run that fails, fails).  The entries
    of [lambdas] keep their order, each one being the defaulted form of
    the entry at the same place, and a [memory], [timeout] or [envs]
    that was set is found unchanged. *)
Theorem configureLambda_idempotent :
  forall config,
    bind (configureLambda config) configureLambda = configureLambda config /\
    forall config' ls,
      configureLambda config = Ok config' ->
      get config "lambdas" = Ok (VArr ls) ->
      exists ls',
        get config' "lambdas" = Ok (VArr ls') /\
        Forall2
          (fun l l' =>
             default_lambda config l = Ok l' /\
             forall k, In k ["memory"; "timeout"; "envs"] ->
                       own l k = true -> get l' k = get l k)
          ls ls'.
Proof.
  intros config.
  assert (Shape : forall config',
    configureLambda config = Ok config' ->
    config' = config \/
    exists o ls ls',
      config = VObj o /\ get config "lambdas" = Ok (VArr ls) /\
      mapM (default_lambda config) ls = Ok ls' /\
      config' = VObj (obj_set o "lambdas" (VArr ls'))).
  { intros config' H. unfold configureLambda in H.
    apply bind_Ok in H as (x & Hx & H).
    destruct (truthy x) eqn:T; [|injection H as <-; auto].
    apply bind_Ok in H as (ls & Hls & H).
    apply bind_Ok in H as (ls' & Hm & H).
    destruct x; try (injection H as <-; auto).
    destruct config; try discriminate.
    simpl in H, Hls. injection H as <-. injection Hls as <-.
    right. exists props, elems, ls'. auto. }
  split.
  - destruct (configureLambda config) as [config'| |] eqn:E; try reflexivity.
    simpl. destruct (Shape _ eq_refl) as [->|(o & ls & ls' & -> & Hg & Hm & ->)];
      [assumption|].
    unfold configureLambda. simpl. rewrite lookup_obj_set. simpl.
    rewrite (mapM_fixed (default_lambda (VObj o)) _ ls ls'); [| |assumption].
    + simpl. rewrite obj_set_twice. reflexivity.
    + intros x y Hxy. apply default_lambda_twice in Hxy. rewrite <- Hxy.
      apply default_lambda_reads; simpl; rewrite lookup_obj_set; reflexivity.
  - intros config' ls H Hg.
    destruct (Shape _ H) as [->|(o & ls0 & ls' & -> & Hg' & Hm & ->)].
    + (* the document came back as it was: [lambdas] is a sequence, so
         this cannot be *)
      unfold configureLambda in H. rewrite Hg in H. simpl in H.
      apply bind_Ok in H as (ls' & Hm & H).
      destruct config; try discriminate. simpl in H. injection H as H.
      simpl in Hg. injection Hg as Hg.
      assert (L : lookup "lambdas" props = Some (VArr ls')).
      { rewrite <- H, lookup_obj_set. reflexivity. }
      exists ls'. simpl. rewrite L.
      split; [reflexivity|].
      apply mapM_Ok_Forall2 in Hm.
      eapply Forall2_impl; [|exact Hm]. simpl. intros l l' Hl.
      split; [assumption|]. intros k Hk.
      eapply default_lambda_keeps; [|exact Hl].
      simpl in *. intuition.
    + rewrite Hg in Hg'. injection Hg' as <-.
      exists ls'. simpl. rewrite lookup_obj_set. simpl.
      split; [reflexivity|].
      apply mapM_Ok_Forall2 in Hm.
      eapply Forall2_impl; [|exact Hm]. simpl. intros l l' Hl.
      split; [assumption|]. intros k Hk.
      eapply default_lambda_keeps; [|exact Hl].
      simpl in *. intuition.
Qed.

(* ================================================================== *)
(** * The API routing synthesizer *)
(* ================================================================== *)

Import StringFacts SynthFacts.

(** C6, as the code has it.  When the synthesizer returns its results,
    [apiMethods] holds one node per route declaration, in declaration
    order; the node's [method] is the verb in upper case, and its name
    is [ApiGatewayMethod], the leaf key of the route's path and the verb
    capitalized: first letter in upper case, the others in lower case. *)
Theorem method_nodes_follow_routes :
  forall statics config log st',
    configureApiGateway statics config = (log, Ok (st', TheClass)) ->
    exists nodes,
      lookup "apiMethods" st' = Some (VArr nodes) /\
      Forall2 method_node_of (routes_of config) nodes.
Proof.
  intros statics config log st' H.
  apply configureApiGateway_TheClass in H as (deps & syn & H & ->).
  apply add_lambdas_methods in H as (_ & nodes & Hn & HF).
  exists nodes. split; [|exact HF].
  rewrite (proj1 (lookup_results statics syn)), Hn. reflexivity.
Qed.

Lemma method_nodes_follow_routes_witness :
  exists st' nodes,
    configureApiGateway [] (doc foo_routes_bare) = ([], Ok (st', TheClass)) /\
    lookup "apiMethods" st' = Some (VArr nodes) /\
    Forall2 method_node_of (routes_of (doc foo_routes_bare)) nodes.
Proof.
  eexists. 
  destruct (method_nodes_follow_routes [] (doc foo_routes_bare) [] _ eq_refl)
    as (nodes & Hl & HF).
  exists nodes. split; [reflexivity|]. split; assumption.
Defined.

(** C6 as the specification words it fails: the name of the node of a
    [get] route ends in [Get], not in [GET]. *)
Lemma method_nodes_follow_routes_counterexample :
  ~ (forall statics config log st' nodes,
        configureApiGateway statics config = (log, Ok (st', TheClass)) ->
        lookup "apiMethods" st' = Some (VArr nodes) ->
        Forall2 method_node_as_specified (routes_of config) nodes).
Proof.
  intros H.
  specialize (H [] (doc [route "Api" "foo" "get" false]) [] _ _ eq_refl eq_refl).
  inversion H as [|r n rs ns (p & m & Hp & Hm & Hn & _) _]; subst.
  injection Hp as <-. injection Hm as <-. discriminate Hn.
Qed.

(** C8, on the code.  Two CORS-enabled routes on the leaf [__proto__]
    that differ only in their verb get no Method-Options node at all,
    where the claim promises one: line 152 stores the node under the key
    [__proto__] of a map made by [{}], which replaces the prototype of
    the map and adds no property, so that [Object.values] shows nothing.
    Both method nodes are there, with [cors] true; the same two routes
    on the leaf [foo/baz] get their one node. *)
Theorem proto_cors_routes_give_no_options_node :
  exists st' methods st2,
    configureApiGateway [] (doc proto_cors_routes) = ([], Ok (st', TheClass)) /\
    lookup "apiMethodsOptions" st' = Some (VArr []) /\
    lookup "apiMethods" st' = Some (VArr methods) /\
    map (fun n => (field n "name", field n "cors")) methods =
      [(VStr "ApiGatewayMethod__proto__Post", VBool true);
       (VStr "ApiGatewayMethod__proto__Put", VBool true)] /\
    configureApiGateway [] (doc cors_routes) = ([], Ok (st2, TheClass)) /\
    lookup "apiMethodsOptions" st2
      = Some (VArr [options_node "FooBaz" (VStr "Api")]).
Proof.
  do 3 eexists. split; [reflexivity|].
  split; [reflexivity|]. split; [reflexivity|].
  split; [reflexivity|]. split; reflexivity.
Qed.

(** What does hold on every document: when the synthesizer returns its
    results, two CORS-enabled routes with the same path have exactly one
    Method-Options node between them, named from the leaf key of that
    path, unless that key is [__proto__], and then they have none. *)
Lemma cors_routes_share_an_options_node :
  forall statics config log st',
    configureApiGateway statics config = (log, Ok (st', TheClass)) ->
    exists options,
      lookup "apiMethodsOptions" st' = Some (VArr options) /\
      forall r1 r2 p,
        In r1 (routes_of config) -> In r2 (routes_of config) ->
        get r1 "path" = Ok (VStr p) -> get r2 "path" = Ok (VStr p) ->
        cors_enabled r1 = true -> cors_enabled r2 = true ->
        count_named (options_name (leaf_key p)) options
        = if String.eqb (leaf_key p) "__proto__" then 0 else 1.
Proof.
  intros statics config log st' H.
  apply configureApiGateway_TheClass in H as (deps & syn & H & ->).
  apply add_lambdas_maps in H as ([Hinv _] & _ & Hcov).
  - exists (values (apiMethodsOptions syn)).
    split; [apply lookup_results|].
    intros r1 r2 p H1 _ Hp _ Hc _.
    destruct (String.eqb (leaf_key p) "__proto__") eqn:E.
    + apply String.eqb_eq in E. rewrite E.
      apply count_named_absent; [exact options_name_inj|apply Hinv|apply Hinv].
    + apply String.eqb_neq in E.
      apply count_named_present; [exact options_name_inj|assumption|].
      apply (Hcov r1 p H1 Hp); assumption.
  - split; apply named_by_nil.
Qed.

(** C10.  A document whose [apis] is a list and which has no [lambdas]
    field makes [configureApiGateway] throw a [TypeError]: nothing is
    returned and nothing is logged.  When the entries of [apis] pass
    lines 55-57, the error is the one of the [for ... of] over the
    missing [lambdas]. *)
Theorem apis_without_lambdas_throws :
  forall statics o decls,
    lookup "apis" o = Some (VArr decls) ->
    lookup "lambdas" o = None ->
    (exists msg,
        configureApiGateway statics (VObj o) = ([], Throw (TypeError msg))) /\
    (forall deps,
        foldM declare_api ([], None) decls = Ok deps ->
        configureApiGateway statics (VObj o) = ([], Throw not_iterable)).
Proof.
  intros statics o decls Ha Hl. unfold configureApiGateway.
  simpl get. rewrite Ha, Hl. rewrite bindM_lift_Ok. simpl truthy. cbv iota.
  simpl forEach_elems. rewrite bindM_lift_Ok.
  pose proof (foldM_type_error declare_api decls declare_api_type_error
                ([], None)) as T.
  destruct (foldM declare_api ([], None) decls) as [deps|[msg| |]|];
    try contradiction.
  - rewrite !bindM_lift_Ok. simpl. split; [|reflexivity].
    unfold not_iterable. eauto.
  - simpl. split; [eauto|discriminate].
Qed.

Lemma apis_without_lambdas_throws_witness :
  configureApiGateway [] (VObj [("apis", VArr [VObj [("name", VStr "Api")]])])
  = ([], Throw not_iterable).
Proof.
  apply (proj2 (apis_without_lambdas_throws []
                  [("apis", VArr [VObj [("name", VStr "Api")]])]
                  [VObj [("name", VStr "Api")]] eq_refl eq_refl)
               ([("Api", VArr [])], None) eq_refl).
Defined.

(** C2, on the code.  The three routes [/foo], [/foo/bar] and [/foo/baz]
    give four resource nodes, not three: the empty segment before the
    leading slash gets a node of its own, named [ApiGateWayResource] and
    with an empty [pathPart], and that node, not the root of the API, is
    the parent of [Foo].  There are three method nodes. *)
Theorem foo_routes_give_four_resources :
  exists st' resources methods,
    configureApiGateway [] (doc foo_routes) = ([], Ok (st', TheClass)) /\
    lookup "apiResources" st' = Some (VArr resources) /\
    lookup "apiMethods" st' = Some (VArr methods) /\
    map (fun n => (field n "name", field n "pathPart", field n "parents"))
        resources =
      [(VStr "ApiGateWayResource", VStr "",
        VArr [VStr "Fn::GetAtt:"; VStr "- ApiRestApi"; VStr "- RootResourceId"]);
       (VStr "ApiGateWayResourceFoo", VStr "foo",
        VArr [VStr "Ref: ApiGateWayResource"]);
       (VStr "ApiGateWayResourceFooBar", VStr "bar",
        VArr [VStr "Ref: ApiGateWayResourceFoo"]);
       (VStr "ApiGateWayResourceFooBaz", VStr "baz",
        VArr [VStr "Ref: ApiGateWayResourceFoo"])] /\
    List.length resources = 4 /\
    List.length methods = 3.
Proof.
  do 3 eexists. split; [reflexivity|].
  split; [reflexivity|]. split; [reflexivity|].
  split; [reflexivity|]. split; reflexivity.
Qed.

(** Written without the leading slash the same routes give the three
    nodes of the comment in the source, [Foo] under the root of the API
    and the other two under [Foo]. *)
Lemma bare_foo_routes_give_three_resources :
  exists st' resources,
    configureApiGateway [] (doc foo_routes_bare) = ([], Ok (st', TheClass)) /\
    lookup "apiResources" st' = Some (VArr resources) /\
    map (fun n => (field n "name", field n "parents")) resources =
      [(VStr "ApiGateWayResourceFoo",
        VArr [VStr "Fn::GetAtt:"; VStr "- ApiRestApi"; VStr "- RootResourceId"]);
       (VStr "ApiGateWayResourceFooBar", VArr [VStr "Ref: ApiGateWayResourceFoo"]);
       (VStr "ApiGateWayResourceFooBaz", VArr [VStr "Ref: ApiGateWayResourceFoo"])].
Proof.
  do 2 eexists. split; [reflexivity|]. split; reflexivity.
Qed.

(** What does hold on every document: when the synthesizer returns
    its results, each prefix of the segments of each route has exactly
    one resource node, the one named from the concatenated display names
    of that prefix, however many routes share it; the one exception is a
    prefix whose key is [__proto__], which line 115 turns into the
    prototype of the map. *)
Lemma resources_one_node_per_key :
  forall statics config log st',
    configureApiGateway statics config = (log, Ok (st', TheClass)) ->
    exists resources,
      lookup "apiResources" st' = Some (VArr resources) /\
      forall r p key,
        In r (routes_of config) -> get r "path" = Ok (VStr p) ->
        In key (prefix_keys p) -> key <> "__proto__" ->
        count_named (resource_name key) resources = 1.
Proof.
  intros statics config log st' H.
  apply configureApiGateway_TheClass in H as (deps & syn & H & ->).
  apply add_lambdas_maps in H as ([_ Hinv] & _ & Hcov).
  - exists (values (apiResources syn)).
    split; [apply lookup_results|].
    intros r p key Hr Hp Hk N.
    apply count_named_present; [exact resource_name_inj|assumption|].
    apply (Hcov r p Hr Hp); assumption.
  - split; apply named_by_nil.
Qed.

Lemma upper_char_not_lower c : is_lower (upper_char c) = false.
Proof. destruct c as [[] [] [] [] [] [] [] []]; reflexivity. Qed.

(** C4, as the code has it.  The path [/{short_name}/items] has the
    display names [""], [ShortnameVar] and [Items], and the leaf key
    [ShortnameVarItems].  A segment [{x}] gives [x] followed by [Var],
    and [{x_y}] gives [xy] followed by [Var], for [x] and [y] free of
    braces and underscores; any other segment is taken as it is; and
    every display name has its first character put in upper case, the
    rest being left alone.  These names are the ones the loop over the
    segments of a route collects. *)
Theorem display_names_of_segments :
  (map display_name (split "/" "/{short_name}/items")
     = [""; "ShortnameVar"; "Items"] /\
   leaf_key "/{short_name}/items" = "ShortnameVarItems") /\
  (forall x, plain x = true ->
             display_name ("{" ++ x ++ "}") = upperFirst (x ++ "Var")) /\
  (forall x y, plain x = true -> plain y = true ->
               display_name ("{" ++ x ++ "_" ++ y ++ "}")
               = upperFirst (x ++ y ++ "Var")) /\
  (forall s, startsWith s "{" = false -> display_name s = upperFirst s) /\
  (forall c r, upperFirst (String c r) = String (upper_char c) r /\
               is_lower (upper_char c) = false) /\
  (forall api segments r,
      foldM (add_segment api) (O, [], []) segments = Ok r ->
      snd (fst r) = map display_name segments).
Proof.
  split; [split; reflexivity|].
  split.
  { intros x Hx. unfold display_name. cbn [startsWith prefix append].
    destruct (ascii_dec "{" "{") as [_|N]; [|contradiction].
    replace (prefix "" (x ++ "}")) with true by (destruct x; reflexivity).
    change (String "{" (x ++ "}")) with ("{" ++ x ++ "}")%string.
    rewrite trim_braces by (apply plain_no_brace; assumption).
    rewrite replace_nothing by assumption. reflexivity. }
  split.
  { intros x y Hx Hy. unfold display_name. cbn [startsWith prefix append].
    destruct (ascii_dec "{" "{") as [_|N]; [|contradiction].
    replace (prefix "" (x ++ String "_" (y ++ "}"))) with true
      by (destruct x; reflexivity).
    replace (x ++ String "_" (y ++ "}"))%string
      with ((x ++ "_" ++ y) ++ "}")%string.
    2:{ rewrite append_assoc. reflexivity. }
    change (String "{" ((x ++ "_" ++ y) ++ "}"))
      with ("{" ++ (x ++ "_" ++ y) ++ "}")%string.
    rewrite trim_braces.
    - rewrite replace_one, append_assoc by assumption. reflexivity.
    - apply no_brace_append; [apply plain_no_brace; assumption|].
      simpl. apply plain_no_brace. assumption. }
  split.
  { intros s Hs. unfold display_name. rewrite Hs. reflexivity. }
  split.
  { intros c r. split; [reflexivity|apply upper_char_not_lower]. }
  intros api segments r H.
  apply add_segments_names in H as (res' & ->). reflexivity.
Qed.

(** C4 as the specification words it fails: the letter after the
    underscore stays in lower case. *)
Lemma display_names_of_segments_counterexample :
  display_name "{short_name}" <> "ShortNameVar" /\
  leaf_key "/{short_name}/items" <> "ShortNameVarItems".
Proof. split; discriminate. Qed.

Import WellFormedFacts Outputs OutputFacts ConsoleFacts ResolveFacts.
Import DeclaredFacts.

(** C5.  On a document with an [apis] list, a route whose [api]
    identifier the list does not declare makes the synthesis throw a
    [TypeError]: it does not return, so that no dependency list comes
    out, partial or not, and whatever it has written to the console is
    the line [<id> is not defined] for the identifier of a route that the
    list does not declare.  On a well-formed document that line is
    written, and it names the first identifier, in the order in which
    the routes are declared, that the list does not declare. *)
Theorem undeclared_api_is_reported :
  forall statics d r,
    truthy (field d "apis") = true ->
    In r (routes_of d) ->
    ~ In (route_key r) (declared_keys d) ->
    (exists log m,
        configureApiGateway statics d = (log, Throw (TypeError m)) /\
        (log = [] \/
         exists r', In r' (routes_of d) /\
                    ~ In (route_key r') (declared_keys d) /\
                    log = [(route_key r' ++ " is not defined")%string])) /\
    (doc_ok d = true ->
     exists id rest m,
       undeclared_keys d = id :: rest /\
       configureApiGateway statics d
       = ([(id ++ " is not defined")%string], Throw (TypeError m))).
Proof.
  intros statics d r T Hr Hn. split.
  - pose proof (configureApiGateway_ends statics d) as He.
    destruct (configureApiGateway statics d) as [log [[st' ret]|e|]] eqn:E;
      simpl in He; try contradiction.
    + exfalso. destruct ret.
      * apply configureApiGateway_same in E as (F & _). congruence.
      * apply Hn. eapply returns_only_declared; eassumption.
    + destruct e as [m|m|m]; try contradiction.
      exists log, m. split; [reflexivity|].
      destruct He as [->|(r' & Hr' & -> & Hn')]; [auto|].
      right. exists r'. auto.
  - intros Hok.
    pose proof (synthesis_outcome statics d Hok) as H.
    rewrite <- (undeclared_keys_ok d Hok) in H.
    assert (Hu : In (route_key r) (undeclared_keys d)).
    { unfold undeclared_keys. apply filter_In. split.
      - apply in_map. assumption.
      - apply negb_true_iff. destruct (existsb _ _) eqn:E; [|reflexivity].
        apply mem_names in E. contradiction. }
    destruct (undeclared_keys d) as [|id rest]; [contradiction|].
    exists id, rest. eexists. split; [reflexivity|exact H].
Qed.

Lemma undeclared_api_is_reported_witness :
  exists m,
    configureApiGateway [] (doc missing_routes)
    = (["Missing is not defined"], Throw (TypeError m)).
Proof.
  destruct (undeclared_api_is_reported [] (doc missing_routes)
              (route "Missing" "bar" "get" false) eq_refl) as [_ H].
  - simpl. auto.
  - simpl. intros [H|[]]. discriminate.
  - destruct (H eq_refl) as (id & rest & m & Hu & Hrun).
    exists m. rewrite Hrun. injection Hu as <- _. reflexivity.
Defined.

(* ================================================================== *)
(** * Further properties of the synthesizer *)
(* ================================================================== *)

Import Outputs OutputFacts.

(** X1.  When the synthesizer returns its results, [apiDependencies] has
    one entry per property key declared by [apis] other than
    [__proto__], each key once, and the [methods] of an entry are the
    names of the method nodes of exactly the routes that refer to that
    key, in declaration order.  An API declared under the name
    [__proto__] has no entry: line 56 makes its list the prototype of
    the map, which [Object.keys] does not show. *)
Theorem dependency_lists_follow_routes :
  forall statics config log st',
    configureApiGateway statics config = (log, Ok (st', TheClass)) ->
    exists entries,
      lookup "apiDependencies" st' = Some (VArr entries) /\
      NoDup (map (fun e => field e "name") entries) /\
      (forall k, In (VStr k) (map (fun e => field e "name") entries) <->
                 In k (declared_keys config) /\ k <> "__proto__") /\
      Forall (fun e => exists k,
                  e = VObj [("name", VStr k);
                            ("methods", VArr (methods_of k (routes_of config)))])
             entries.
Proof.
  intros statics config log st' H.
  apply configureApiGateway_run in H as (decls & deps & syn & Hd & Hdeps & H & ->).
  apply declare_apis_inv in Hdeps as (ND & Hp & Hv & Hkeys & _);
    [|constructor|intros []|intros k v; discriminate].
  apply (add_lambdas_deps _ _ _ _ []) in H as [[Ht _] Hk].
  2:{ split; [|exact Hp]. intros k v Hl. apply Hv in Hl. subst. reflexivity. }
  cbn [apiDependencies] in Hk. simpl app in Ht.
  eexists. split; [apply lookup_results_deps|].
  assert (Hnames :
    map (fun e => field e "name")
        (map (fun kv : string * value =>
                VObj [("name", VStr (fst kv)); ("methods", snd kv)])
             (apiDependencies syn))
    = map VStr (keys (apiDependencies syn))).
  { unfold keys. rewrite !map_map. apply map_ext. intros [k v]. reflexivity. }
  rewrite Hnames, Hk. split; [|split].
  - apply NoDup_map_VStr. assumption.
  - intros k. rewrite in_map_iff. unfold declared_keys. rewrite Hd. split.
    + intros (k' & [= ->] & Hin). apply Hkeys in Hin as [[]|Hin]. exact Hin.
    + intros Hin. exists k. split; [reflexivity|]. apply Hkeys. auto.
  - apply Forall_forall. intros e He.
    apply in_map_iff in He as ([k v] & <- & Hin). exists k. simpl.
    assert (NDs : NoDup (keys (apiDependencies syn))) by (rewrite Hk; exact ND).
    apply (In_lookup_NoDup _ _ _ NDs), Ht in Hin. subst v. reflexivity.
Qed.

Lemma dependency_lists_follow_routes_witness :
  exists st' entries,
    configureApiGateway [] (doc foo_routes_bare) = ([], Ok (st', TheClass)) /\
    lookup "apiDependencies" st' = Some (VArr entries) /\
    Forall (fun e => exists k,
                e = VObj [("name", VStr k);
                          ("methods",
                           VArr (methods_of k (routes_of (doc foo_routes_bare))))])
           entries.
Proof.
  eexists.
  destruct (dependency_lists_follow_routes [] (doc foo_routes_bare) [] _ eq_refl)
    as (entries & Hl & _ & _ & HF).
  exists entries. split; [reflexivity|]. split; assumption.
Defined.

(** X2.  When the synthesizer returns its results, [apiResources] has as
    many nodes as the routes have distinct prefix keys other than
    [__proto__], and the names of the nodes are those keys behind
    [ApiGateWayResource]: none of them is missing, none is there twice,
    and there is no node besides.  A prefix whose key is [__proto__] has
    no node: line 115 makes it the prototype of the map. *)
Theorem resource_nodes_are_the_prefix_keys :
  forall statics config log st',
    configureApiGateway statics config = (log, Ok (st', TheClass)) ->
    exists resources,
      lookup "apiResources" st' = Some (VArr resources) /\
      List.length resources
      = List.length
          (nodup string_dec (shown (all_prefix_keys (routes_of config)))) /\
      forall name,
        In name (map (fun n => field n "name") resources) <->
        exists k, In k (all_prefix_keys (routes_of config)) /\
                  k <> "__proto__" /\
                  name = VStr (resource_name k).
Proof.
  intros statics config log st' H.
  apply synthesis_state in H as (syn & -> & Hinv & Hcov & Hs).
  pose proof (proj2 Hinv) as Hres.
  exists (values (apiResources syn)).
  split; [apply lookup_results|].
  pose proof (keys_resources_exact _ _ Hinv Hcov Hs) as Hk.
  split.
  - rewrite length_values. apply NoDup_same_length.
    + apply Hres.
    + apply NoDup_nodup.
    + intros k. rewrite nodup_In, In_shown. apply Hk.
  - intros name. rewrite (names_of_nodes _ _ Hres), in_map_iff. split.
    + intros (k & <- & Hin). apply Hk in Hin as [Hin N]. exists k. auto.
    + intros (k & Hin & N & ->). exists k. split; [reflexivity|].
      apply Hk. auto.
Qed.

Lemma resource_nodes_are_the_prefix_keys_witness :
  exists st' resources,
    configureApiGateway [] (doc foo_routes_bare) = ([], Ok (st', TheClass)) /\
    lookup "apiResources" st' = Some (VArr resources) /\
    List.length resources = 3.
Proof.
  eexists.
  destruct (resource_nodes_are_the_prefix_keys [] (doc foo_routes_bare) [] _
              eq_refl) as (resources & Hl & Hn & _).
  exists resources. split; [reflexivity|]. split; [exact Hl|].
  rewrite Hn. reflexivity.
Defined.

(** X3.  When the synthesizer returns its results, [apiMethodsOptions]
    has as many nodes as the CORS-enabled routes have distinct leaf
    keys other than [__proto__], and a route that does not enable CORS
    adds none.  A CORS-enabled leaf whose key is [__proto__] has no
    node: line 152 makes it the prototype of the map. *)
Theorem options_nodes_are_the_cors_leaves :
  forall statics config log st',
    configureApiGateway statics config = (log, Ok (st', TheClass)) ->
    exists options,
      lookup "apiMethodsOptions" st' = Some (VArr options) /\
      List.length options
      = List.length
          (nodup string_dec (shown (cors_leaf_keys (routes_of config)))) /\
      forall name,
        In name (map (fun n => field n "name") options) <->
        exists k, In k (cors_leaf_keys (routes_of config)) /\
                  k <> "__proto__" /\
                  name = VStr (options_name k).
Proof.
  intros statics config log st' H.
  apply synthesis_state in H as (syn & -> & Hinv & Hcov & Hs).
  pose proof (proj1 Hinv) as Hopt.
  exists (values (apiMethodsOptions syn)).
  split; [apply lookup_results|].
  pose proof (keys_options_exact _ _ Hinv Hcov Hs) as Hk.
  split.
  - rewrite length_values. apply NoDup_same_length.
    + apply Hopt.
    + apply NoDup_nodup.
    + intros k. rewrite nodup_In, In_shown. apply Hk.
  - intros name. rewrite (names_of_nodes _ _ Hopt), in_map_iff. split.
    + intros (k & <- & Hin). apply Hk in Hin as [Hin N]. exists k. auto.
    + intros (k & Hin & N & ->). exists k. split; [reflexivity|].
      apply Hk. auto.
Qed.

Lemma options_nodes_are_the_cors_leaves_witness :
  exists st' options,
    configureApiGateway [] (doc cors_routes) = ([], Ok (st', TheClass)) /\
    lookup "apiMethodsOptions" st' = Some (VArr options) /\
    List.length options = 1.
Proof.
  eexists.
  destruct (options_nodes_are_the_cors_leaves [] (doc cors_routes) [] _
              eq_refl) as (options & Hl & Hn & _).
  exists options. split; [reflexivity|]. split; [exact Hl|].
  rewrite Hn. reflexivity.
Defined.

(** X4.  When the synthesizer returns its results, the [resource] of
    every method node and of every Method-Options node is the resource
    name of a key, and [apiResources] holds exactly one node of that
    name, unless the key is [__proto__], and then it holds none. *)
Theorem nodes_refer_to_one_resource :
  forall statics config log st',
    configureApiGateway statics config = (log, Ok (st', TheClass)) ->
    exists methods options resources,
      lookup "apiMethods" st' = Some (VArr methods) /\
      lookup "apiMethodsOptions" st' = Some (VArr options) /\
      lookup "apiResources" st' = Some (VArr resources) /\
      forall node, In node methods \/ In node options ->
        exists k, field node "resource" = VStr (resource_name k) /\
                  count_named (resource_name k) resources = nodes_under k.
Proof.
  intros statics config log st' H.
  apply synthesis_state in H
    as (syn & -> & [_ Hres] & _ & (_ & _ & _ & _ & S4 & S5)).
  exists (apiMethods syn), (values (apiMethodsOptions syn)),
         (values (apiResources syn)).
  repeat (split; [apply lookup_results|]).
  intros node [Hin|Hin].
  - destruct (S5 node Hin) as (k & Hr & Hk). exists k. split; [assumption|].
    apply count_named_key; [exact resource_name_inj|assumption|assumption].
  - apply In_values in Hin as (k & Hin).
    destruct (S4 k node Hin) as (Hr & Hk). exists k. split; [assumption|].
    apply count_named_key; [exact resource_name_inj|assumption|auto].
Qed.

Lemma nodes_refer_to_one_resource_witness :
  exists st' methods resources,
    configureApiGateway [] (doc cors_routes) = ([], Ok (st', TheClass)) /\
    lookup "apiMethods" st' = Some (VArr methods) /\
    lookup "apiResources" st' = Some (VArr resources) /\
    Forall (fun node =>
              exists k, field node "resource" = VStr (resource_name k) /\
                        count_named (resource_name k) resources
                        = nodes_under k) methods.
Proof.
  eexists.
  destruct (nodes_refer_to_one_resource [] (doc cors_routes) [] _ eq_refl)
    as (methods & options & resources & Hm & _ & Hr & H).
  exists methods, resources. split; [reflexivity|].
  split; [exact Hm|]. split; [exact Hr|].
  apply Forall_forall. intros node Hin. apply H. auto.
Defined.

(** X5.  When the synthesizer returns its results, every resource node
    hangs either under the root resource of an API or under the node of
    a key, of which [apiResources] holds exactly one, unless that key is
    [__proto__], and then the reference leads to no node. *)
Theorem resource_parents_exist :
  forall statics config log st',
    configureApiGateway statics config = (log, Ok (st', TheClass)) ->
    exists resources,
      lookup "apiResources" st' = Some (VArr resources) /\
      forall node, In node resources ->
        is_root (field node "parents") \/
        exists k, refers_to (field node "parents") k /\
                  count_named (resource_name k) resources = nodes_under k.
Proof.
  intros statics config log st' H.
  apply synthesis_state in H
    as (syn & -> & [_ Hres] & _ & (_ & _ & _ & S3 & _)).
  exists (values (apiResources syn)).
  split; [apply lookup_results|].
  intros node Hin. apply In_values in Hin as (k & Hin).
  destruct (S3 k node Hin) as [Hr|(k' & Hr & Hk')]; [auto|].
  right. exists k'. split; [assumption|].
  apply count_named_key; [exact resource_name_inj|assumption|assumption].
Qed.

Lemma resource_parents_exist_witness :
  exists st' resources,
    configureApiGateway [] (doc foo_routes) = ([], Ok (st', TheClass)) /\
    lookup "apiResources" st' = Some (VArr resources) /\
    Forall (fun node =>
              is_root (field node "parents") \/
              exists k, refers_to (field node "parents") k /\
                        count_named (resource_name k) resources
                        = nodes_under k)
           resources.
Proof.
  eexists.
  destruct (resource_parents_exist [] (doc foo_routes) [] _ eq_refl)
    as (resources & Hr & H).
  exists resources. split; [reflexivity|]. split; [exact Hr|].
  apply Forall_forall. exact H.
Defined.

Import ConsoleFacts.

(** X6.  Whatever the document, [configureApiGateway] either returns
    and has written nothing to the console, or throws a [TypeError]; and
    if it has written to the console before throwing, it has written one
    line, [<id> is not defined], where [<id>] is the identifier of one
    of the document's routes and is not declared by [apis]. *)
Theorem synthesizer_console :
  forall statics config,
    match configureApiGateway statics config with
    | (log, Ok _) => log = []
    | (log, Throw (TypeError _)) =>
        log = [] \/
        exists r, In r (routes_of config) /\
                  log = [(route_key r ++ " is not defined")%string] /\
                  ~ In (route_key r) (declared_keys config)
    | _ => False
    end.
Proof.
  intros statics config.
  assert (H : ends_well (declared_keys config) (routes_of config)
                (fun _ : obj * returned => True)
                (configureApiGateway statics config)).
  { unfold configureApiGateway.
    apply ends_well_lift; [apply get_type_error|]. intros apis Ha.
    destruct (truthy apis); [|simpl; auto].
    apply ends_well_lift; [apply forEach_type_error|]. intros decls Hd.
    apply ends_well_lift.
    { apply foldM_type_error. intros. apply declare_api_type_error. }
    intros deps Hdeps.
    apply ends_well_lift; [apply get_type_error|]. intros lambdas Hl.
    apply ends_well_lift; [apply iterate_type_error|]. intros ls Hls.
    apply declare_apis_inv in Hdeps as (_ & _ & _ & _ & Hsel & _);
      [|constructor|intros []|intros k v; discriminate].
    eapply ends_well_bind.
    - unfold routes_of, items, field. rewrite Hl, Hls.
      apply add_lambdas_ends. cbn [apiDependencies apiDependenciesProto].
      intros k Hk. apply Hsel.
      unfold declared_keys, field in Hk. rewrite Ha, Hd in Hk. exact Hk.
    - intros syn _. simpl. auto. }
  destruct (configureApiGateway statics config) as [lg [r|[]|]]; simpl in H;
    try contradiction; [apply H|exact H].
Qed.

(* ================================================================== *)
(** * Further properties of the lambda defaulter *)
(* ================================================================== *)

Import Entries EntryFacts.

(** X7.  When [configureLambda] returns, every entry of [lambdas] stands
    at its place with [memory] 1024, [timeout] 300 and [envs] the empty
    sequence where the entry had none and with its own value where it
    had one, with [fullName] the text of the document's [stackName],
    [stage] and the entry's [name] joined by dashes, and with every
    field other than those and [services] as it was. *)
Theorem lambda_entries_receive_defaults :
  forall config config' ls,
    configureLambda config = Ok config' ->
    field config "lambdas" = VArr ls ->
    exists ls',
      field config' "lambdas" = VArr ls' /\
      Forall2 (defaulted config) ls ls'.
Proof.
  intros config config' ls H F.
  destruct (configureLambda_run _ _ _ H F) as (o & ls' & -> & F' & HF & ->).
  exists ls'. split; [assumption|].
  eapply Forall2_impl; [|exact HF]. simpl. intros l l' Hl.
  apply default_lambda_post in Hl. apply Hl.
Qed.

Lemma lambda_entries_receive_defaults_witness :
  exists ls',
    field (VObj [("stackName", VStr "app"); ("stage", VStr "dev");
                 ("lambdas", VArr [VObj [("name", VStr "f");
                                         ("memory", VNum 512)]])])
          "lambdas" = VArr [VObj [("name", VStr "f"); ("memory", VNum 512)]] /\
    Forall2 (defaulted (VObj [("stackName", VStr "app"); ("stage", VStr "dev");
                              ("lambdas", VArr [VObj [("name", VStr "f");
                                                      ("memory", VNum 512)]])]))
            [VObj [("name", VStr "f"); ("memory", VNum 512)]] ls'.
Proof.
  destruct (lambda_entries_receive_defaults
              (VObj [("stackName", VStr "app"); ("stage", VStr "dev");
                     ("lambdas", VArr [VObj [("name", VStr "f");
                                             ("memory", VNum 512)]])])
              _ [VObj [("name", VStr "f"); ("memory", VNum 512)]]
              eq_refl eq_refl) as (ls' & _ & H).
  exists ls'. split; [reflexivity|exact H].
Defined.

(** X8.  When [configureLambda] returns, an entry has a [services] field
    exactly when it had one, and when that field is a sequence every
    service in it stands at its place with [lambdaName] the entry's
    [name] and its other fields as they were. *)
Theorem services_carry_the_lambda_name :
  forall config config' ls,
    configureLambda config = Ok config' ->
    field config "lambdas" = VArr ls ->
    exists ls',
      field config' "lambdas" = VArr ls' /\
      Forall2 services_named ls ls'.
Proof.
  intros config config' ls H F.
  destruct (configureLambda_run _ _ _ H F) as (o & ls' & -> & F' & HF & ->).
  exists ls'. split; [assumption|].
  eapply Forall2_impl; [|exact HF]. simpl. intros l l' Hl.
  apply default_lambda_post in Hl. apply Hl.
Qed.

Lemma services_carry_the_lambda_name_witness :
  exists ls',
    Forall2 services_named
      [VObj [("name", VStr "f");
             ("services", VArr [VObj [("image", VStr "img")]])]] ls'.
Proof.
  destruct (services_carry_the_lambda_name
              (VObj [("lambdas",
                      VArr [VObj [("name", VStr "f");
                                  ("services",
                                   VArr [VObj [("image", VStr "img")]])]])])
              _ [VObj [("name", VStr "f");
                       ("services", VArr [VObj [("image", VStr "img")]])]]
              eq_refl eq_refl) as (ls' & _ & H).
  exists ls'. exact H.
Defined.

(** X9.  [configureLambda] touches nothing of the document but
    [lambdas]: the result has the same keys in the same order and the
    same value under every other key; and a document whose [lambdas] is
    absent or falsy is returned as it is. *)
Theorem configureLambda_changes_lambdas_only :
  forall config config',
    configureLambda config = Ok config' ->
    keys_of config' = keys_of config /\
    (forall k, k <> "lambdas" ->
               field config' k = field config k /\ own config' k = own config k) /\
    own config' "lambdas" = own config "lambdas" /\
    (truthy (field config "lambdas") = false -> config' = config).
Proof.
  intros config config' H.
  apply configureLambda_Ok in H as [[T ->]|(o & ls & ls' & -> & L & _ & ->)].
  - auto.
  - assert (Hk : has_key "lambdas" o = true) by (unfold has_key; rewrite L; reflexivity).
    split; [|split; [|split]].
    + simpl. unfold obj_set. rewrite Hk. apply keys_replace_key.
    + intros k Hne. apply String.eqb_neq in Hne. unfold field. simpl.
      rewrite lookup_obj_set, has_key_obj_set, Hne. auto.
    + simpl. rewrite has_key_obj_set, Hk. reflexivity.
    + unfold field. simpl. rewrite L. discriminate.
Qed.

Lemma configureLambda_changes_lambdas_only_witness :
  keys_of (VObj [("stackName", VStr "app");
                 ("lambdas", VArr [VObj [("name", VStr "f")]]);
                 ("region", VStr "eu")])
  = ["stackName"; "lambdas"; "region"] /\
  exists config',
    configureLambda (VObj [("stackName", VStr "app");
                           ("lambdas", VArr [VObj [("name", VStr "f")]]);
                           ("region", VStr "eu")]) = Ok config' /\
    keys_of config' = ["stackName"; "lambdas"; "region"].
Proof.
  split; [reflexivity|]. eexists. split; [reflexivity|].
  exact (proj1 (configureLambda_changes_lambdas_only
                  (VObj [("stackName", VStr "app");
                         ("lambdas", VArr [VObj [("name", VStr "f")]]);
                         ("region", VStr "eu")]) _ eq_refl)).
Defined.

(** X10.  [configureLambda] throws a [TypeError] when [lambdas] is
    truthy and not a sequence, and when an entry of [lambdas] is [null]
    or a scalar, the entries before it having passed the loop body. *)
Theorem configureLambda_needs_mappings :
  forall config,
    truthy (field config "lambdas") = true ->
    ((forall ls, field config "lambdas" <> VArr ls) ->
     exists m, configureLambda config = Throw (TypeError m)) /\
    (forall pre l post,
        field config "lambdas" = VArr (pre ++ l :: post) ->
        Forall (passes config) pre -> primitive l ->
        exists m, configureLambda config = Throw (TypeError m)).
Proof.
  intros config T.
  assert (G : get config "lambdas" = Ok (field config "lambdas")).
  { unfold field in *. destruct (get config "lambdas"); try discriminate.
    reflexivity. }
  unfold configureLambda. rewrite G. cbn [bind]. rewrite T.
  destruct (field config "lambdas") as [| |b|n|s|ls|o] eqn:F;
    try discriminate; split.
  - intros _. eexists. reflexivity.
  - intros pre l post E. discriminate.
  - intros _. eexists. reflexivity.
  - intros pre l post E. discriminate.
  - intros _. destruct s as [|c s]; [discriminate|]. eexists. reflexivity.
  - intros pre l post E. discriminate.
  - intros N. destruct (N ls eq_refl).
  - intros pre l post E Hpre Hl. injection E as ->.
    destruct (default_lambda_primitive config l Hl) as (m & Hm).
    exists m. cbn [iterate bind].
    rewrite (mapM_stops _ _ _ _ _ Hpre Hm). reflexivity.
  - intros _. eexists. reflexivity.
  - intros pre l post E. discriminate.
Qed.

Lemma configureLambda_needs_mappings_witness :
  exists m,
    configureLambda
      (VObj [("lambdas", VArr [VObj [("name", VStr "f")]; VNull])])
    = Throw (TypeError m).
Proof.
  refine (proj2 (configureLambda_needs_mappings
                   (VObj [("lambdas", VArr [VObj [("name", VStr "f")]; VNull])])
                   eq_refl)
                [VObj [("name", VStr "f")]] VNull [] eq_refl _ I).
  repeat constructor. eexists. reflexivity.
Defined.

(* ================================================================== *)
(** * Further properties of the resolution *)
(* ================================================================== *)

Import Files ResolveFacts.

(** X11.  With a non-empty stage name supplied from outside, the
    resolved document's [stage] is that name whatever the config
    template declares, provided the render context has no [stage] of
    its own; when it has one, that value is the document's [stage]. *)
Theorem parseConfig_stage_override :
  forall rf mr yi yl yd statics this stageConfig s context c log st' doc,
    class_clean statics ->
    stage this = Some s -> s <> EmptyString ->
    load_config rf mr yi yl yd this stageConfig = Ok (context, c) ->
    parseConfig rf mr yi yl yd statics this stageConfig = (log, Ok (st', doc)) ->
    (~ In "stage" (keys (entries context)) ->
     get doc "stage" = Ok (VStr s)) /\
    (forall v, NoDup (keys (entries context)) ->
               lookup "stage" (entries context) = Some v ->
               get doc "stage" = Ok v).
Proof.
  intros rf mr yi yl yd statics this stageConfig s context c log st' doc
         Hc Hs Hne Hload H.
  rewrite (parseConfig_finish _ _ _ _ _ _ _ _ _ _ Hload) in H.
  assert (G : given (stage this) = true).
  { rewrite Hs. simpl. apply String.eqb_neq in Hne. rewrite Hne. reflexivity. }
  assert (Hobj : exists o, c = VObj o).
  { apply finish_config_inv in H
      as (c1 & c2 & c3 & c4 & r & E1 & E2 & _).
    unfold override in E2. rewrite Hs, <- Hs, G in E2.
    destruct c1 as [| | | | | |o1]; try discriminate.
    unfold override in E1.
    destruct (stack this) as [x|]; [destruct (given (Some x))|];
      destruct c; try discriminate; eauto. }
  destruct Hobj as (o & ->).
  apply finish_config_lookup in H as (o' & -> & K); [|assumption].
  specialize (K "stage" eq_refl). simpl. rewrite K. split.
  - intros Hn. rewrite lookup_assign_absent by assumption.
    rewrite lookup_overridden. simpl. rewrite G, Hs. reflexivity.
  - intros v ND Hv. rewrite lookup_assign_NoDup, Hv by assumption. reflexivity.
Qed.

Lemma parseConfig_stage_override_witness :
  exists doc,
    parseConfig fs_any render_id
      (load_const (VObj [("stage", VStr "declared")]))
      (load_const (VObj [("stage", VStr "declared")])) dump_any
      [] (Samples.this None (Some "prod")) (VObj [("region", VStr "eu")])
    = ([], Ok ([], doc)) /\
    get doc "stage" = Ok (VStr "prod").
Proof.
  eexists. split; [reflexivity|].
  refine (proj1 (parseConfig_stage_override
            fs_any render_id
            (load_const (VObj [("stage", VStr "declared")]))
            (load_const (VObj [("stage", VStr "declared")])) dump_any
            [] (Samples.this None (Some "prod"))
            (VObj [("region", VStr "eu")]) "prod"
            (VObj [("region", VStr "eu")])
            (VObj [("stage", VStr "declared")]) [] [] _
            _ eq_refl _ eq_refl eq_refl) _).
  - intros k [].
  - discriminate.
  - simpl. intuition discriminate.
Defined.

(** X12.  In the document [parseConfig] returns, the [fullName] of every
    entry of [lambdas] is built from the [stackName] and the [stage] of
    that same document, after the overrides and the merge of the render
    context, and from the entry's [name]. *)
Theorem full_names_follow_the_resolved_document :
  forall rf mr yi yl yd statics this stageConfig log st' doc ls,
    class_clean statics ->
    parseConfig rf mr yi yl yd statics this stageConfig = (log, Ok (st', doc)) ->
    field doc "lambdas" = VArr ls ->
    Forall (fun l => full_name doc l (field l "fullName")) ls.
Proof.
  intros rf mr yi yl yd statics this stageConfig log st' doc ls Hc H Hls.
  apply parseConfig_inv in H as (context & c & _ & H).
  apply finish_config_inv in H
    as (c1 & c2 & c3 & c4 & r & _ & _ & _ & E4 & E5 & E6).
  pose proof (configureApiGateway_clean _ _ _ _ _ Hc E5) as Hc'.
  assert (F : forall k, ~ In k output_keys -> field doc k = field c4 k).
  { intros k Hk. eapply merge_returned_field; [exact E6|]. auto. }
  rewrite F in Hls by (simpl; intuition discriminate).
  unfold full_name.
  rewrite (F "stackName"), (F "stage") by (simpl; intuition discriminate).
  clear F E5 E6 Hc Hc'.
  apply configureLambda_Ok in E4 as [[T ->]|(o & ls0 & ls' & -> & L & HF & ->)].
  - rewrite Hls in T. discriminate.
  - unfold field in Hls. simpl in Hls. rewrite lookup_obj_set in Hls.
    simpl in Hls. injection Hls as ->.
    assert (K : forall k, k <> "lambdas" ->
                  field (VObj (obj_set o "lambdas" (VArr ls))) k = field (VObj o) k).
    { intros k Hk. apply String.eqb_neq in Hk. unfold field. simpl.
      rewrite lookup_obj_set, Hk. reflexivity. }
    rewrite !K by discriminate. clear K L.
    induction HF as [|l0 l r0 r' Hl _ IH]; constructor; [|exact IH].
    apply default_lambda_post in Hl as [(_ & _ & _ & Hf & Hk) _].
    destruct Hf as (s1 & s2 & s3 & T1 & T2 & T3 & Hf).
    exists s1, s2, s3. repeat (split; [assumption|]).
    split; [|assumption].
    rewrite (proj1 (Hk "name" ltac:(simpl; intuition discriminate))).
    assumption.
Qed.

Lemma full_names_follow_the_resolved_document_witness :
  Forall (fun l => full_name
                     (VObj [("lambdas",
                             VArr [VObj [("name", VStr "f");
                                         ("memory", VNum 1024);
                                         ("timeout", VNum 300);
                                         ("envs", VArr []);
                                         ("fullName", VStr "app-dev-f")]]);
                            ("stackName", VStr "app");
                            ("stage", VStr "dev")])
                     l (field l "fullName"))
         [VObj [("name", VStr "f"); ("memory", VNum 1024);
                ("timeout", VNum 300); ("envs", VArr []);
                ("fullName", VStr "app-dev-f")]].
Proof.
  refine (full_names_follow_the_resolved_document
            fs_any render_id
            (load_const (VObj [("lambdas", VArr [VObj [("name", VStr "f")]])]))
            (load_const (VObj [("lambdas", VArr [VObj [("name", VStr "f")]])]))
            dump_any
            [] (Samples.this (Some "app") (Some "dev")) (VObj [])
            [] [] _ _ _ eq_refl eq_refl).
  intros k [].
Defined.

(** X13.  When reading the stage file fails with a message that contains
    [no such file or directory], [parseStage] writes
    [<stageFile> was not found. Skipping stage] to the console and
    returns the empty mapping, and [parse] goes on with [parseConfig] on
    that empty mapping, its console output following the notice. *)
Theorem missing_stage_file_is_skipped :
  forall rf mr yi yl yd statics this e,
    rf (stageFile this) = Throw e ->
    contains (message e) "no such file or directory" ->
    parseStage rf mr yi this = ([skip_notice this], Ok (VObj [])) /\
    parse rf mr yi yl yd statics this =
    (skip_notice this :: fst (parseConfig rf mr yi yl yd statics this (VObj [])),
     snd (parseConfig rf mr yi yl yd statics this (VObj []))).
Proof.
  intros rf mr yi yl yd statics this e Hf Hc.
  apply includes_contains in Hc.
  assert (P : parseStage rf mr yi this = ([skip_notice this], Ok (VObj []))).
  { unfold parseStage. rewrite Hf, Hc. reflexivity. }
  split; [exact P|].
  unfold parse. rewrite P. unfold bindM.
  destruct (parseConfig rf mr yi yl yd statics this (VObj [])) as [l r].
  reflexivity.
Qed.

Lemma missing_stage_file_is_skipped_witness :
  parse fs_missing render_id (load_const (VObj [("a", VNum 1)]))
        (load_const (VObj [("a", VNum 1)])) dump_any
        [] (Samples.this None None)
  = (["stage.yml was not found. Skipping stage"],
     Ok ([], VObj [("a", VNum 1)])).
Proof.
  refine (proj2 (missing_stage_file_is_skipped
                   fs_missing render_id (load_const (VObj [("a", VNum 1)]))
                   (load_const (VObj [("a", VNum 1)])) dump_any
                   [] (Samples.this None None) _ eq_refl _)).
  exists "ENOENT: ", ", open 'stage.yml'". reflexivity.
Defined.

(** X14.  Any other failure of reading the stage file is thrown again:
    [parseStage] and [parse] end with that error, nothing is written to
    the console and [parseConfig] is not run. *)
Theorem other_read_errors_are_rethrown :
  forall rf mr yi yl yd statics this e,
    rf (stageFile this) = Throw e ->
    ~ contains (message e) "no such file or directory" ->
    parseStage rf mr yi this = ([], Throw e) /\
    parse rf mr yi yl yd statics this = ([], Throw e).
Proof.
  intros rf mr yi yl yd statics this e Hf Hc.
  assert (I : includes (message e) "no such file or directory" = false).
  { destruct (includes _ _) eqn:I; [|reflexivity].
    apply includes_contains in I. contradiction. }
  assert (P : parseStage rf mr yi this = ([], Throw e)).
  { unfold parseStage. rewrite Hf, I. reflexivity. }
  split; [exact P|]. unfold parse. rewrite P. reflexivity.
Qed.

Lemma other_read_errors_are_rethrown_witness :
  parse fs_denied render_id (load_const (VObj [("a", VNum 1)]))
        (load_const (VObj [("a", VNum 1)])) dump_any
        [] (Samples.this None None)
  = ([], Throw (FsError "EACCES: permission denied, open 'stage.yml'")).
Proof.
  refine (proj2 (other_read_errors_are_rethrown
                   fs_denied render_id (load_const (VObj [("a", VNum 1)]))
                   (load_const (VObj [("a", VNum 1)])) dump_any
                   [] (Samples.this None None) _ eq_refl _)).
  intros H. apply includes_contains in H. discriminate H.
Defined.

(** X15.  When [parseConfig] returns a document whose [apis] is truthy,
    the document holds the four outputs of the synthesizer,
    [apiMethods], [apiResources], [apiMethodsOptions] and
    [apiDependencies], each with the value the class [Config] carries
    after the call. *)
Theorem synthesized_outputs_reach_the_document :
  forall rf mr yi yl yd statics this stageConfig log st' doc,
    class_clean statics -> NoDup (keys statics) ->
    parseConfig rf mr yi yl yd statics this stageConfig = (log, Ok (st', doc)) ->
    truthy (field doc "apis") = true ->
    forall k, In k output_keys ->
      exists v, lookup k st' = Some v /\ get doc k = Ok v.
Proof.
  intros rf mr yi yl yd statics this stageConfig log st' doc Hc ND H T k Hk.
  apply parseConfig_inv in H as (context & c & _ & H).
  apply finish_config_inv in H
    as (c1 & c2 & c3 & c4 & r & _ & _ & _ & _ & E5 & E6).
  destruct r.
  - apply merge_returned_same in E6. subst doc.
    apply configureApiGateway_same in E5 as (F & _). congruence.
  - pose proof (configureApiGateway_class _ _ _ _ E5) as T4.
    apply truthy_field_mapping in T4 as (o4 & ->).
    cbn [merge_returned Object_assign entries] in E6. injection E6 as <-.
    apply configureApiGateway_TheClass in E5 as (deps & syn & _ & Hst).
    assert (ND' : NoDup (keys st')).
    { rewrite Hst. apply NoDup_assign_obj. assumption. }
    assert (L : exists v, lookup k st' = Some v).
    { destruct (lookup_results statics syn) as (L1 & L2 & L3).
      pose proof (lookup_results_deps statics syn) as L4.
      rewrite Hst.
      simpl in Hk. destruct Hk as [<-|[<-|[<-|[<-|[]]]]]; eauto. }
    destruct L as (v & L). exists v. split; [exact L|].
    cbn [get]. rewrite lookup_assign_NoDup, L by assumption. reflexivity.
Qed.

Lemma synthesized_outputs_reach_the_document_witness :
  exists st' doc v,
    parseConfig fs_any render_id
      (load_const (Samples.doc [route "Api" "foo" "get" false]))
      (load_const (Samples.doc [route "Api" "foo" "get" false])) dump_any
      [] (Samples.this None None) (VObj [])
    = ([], Ok (st', doc)) /\
    lookup "apiMethods" st' = Some v /\ get doc "apiMethods" = Ok v.
Proof.
  assert (Hc : class_clean []) by (intros k []).
  destruct (synthesized_outputs_reach_the_document
              fs_any render_id
              (load_const (Samples.doc [route "Api" "foo" "get" false]))
              (load_const (Samples.doc [route "Api" "foo" "get" false]))
              dump_any
              [] (Samples.this None None) (VObj []) _ _ _
              Hc (NoDup_nil _) eq_refl eq_refl
              "apiMethods" (or_introl eq_refl)) as (v & L & G).
  eexists _, _, v. split; [reflexivity|]. split; [exact L|exact G].
Defined.

(** X16.  When [parseConfig] returns a document whose [apis] is absent
    or falsy, the synthesizer has contributed nothing: the class
    [Config] is as it was, nothing was written to the console, and the
    document is what the lambda defaulter returned for the parsed
    document with the overrides applied and the render context merged
    over it. *)
Theorem without_apis_nothing_is_synthesized :
  forall rf mr yi yl yd statics this stageConfig context c log st' doc,
    class_clean statics ->
    load_config rf mr yi yl yd this stageConfig = Ok (context, c) ->
    parseConfig rf mr yi yl yd statics this stageConfig = (log, Ok (st', doc)) ->
    truthy (field doc "apis") = false ->
    st' = statics /\ log = [] /\
    exists c1 c2 c3,
      override "stackName" (stack this) c = Ok c1 /\
      override "stage" (stage this) c1 = Ok c2 /\
      Object_assign c2 context = Ok c3 /\
      configureLambda c3 = Ok doc.
Proof.
  intros rf mr yi yl yd statics this stageConfig context c log st' doc
         Hc Hload H T.
  rewrite (parseConfig_finish _ _ _ _ _ _ _ _ _ _ Hload) in H.
  apply finish_config_inv in H
    as (c1 & c2 & c3 & c4 & r & E1 & E2 & E3 & E4 & E5 & E6).
  destruct r.
  - apply merge_returned_same in E6. subst doc.
    apply configureApiGateway_same in E5 as (_ & -> & ->).
    split; [reflexivity|]. split; [reflexivity|].
    exists c1, c2, c3. auto.
  - exfalso.
    pose proof (configureApiGateway_clean _ _ _ _ _ Hc E5) as Hc'.
    apply configureApiGateway_class in E5.
    destruct (merge_returned_field _ _ _ _ E6 "apis") as [F _].
    + intros Hin. apply Hc' in Hin. simpl in Hin. intuition discriminate.
    + congruence.
Qed.

Lemma without_apis_nothing_is_synthesized_witness :
  exists st' doc,
    parseConfig fs_any render_id
      (load_const doc_without_apis) (load_const doc_without_apis) dump_any
      [("apiMethods", VArr [VStr "earlier"])] (Samples.this None None) (VObj [])
    = ([], Ok (st', doc)) /\
    st' = [("apiMethods", VArr [VStr "earlier"])].
Proof.
  eexists _, _. split; [reflexivity|].
  refine (proj1 (without_apis_nothing_is_synthesized
            fs_any render_id
            (load_const doc_without_apis) (load_const doc_without_apis) dump_any
            [("apiMethods", VArr [VStr "earlier"])] (Samples.this None None)
            (VObj []) (VObj []) doc_without_apis [] _ _
            _ eq_refl eq_refl eq_refl)).
  intros k [<-|[]]. simpl. auto.
Defined.

(** X17.  A variable of the Variable Store (the [.env] file) takes
    precedence over the stage variables, the config template and the
    two overrides: on every key the store has, other than the keys the
    defaulter and the synthesizer rewrite, the resolved document holds
    the store's value. *)
Theorem env_file_takes_precedence :
  forall rf mr yi yl yd statics this sc context c log st' doc k v,
    class_clean statics ->
    NoDup (keys sc) -> NoDup (keys (entries (envs this))) ->
    load_config rf mr yi yl yd this (VObj sc) = Ok (context, VObj c) ->
    parseConfig rf mr yi yl yd statics this (VObj sc) = (log, Ok (st', doc)) ->
    rewritten k = false ->
    lookup k (entries (envs this)) = Some v ->
    get doc k = Ok v.
Proof.
  intros rf mr yi yl yd statics this sc context c log st' doc k v
         Hc NDs NDe Hload H Hk Hv.
  pose proof (load_config_context _ _ _ _ _ _ _ _ _ Hload) as Hctx.
  simpl in Hctx. injection Hctx as <-.
  rewrite (parseConfig_finish _ _ _ _ _ _ _ _ _ _ Hload) in H.
  apply finish_config_lookup in H as (o' & -> & K); [|assumption].
  simpl. rewrite (K k Hk). cbn [entries].
  rewrite lookup_assign_NoDup by (apply NoDup_assign_obj; assumption).
  rewrite lookup_assign_NoDup, Hv by assumption. reflexivity.
Qed.

Lemma env_file_takes_precedence_witness :
  exists doc,
    parseConfig fs_any render_id
      (load_const (VObj [("region", VStr "template")]))
      (load_const (VObj [("region", VStr "template")])) dump_any
      [] (this_env (VObj [("region", VStr "env")]))
      (VObj [("region", VStr "staged")])
    = ([], Ok ([], doc)) /\
    get doc "region" = Ok (VStr "env").
Proof.
  eexists. split; [reflexivity|].
  refine (env_file_takes_precedence
            fs_any render_id
            (load_const (VObj [("region", VStr "template")]))
            (load_const (VObj [("region", VStr "template")])) dump_any
            [] (this_env (VObj [("region", VStr "env")]))
            [("region", VStr "staged")]
            (VObj [("region", VStr "env")])
            [("region", VStr "template")] [] [] _ "region" (VStr "env")
            _ _ _ eq_refl eq_refl eq_refl eq_refl).
  - intros k [].
  - repeat constructor. simpl. intuition.
  - repeat constructor. simpl. intuition.
Defined.

(** X18.  Whatever the files hold, [parse] writes at most two lines to
    the console: first the notice that the stage file was not found,
    only after such a read failure, and then the line
    [<id> is not defined] of the synthesizer, only when the call ends
    with a [TypeError]. *)
Theorem parse_console :
  forall rf mr yi yl yd statics this,
    exists notice line,
      fst (parse rf mr yi yl yd statics this) = notice ++ line /\
      (notice = [] \/
       notice = [skip_notice this] /\
       exists e, rf (stageFile this) = Throw e /\
                 contains (message e) "no such file or directory") /\
      (line = [] \/
       exists id mes,
         line = [(id ++ " is not defined")%string] /\
         snd (parse rf mr yi yl yd statics this) = Throw (TypeError mes)).
Proof.
  intros rf mr yi yl yd statics this. unfold parse.
  assert (Q : forall sc,
    fst (parseConfig rf mr yi yl yd statics this sc) = [] \/
    exists id mes,
      fst (parseConfig rf mr yi yl yd statics this sc)
        = [(id ++ " is not defined")%string] /\
      snd (parseConfig rf mr yi yl yd statics this sc) = Throw (TypeError mes)).
  { intros sc.
    destruct (parseConfig_line rf mr yi yl yd statics this sc)
      as [H|(id & mes & H)]; [auto|].
    right. exists id, mes. rewrite H. auto. }
  destruct (rf (stageFile this)) as [text|e|] eqn:Hf.
  - rewrite (parseStage_read _ _ _ _ _ Hf).
    match goal with |- context [lift ?o] => destruct o as [sc|e|] end.
    + rewrite bindM_lift_Ok. exists [], (fst (parseConfig rf mr yi yl yd statics this sc)).
      split; [reflexivity|]. split; [auto|]. apply Q.
    + exists [], []. simpl. auto.
    + exists [], []. simpl. auto.
  - unfold parseStage. rewrite Hf.
    destruct (includes (message e) "no such file or directory") eqn:I.
    + exists [skip_notice this],
             (fst (parseConfig rf mr yi yl yd statics this (VObj []))).
      specialize (Q (VObj [])). simpl.
      destruct (parseConfig rf mr yi yl yd statics this (VObj [])) as [l r].
      simpl in *. split; [reflexivity|]. split; [|exact Q].
      right. split; [reflexivity|]. exists e. split; [reflexivity|].
      apply includes_contains. exact I.
    + exists [], []. simpl. auto.
  - unfold parseStage. rewrite Hf. exists [], []. simpl. auto.
Qed.

(** X19.  A stage file that parses to a mapping without a [default]
    section makes [parse] throw a [TypeError]: with a stage selected,
    in the merge of [parseStage]; without one, [parseStage] returns
    [undefined] and the merge of the Variable Store in [parseConfig],
    once the config file is read, throws.  Nothing is written to the
    console. *)
Theorem stage_file_needs_default :
  forall rf mr yi yl yd statics this text rendered sc,
    rf (stageFile this) = Ok text ->
    mr text (envs this) = Ok rendered ->
    yi rendered = Ok (VObj sc) ->
    lookup "default" sc = None ->
    given (stage this) = true \/ (exists t, rf (configFile this) = Ok t) ->
    parse rf mr yi yl yd statics this =
    ([], Throw (TypeError "Cannot convert undefined or null to object")).
Proof.
  intros rf mr yi yl yd statics this text rendered sc Hf Hr Hl Hd Hg.
  unfold parse. rewrite (parseStage_read _ _ _ _ _ Hf), Hr. cbn [bind].
  rewrite Hl. cbn [bind]. unfold merge_stage.
  destruct (stage this) as [s|] eqn:Hs.
  - destruct (given (Some s)) eqn:G.
    + simpl. rewrite Hd. simpl. reflexivity.
    + destruct Hg as [Hg|(t & Ht)]; [discriminate|].
      unfold get. rewrite Hd, bindM_lift_Ok.
      unfold parseConfig, load_config. rewrite Ht. reflexivity.
  - destruct Hg as [Hg|(t & Ht)]; [discriminate|].
    unfold get. rewrite Hd, bindM_lift_Ok.
    unfold parseConfig, load_config. rewrite Ht. reflexivity.
Qed.

Lemma stage_file_needs_default_witness :
  parse fs_any render_id (load_const (VObj [("prod", VObj [("a", VNum 1)])]))
        (load_const (VObj [])) dump_any [] (Samples.this None (Some "prod"))
  = ([], Throw (TypeError "Cannot convert undefined or null to object")).
Proof.
  refine (stage_file_needs_default
            fs_any render_id
            (load_const (VObj [("prod", VObj [("a", VNum 1)])]))
            (load_const (VObj [])) dump_any [] (Samples.this None (Some "prod"))
            EmptyString EmptyString [("prod", VObj [("a", VNum 1)])]
            eq_refl eq_refl eq_refl eq_refl _).
  left. reflexivity.
Defined.

(* ================================================================== *)
(** * The fields of the nodes *)
(* ================================================================== *)

Import Nodes NodeFacts.

(** X20.  When the synthesizer returns its results, the method node of
    every route, in declaration order, carries in [lambda] the [name]
    of the lambda entry that declares the route, in [api] the route's
    [api], in [cors] the route's [cors] when that is truthy and [false]
    otherwise, and in [resource] the resource name of the leaf key of
    the route's path. *)
Theorem method_nodes_carry_their_lambda :
  forall statics config log st',
    configureApiGateway statics config = (log, Ok (st', TheClass)) ->
    exists nodes,
      lookup "apiMethods" st' = Some (VArr nodes) /\
      Forall2 carries (owned_routes config) nodes.
Proof.
  intros statics config log st' H.
  apply configureApiGateway_TheClass in H as (deps & syn & H & ->).
  apply add_lambdas_carry in H as (nodes & Hn & HF).
  exists nodes. split; [|exact HF].
  rewrite (proj1 (lookup_results statics syn)), Hn. reflexivity.
Qed.

Lemma method_nodes_carry_their_lambda_witness :
  exists st' nodes,
    configureApiGateway [] (doc [route "Api" "foo" "get" true])
    = ([], Ok (st', TheClass)) /\
    lookup "apiMethods" st' = Some (VArr nodes) /\
    Forall2 carries (owned_routes (doc [route "Api" "foo" "get" true])) nodes.
Proof.
  destruct (method_nodes_carry_their_lambda
              [] (doc [route "Api" "foo" "get" true]) _ _ eq_refl)
    as (nodes & Hl & HF).
  eexists _, nodes. split; [reflexivity|]. split; [exact Hl|exact HF].
Defined.

(** X21.  When the synthesizer returns its results, every node of
    [apiResources] was stored for a segment of one of the document's
    routes: its name is the resource name of the key made of the
    display names up to that segment, its [pathPart] is that segment as
    written in the path, and its [api] is the [api] of that route. *)
Theorem resource_nodes_come_from_segments :
  forall statics config log st',
    configureApiGateway statics config = (log, Ok (st', TheClass)) ->
    exists resources,
      lookup "apiResources" st' = Some (VArr resources) /\
      forall node, In node resources ->
        exists r j k, In r (routes_of config) /\ written_for r j k node.
Proof.
  intros statics config log st' H.
  apply configureApiGateway_TheClass in H as (deps & syn & H & ->).
  apply (add_lambdas_written _ _ _ _ []) in H; [|intros k node []].
  exists (values (apiResources syn)).
  split; [apply lookup_results|].
  intros node Hin. apply In_values in Hin as (k & Hin).
  destruct (H _ _ Hin) as (r & j & Hr & Hw). exists r, j, k. auto.
Qed.

Lemma resource_nodes_come_from_segments_witness :
  exists st' resources,
    configureApiGateway [] (doc [route "Api" "foo/{short_name}" "get" false])
    = ([], Ok (st', TheClass)) /\
    lookup "apiResources" st' = Some (VArr resources) /\
    forall node, In node resources ->
      exists r j k,
        In r (routes_of (doc [route "Api" "foo/{short_name}" "get" false])) /\
        written_for r j k node.
Proof.
  destruct (resource_nodes_come_from_segments
              [] (doc [route "Api" "foo/{short_name}" "get" false]) _ _ eq_refl)
    as (resources & Hl & HF).
  eexists _, resources. split; [reflexivity|]. split; [exact Hl|exact HF].
Defined.
